(** * Newton-Raphson power-flow solver (power_flow_solver.py)

    A shallow embedding of [PowerFlowSolver] and the properties of its
    bus classification, injection estimates, Jacobian, linear correction,
    state update and convergence test.

    Numbers.  Python floats are modelled as the real numbers [R] of the
    Standard Library and complex numbers as pairs of reals: every statement
    below is about exact arithmetic, rounding is not modelled.

    Objects.  The [Bus] objects of [system.buses] are mutable and shared
    between the system and the estimates that refer to them.  The bus list
    is the store; a bus reference is the position of the bus in that list,
    and [_BusEstimate.bus] holds such a reference.

    Exceptions.  Fallible computations return [res]; methods that mutate
    the solver return the outcome together with the solver as it is when
    the method returns or raises. *)

From Stdlib Require Import Reals Lra List ZArith Bool Lia.
From Stdlib Require String Permutation Sorted.
Import ListNotations.

Open Scope R_scope.

(** ** Exceptions *)

Inductive exn : Type :=
| IndexError
| KeyError
| ValueError
| LinAlgError.

Inductive res (A : Type) : Type :=
| Ok (a : A)
| Raise (e : exn).

Arguments Ok {A} a.
Arguments Raise {A} e.

Definition bind {A B : Type} (m : res A) (k : A -> res B) : res B :=
  match m with
  | Ok a => k a
  | Raise e => Raise e
  end.

Notation "x <- m ;; k" := (bind m (fun x => k))
  (at level 61, m at next level, right associativity).

Fixpoint mapM {A B : Type} (f : A -> res B) (l : list A) : res (list B) :=
  match l with
  | [] => Ok []
  | x :: l' => y <- f x ;; ys <- mapM f l' ;; Ok (y :: ys)
  end.

Fixpoint foldM {A B : Type} (f : A -> B -> res A) (l : list B) (a : A) : res A :=
  match l with
  | [] => Ok a
  | x :: l' => a' <- f a x ;; foldM f l' a'
  end.

(** ** Python and numpy primitives *)

(** [enumerate(l)] *)
Definition enumerate {A : Type} (l : list A) : list (nat * A) :=
  combine (seq 0 (length l)) l.

(** [l[i]] for a list or an array and a non-negative index. *)
Definition getitem {A : Type} (l : list A) (i : nat) : res A :=
  match nth_error l i with
  | Some x => Ok x
  | None => Raise IndexError
  end.

(** Truth value of a float: [if x:] is [x != 0]. *)
Definition truthy (x : R) : bool :=
  if Req_dec_T x 0 then false else true.

Definition Rle_bool (x y : R) : bool :=
  if Rle_dec x y then true else false.

(** Complex numbers, with the attribute names of Python. *)
Record complex : Type := mkC { real : R; imag : R }.

Definition arctan2 (y x : R) : R :=
  if Rlt_dec 0 x then atan (y / x)
  else if Rlt_dec x 0 then
         if Rle_dec 0 y then atan (y / x) + PI else atan (y / x) - PI
       else if Rlt_dec 0 y then PI / 2
       else if Rlt_dec y 0 then - (PI / 2)
       else 0.

(** [numpy.abs(z)] and [numpy.angle(z)] of a complex number. *)
Definition numpy_abs (z : complex) : R :=
  sqrt (real z * real z + imag z * imag z).

Definition numpy_angle (z : complex) : R :=
  arctan2 (imag z) (real z).

(** [magnitude * numpy.exp(1j * angle)] *)
Definition polar (magnitude angle : R) : complex :=
  mkC (magnitude * cos angle) (magnitude * sin angle).

(** [numpy.max(l)] of a list of floats: raises on an empty list. *)
Definition numpy_max (l : list R) : res R :=
  match l with
  | [] => Raise ValueError
  | x :: l' => Ok (fold_left Rmax l' x)
  end.

(** Dictionaries keep insertion order; assigning to a key that is present
    replaces its value where it stands. *)
Definition dict (A : Type) : Type := list (Z * A).

Fixpoint dict_set {A : Type} (d : dict A) (k : Z) (v : A) : dict A :=
  match d with
  | [] => [(k, v)]
  | (k', v') :: d' =>
      if Z.eqb k' k then (k', v) :: d' else (k', v') :: dict_set d' k v
  end.

Fixpoint dict_get {A : Type} (d : dict A) (k : Z) : res A :=
  match d with
  | [] => Raise KeyError
  | (k', v') :: d' => if Z.eqb k' k then Ok v' else dict_get d' k
  end.

Definition dict_keys {A : Type} (d : dict A) : list Z := map fst d.
Definition dict_values {A : Type} (d : dict A) : list A := map snd d.

(** Dense real matrices and vectors, as arrays of rows. *)
Definition vector : Type := list R.
Definition matrix : Type := list (list R).

Definition Rsum (l : list R) : R := fold_right Rplus 0 l.

Definition dot (u v : vector) : R :=
  Rsum (map (fun p => fst p * snd p) (combine u v)).

Definition matvec (a : matrix) (v : vector) : vector :=
  map (fun row => dot row v) a.

Fixpoint transpose_cols (n : nat) (a : matrix) : matrix :=
  match n with
  | O => []
  | S n' => map (fun row => hd 0 row) a :: transpose_cols n' (map (@tl R) a)
  end.

(** [numpy.matmul(a, b)] where [b] has [n] columns. *)
Definition matmul (n : nat) (a b : matrix) : matrix :=
  map (fun row => map (fun col => dot row col) (transpose_cols n b)) a.

(** [numpy.eye(n)] *)
Definition eye (n : nat) : matrix :=
  map (fun i => map (fun j => if Nat.eqb i j then 1 else 0) (seq 0 n)) (seq 0 n).

Definition is_square (n : nat) (a : matrix) : Prop :=
  length a = n /\ Forall (fun row => length row = n) a.

(** [numpy.concatenate([a, b], axis=1)] and [axis=0] *)
Fixpoint concatenate_axis1 (a b : matrix) : matrix :=
  match a, b with
  | ra :: a', rb :: b' => (ra ++ rb) :: concatenate_axis1 a' b'
  | _, _ => []
  end.

Definition concatenate_axis0 (a b : matrix) : matrix := a ++ b.

(** ** Data model *)

(** Modelled from the spec: [power_system.Bus], whose module is not among
    the sources.  The fields are those of the data model, which are also
    the ones the solver reads and writes. *)
Record Bus : Type := mkBus {
  number : Z;
  voltage : complex;
  active_power_generated : R;
  active_power_consumed : R;
  reactive_power_consumed : R
}.

(** Modelled from the spec: [power_system.PowerSystem], whose module is not
    among the sources: the ordered bus list [buses] and the square complex
    matrix that [admittance_matrix()] returns. *)
Record PowerSystem : Type := mkSystem {
  buses : list Bus;
  admittance_matrix : list (list complex)
}.

Inductive BusType : Type :=
| UNKNOWN
| SWING
| PV
| PQ.

Definition BusType_eqb (a b : BusType) : bool :=
  match a, b with
  | UNKNOWN, UNKNOWN | SWING, SWING | PV, PV | PQ, PQ => true
  | _, _ => false
  end.

(** A bus reference: the position of the bus object in [system.buses]. *)
Definition ref : Type := nat.

Record _BusEstimate : Type := mkEstimate {
  bus : ref;
  bus_type : BusType;
  active_power : R;
  reactive_power : R;
  active_power_error : R;
  reactive_power_error : R
}.

Record PowerFlowSolver : Type := mkSolver {
  _system : PowerSystem;
  _swing_bus_number : Z;
  _max_active_power_error : R;
  _max_reactive_power_error : R;
  _admittance_matrix : list (list complex);
  _estimates : dict _BusEstimate;
  _pv_pq_estimates : dict _BusEstimate;
  _pq_estimates : dict _BusEstimate
}.

(** Reading and writing a bus through a reference.  References are created
    by [enumerate] over the bus list only, so the default is never read. *)
Definition deref (st : list Bus) (r : ref) : Bus :=
  nth r st (mkBus 0 (mkC 0 0) 0 0 0).

Fixpoint update {A : Type} (l : list A) (i : nat) (f : A -> A) : list A :=
  match l, i with
  | [], _ => []
  | x :: l', O => f x :: l'
  | x :: l', S i' => x :: update l' i' f
  end.

(** [bus.voltage = v] for the bus behind [r] *)
Definition set_voltage (st : list Bus) (r : ref) (v : complex) : list Bus :=
  update st r (fun b =>
    mkBus (number b) v (active_power_generated b) (active_power_consumed b)
          (reactive_power_consumed b)).

Definition with_buses (self : PowerFlowSolver) (st : list Bus) : PowerFlowSolver :=
  mkSolver (mkSystem st (admittance_matrix (_system self)))
           (_swing_bus_number self) (_max_active_power_error self)
           (_max_reactive_power_error self) (_admittance_matrix self)
           (_estimates self) (_pv_pq_estimates self) (_pq_estimates self).

Definition with_estimates (self : PowerFlowSolver)
    (estimates pv_pq pq : dict _BusEstimate) : PowerFlowSolver :=
  mkSolver (_system self) (_swing_bus_number self) (_max_active_power_error self)
           (_max_reactive_power_error self) (_admittance_matrix self)
           estimates pv_pq pq.

(** ** The solver *)

Definition DEFAULT_SWING_BUS_NUMBER : Z := 1%Z.
Definition DEFAULT_MAX_ACTIVE_POWER_ERROR : R := 1 / 1000.
Definition DEFAULT_MAX_REACTIVE_POWER_ERROR : R := 1 / 1000.

Definition _bus_type (self : PowerFlowSolver) (b : Bus) : BusType :=
  if Z.eqb (number b) (_swing_bus_number self) then SWING
  else if truthy (active_power_generated b) then PV
  else if truthy (active_power_consumed b) || truthy (reactive_power_consumed b) then PQ
  else UNKNOWN.

(** One pass of the inner loop of [_bus_power_estimates]. *)
Definition estimate_term (self : PowerFlowSolver) (index_src : nat) (v_k theta_k : R)
    (acc : R * R) (item : nat * Bus) : res (R * R) :=
  let '(p, q) := acc in
  let '(index_dst, dst) := item in
  let v_i := numpy_abs (voltage dst) in
  let theta_i := numpy_angle (voltage dst) in
  row <- getitem (_admittance_matrix self) index_src ;;
  y_ki <- getitem row index_dst ;;
  let g_ki := real y_ki in
  let b_ki := imag y_ki in
  let theta_ki := theta_k - theta_i in
  Ok (p + v_k * v_i * (g_ki * cos theta_ki + b_ki * sin theta_ki),
      q + v_k * v_i * (g_ki * sin theta_ki - b_ki * cos theta_ki)).

Definition _bus_power_estimates (self : PowerFlowSolver) : res (dict _BusEstimate) :=
  foldM (fun estimates item =>
           let '(index_src, src) := item in
           let bus_type := _bus_type self src in
           let v_k := numpy_abs (voltage src) in
           let theta_k := numpy_angle (voltage src) in
           pq <- foldM (estimate_term self index_src v_k theta_k)
                       (enumerate (buses (_system self))) (0, 0) ;;
           let '(p, q) := pq in
           let p_error := active_power_generated src - active_power_consumed src - p in
           let q_error := - reactive_power_consumed src - q in
           Ok (dict_set estimates (number src)
                        (mkEstimate index_src bus_type p q p_error q_error)))
        (enumerate (buses (_system self))) [].

(** [{i.bus.number: i for i in estimates.values() if keep(i)}] *)
Definition dict_by_number (st : list Bus) (keep : _BusEstimate -> bool)
    (estimates : dict _BusEstimate) : dict _BusEstimate :=
  fold_left (fun d i => dict_set d (number (deref st (bus i))) i)
            (filter keep (dict_values estimates)) [].

Definition _compute_estimates (self : PowerFlowSolver) : res unit * PowerFlowSolver :=
  match _bus_power_estimates self with
  | Raise e => (Raise e, self)
  | Ok estimates =>
      let st := buses (_system self) in
      (Ok tt,
       with_estimates self estimates
         (dict_by_number st (fun i => negb (BusType_eqb (bus_type i) SWING)) estimates)
         (dict_by_number st (fun i => BusType_eqb (bus_type i) PQ) estimates))
  end.

Definition __init__ (system : PowerSystem) (swing_bus_number : Z)
    (max_active_power_error max_reactive_power_error : R) : res PowerFlowSolver :=
  let self := mkSolver system swing_bus_number max_active_power_error
                       max_reactive_power_error (admittance_matrix system) [] [] [] in
  match _compute_estimates self with
  | (Ok _, self') => Ok self'
  | (Raise e, _) => Raise e
  end.

Definition estimates (self : PowerFlowSolver) : dict _BusEstimate := _estimates self.

Definition has_converged (self : PowerFlowSolver) : res bool :=
  max_dp <- numpy_max (map (fun i => Rabs (active_power_error i))
                           (dict_values (_pv_pq_estimates self))) ;;
  max_dq <- numpy_max (map (fun i => Rabs (reactive_power_error i))
                           (dict_values (_pq_estimates self))) ;;
  Ok (Rle_bool max_dp (_max_active_power_error self)
      && Rle_bool max_dq (_max_reactive_power_error self)).

(** [[index for index, bus in enumerate(buses) if bus.number == n][0]] *)
Definition index_of_number (st : list Bus) (n : Z) : res nat :=
  getitem (map fst (filter (fun item => Z.eqb (number (snd item)) n) (enumerate st))) 0.

(** The four cell formulas of the Jacobian; [same] is the test [k == j] on
    snapshot positions. *)
Definition cell_11 (same : bool) (v_k v_j theta_kj g_kj b_kj p_k q_k : R) : R :=
  if negb same then v_k * v_j * (g_kj * sin theta_kj - b_kj * cos theta_kj)
  else - q_k - (v_k ^ 2) * b_kj.

Definition cell_12 (same : bool) (v_k v_j theta_kj g_kj b_kj p_k q_k : R) : R :=
  if negb same then v_k * (g_kj * cos theta_kj + b_kj * sin theta_kj)
  else p_k / v_k + g_kj * v_k.

Definition cell_21 (same : bool) (v_k v_j theta_kj g_kj b_kj p_k q_k : R) : R :=
  if negb same then - v_k * v_j * (g_kj * cos theta_kj + b_kj * sin theta_kj)
  else p_k - g_kj * v_k ^ 2.

Definition cell_22 (same : bool) (v_k v_j theta_kj g_kj b_kj p_k q_k : R) : R :=
  if negb same then v_k * (g_kj * sin theta_kj - b_kj * cos theta_kj)
  else q_k / v_k - b_kj * v_k.

(** The loop shared by [_jacobian_11], [_jacobian_12], [_jacobian_21] and
    [_jacobian_22]: rows and columns are visited in the key order of the two
    dictionaries, and every cell of the zero matrix is assigned once. *)
Definition jacobian_block (self : PowerFlowSolver) (rows cols : dict _BusEstimate)
    (cell : bool -> R -> R -> R -> R -> R -> R -> R -> R) : res matrix :=
  let st := buses (_system self) in
  mapM (fun src_number =>
          src <- dict_get rows src_number ;;
          k <- index_of_number st (number (deref st (bus src))) ;;
          let v_k := numpy_abs (voltage (deref st (bus src))) in
          let theta_k := numpy_angle (voltage (deref st (bus src))) in
          let p_k := active_power src in
          let q_k := reactive_power src in
          mapM (fun dst_number =>
                  dst <- dict_get cols dst_number ;;
                  j <- index_of_number st (number (deref st (bus dst))) ;;
                  let v_j := numpy_abs (voltage (deref st (bus dst))) in
                  let theta_j := numpy_angle (voltage (deref st (bus dst))) in
                  let theta_kj := theta_k - theta_j in
                  row_k <- getitem (_admittance_matrix self) k ;;
                  y_kj <- getitem row_k j ;;
                  let g_kj := real y_kj in
                  let b_kj := imag y_kj in
                  Ok (cell (Nat.eqb k j) v_k v_j theta_kj g_kj b_kj p_k q_k))
               (dict_keys cols))
       (dict_keys rows).

Definition _jacobian_11 (self : PowerFlowSolver) : res matrix :=
  jacobian_block self (_pv_pq_estimates self) (_pv_pq_estimates self) cell_11.

Definition _jacobian_12 (self : PowerFlowSolver) : res matrix :=
  jacobian_block self (_pv_pq_estimates self) (_pq_estimates self) cell_12.

Definition _jacobian_21 (self : PowerFlowSolver) : res matrix :=
  jacobian_block self (_pq_estimates self) (_pv_pq_estimates self) cell_21.

Definition _jacobian_22 (self : PowerFlowSolver) : res matrix :=
  jacobian_block self (_pq_estimates self) (_pq_estimates self) cell_22.

Definition _jacobian (self : PowerFlowSolver) : res matrix :=
  j11 <- _jacobian_11 self ;;
  j12 <- _jacobian_12 self ;;
  j21 <- _jacobian_21 self ;;
  j22 <- _jacobian_22 self ;;
  let j1 := concatenate_axis1 j11 j12 in
  let j2 := concatenate_axis1 j21 j22 in
  Ok (concatenate_axis0 j1 j2).

(** The stacked vector [p_errors + q_errors] of [_compute_corrections]. *)
Definition errors (self : PowerFlowSolver) : vector :=
  let p_errors := map active_power_error (dict_values (_pv_pq_estimates self)) in
  let q_errors := map reactive_power_error (dict_values (_pq_estimates self)) in
  p_errors ++ q_errors.

(** One pass of each loop of [_apply_corrections], on the bus store. *)
Definition correct_angle (st : list Bus) (item : R * _BusEstimate) : list Bus :=
  let '(c, e) := item in
  let magnitude := numpy_abs (voltage (deref st (bus e))) in
  let angle := numpy_angle (voltage (deref st (bus e))) + c in
  set_voltage st (bus e) (polar magnitude angle).

Definition correct_magnitude (st : list Bus) (item : R * _BusEstimate) : list Bus :=
  let '(c, e) := item in
  let magnitude := numpy_abs (voltage (deref st (bus e))) + c in
  let angle := numpy_angle (voltage (deref st (bus e))) in
  set_voltage st (bus e) (polar magnitude angle).

Definition _apply_corrections (self : PowerFlowSolver) (corrections : vector)
    : PowerFlowSolver :=
  let n := length (_pv_pq_estimates self) in
  let angle_corrections := firstn n corrections in
  let st1 := fold_left correct_angle
               (combine angle_corrections (dict_values (_pv_pq_estimates self)))
               (buses (_system self)) in
  let magnitude_corrections := skipn n corrections in
  let st2 := fold_left correct_magnitude
               (combine magnitude_corrections (dict_values (_pq_estimates self)))
               st1 in
  with_buses self st2.

Section LinearSolve.

(** [numpy.linalg.inv]: [None] stands for [LinAlgError]. *)
Variable linalg_inv : matrix -> option matrix.

(** [errors] is the column [numpy.transpose([p_errors + q_errors])]; the
    product with it, transposed back and read at row 0, is the
    matrix-vector product. *)
Definition _compute_corrections (self : PowerFlowSolver) (jacobian : matrix)
    : res vector :=
  match linalg_inv jacobian with
  | None => Raise LinAlgError
  | Some inverse => Ok (matvec inverse (errors self))
  end.

Definition step (self : PowerFlowSolver) : res unit * PowerFlowSolver :=
  match _jacobian self with
  | Raise e => (Raise e, self)
  | Ok jacobian =>
      match _compute_corrections self jacobian with
      | Raise e => (Raise e, self)
      | Ok corrections =>
          _compute_estimates (_apply_corrections self corrections)
      end
  end.

End LinearSolve.

(** ** Specification-level definitions *)

(** The snapshot invariants of the data model: bus numbers are unique and
    the admittance matrix is square of the size of the bus list. *)
Definition wf_system (system : PowerSystem) : Prop :=
  NoDup (map number (buses system)) /\
  length (admittance_matrix system) = length (buses system) /\
  Forall (fun row => length row = length (buses system)) (admittance_matrix system).

(** [Y[k][i]] by snapshot position. *)
Definition Y_at (self : PowerFlowSolver) (k i : nat) : complex :=
  nth i (nth k (_admittance_matrix self) []) (mkC 0 0).

Definition bus_at (self : PowerFlowSolver) (k : nat) : Bus :=
  deref (buses (_system self)) k.

Definition V (self : PowerFlowSolver) (k : nat) : R := numpy_abs (voltage (bus_at self k)).
Definition theta (self : PowerFlowSolver) (k : nat) : R := numpy_angle (voltage (bus_at self k)).
Definition G (self : PowerFlowSolver) (k i : nat) : R := real (Y_at self k i).
Definition B (self : PowerFlowSolver) (k i : nat) : R := imag (Y_at self k i).

Definition bus_count (self : PowerFlowSolver) : nat := length (buses (_system self)).

(** The power-flow equations: sums over all snapshot positions. *)
Definition P_calc (self : PowerFlowSolver) (k : nat) : R :=
  Rsum (map (fun i => V self k * V self i *
                      (G self k i * cos (theta self k - theta self i)
                       + B self k i * sin (theta self k - theta self i)))
            (seq 0 (bus_count self))).

Definition Q_calc (self : PowerFlowSolver) (k : nat) : R :=
  Rsum (map (fun i => V self k * V self i *
                      (G self k i * sin (theta self k - theta self i)
                       - B self k i * cos (theta self k - theta self i)))
            (seq 0 (bus_count self))).

Definition type_at (self : PowerFlowSolver) (k : nat) : BusType :=
  _bus_type self (bus_at self k).

Definition estimate_of (self : PowerFlowSolver) (k : nat) : _BusEstimate :=
  mkEstimate k (type_at self k) (P_calc self k) (Q_calc self k)
    (active_power_generated (bus_at self k) - active_power_consumed (bus_at self k)
     - P_calc self k)
    (- reactive_power_consumed (bus_at self k) - Q_calc self k).

Definition item_of (self : PowerFlowSolver) (k : nat) : Z * _BusEstimate :=
  (number (bus_at self k), estimate_of self k).

(** The two ordered subsets, as snapshot positions in encounter order. *)
Definition non_swing (self : PowerFlowSolver) : list nat :=
  filter (fun k => negb (BusType_eqb (type_at self k) SWING)) (seq 0 (bus_count self)).

Definition load (self : PowerFlowSolver) : list nat :=
  filter (fun k => BusType_eqb (type_at self k) PQ) (seq 0 (bus_count self)).

(** A solver whose three dictionaries are those of its current bus state. *)
Definition consistent (self : PowerFlowSolver) : Prop :=
  wf_system (_system self) /\
  _admittance_matrix self = admittance_matrix (_system self) /\
  _estimates self = map (item_of self) (seq 0 (bus_count self)) /\
  _pv_pq_estimates self = map (item_of self) (non_swing self) /\
  _pq_estimates self = map (item_of self) (load self).

(** The Jacobian entries of the specification, for row bus [k] and column
    bus [j]. *)
Definition theta_kj (self : PowerFlowSolver) (k j : nat) : R := theta self k - theta self j.

Definition J11 (self : PowerFlowSolver) (k j : nat) : R :=
  if Nat.eq_dec k j then - Q_calc self k - (V self k) ^ 2 * B self k k
  else V self k * V self j *
       (G self k j * sin (theta_kj self k j) - B self k j * cos (theta_kj self k j)).

Definition J12 (self : PowerFlowSolver) (k j : nat) : R :=
  if Nat.eq_dec k j then P_calc self k / V self k + G self k k * V self k
  else V self k *
       (G self k j * cos (theta_kj self k j) + B self k j * sin (theta_kj self k j)).

Definition J21 (self : PowerFlowSolver) (k j : nat) : R :=
  if Nat.eq_dec k j then P_calc self k - G self k k * (V self k) ^ 2
  else - (V self k * V self j *
          (G self k j * cos (theta_kj self k j) + B self k j * sin (theta_kj self k j))).

Definition J22 (self : PowerFlowSolver) (k j : nat) : R :=
  if Nat.eq_dec k j then Q_calc self k / V self k - B self k k * V self k
  else V self k *
       (G self k j * sin (theta_kj self k j) - B self k j * cos (theta_kj self k j)).

Definition block (entry : nat -> nat -> R) (rows cols : list nat) : matrix :=
  map (fun k => map (fun j => entry k j) cols) rows.

(** [[J11, J12], [J21, J22]] over the two ordered subsets. *)
Definition jacobian_of (self : PowerFlowSolver) : matrix :=
  concatenate_axis0
    (concatenate_axis1 (block (J11 self) (non_swing self) (non_swing self))
                       (block (J12 self) (non_swing self) (load self)))
    (concatenate_axis1 (block (J21 self) (load self) (non_swing self))
                       (block (J22 self) (load self) (load self))).

(** Entry [(r, c)] of a matrix. *)
Definition entry (a : matrix) (r c : nat) : R := nth c (nth r a []) 0.

(** Position of [k] in a list of positions. *)
Fixpoint rank (k : nat) (l : list nat) : option nat :=
  match l with
  | [] => None
  | x :: l' => if Nat.eqb x k then Some O else option_map S (rank k l')
  end.

(** The voltage of the bus at position [k] after the state update with the
    correction vector [x]: the angle correction of a non-swing bus first,
    then the magnitude correction of a load bus. *)
Definition angle_corrected (self : PowerFlowSolver) (x : vector) (k : nat) : complex :=
  let v := voltage (bus_at self k) in
  match rank k (non_swing self) with
  | Some r => polar (numpy_abs v) (numpy_angle v + nth r x 0)
  | None => v
  end.

Definition corrected_voltage (self : PowerFlowSolver) (x : vector) (k : nat) : complex :=
  let v1 := angle_corrected self x k in
  match rank k (load self) with
  | Some r => polar (numpy_abs v1 + nth (length (non_swing self) + r) x 0) (numpy_angle v1)
  | None => v1
  end.

(** [m] is the maximum of the list [l]. *)
Definition is_max (m : R) (l : list R) : Prop :=
  In m l /\ forall x, In x l -> x <= m.

(** The documented behaviour of [numpy.linalg.inv] in exact arithmetic:
    a result is the inverse of a square argument. *)
Definition inv_contract (linalg_inv : matrix -> option matrix) : Prop :=
  forall a ainv, linalg_inv a = Some ainv ->
    is_square (length a) a /\ is_square (length a) ainv /\
    matmul (length a) a ainv = eye (length a).

(** ** A two-bus network: a swing bus and a load bus at flat start, joined
    by a purely reactive line. *)
Definition two_bus : PowerSystem :=
  mkSystem [mkBus 1 (mkC 1 0) 0 0 0; mkBus 2 (mkC 1 0) 0 (1 / 2) 0]
           [[mkC 0 (-1); mkC 0 1]; [mkC 0 1; mkC 0 (-1)]].

(** The solver with its three dictionaries recomputed from its bus state. *)
Definition refreshed (self : PowerFlowSolver) : PowerFlowSolver :=
  with_estimates self (map (item_of self) (seq 0 (bus_count self)))
                 (map (item_of self) (non_swing self))
                 (map (item_of self) (load self)).

(** The solver state that construction reaches for a system, written out. *)
Definition solver_of (system : PowerSystem) (swing_bus_number : Z)
    (max_active_power_error max_reactive_power_error : R) : PowerFlowSolver :=
  refreshed (mkSolver system swing_bus_number max_active_power_error
                      max_reactive_power_error (admittance_matrix system) [] [] []).

Definition two_bus_solver : PowerFlowSolver :=
  solver_of two_bus DEFAULT_SWING_BUS_NUMBER DEFAULT_MAX_ACTIVE_POWER_ERROR
            DEFAULT_MAX_REACTIVE_POWER_ERROR.

(** An inverse for matrices of size at most two, by the closed formulas. *)
Definition inv_upto2 (a : matrix) : option matrix :=
  match a with
  | [] => Some []
  | [[a11]] => if Req_dec_T a11 0 then None else Some [[1 / a11]]
  | [[a11; a12]; [a21; a22]] =>
      let det := a11 * a22 - a12 * a21 in
      if Req_dec_T det 0 then None
      else Some [[a22 / det; - a12 / det]; [- a21 / det; a11 / det]]
  | _ => None
  end.

(** The bus [b] with its voltage replaced. *)
Definition with_voltage (b : Bus) (v : complex) : Bus :=
  mkBus (number b) v (active_power_generated b) (active_power_consumed b)
        (reactive_power_consumed b).

Definition rotate (c : R) (b : Bus) : Bus :=
  with_voltage b (polar (numpy_abs (voltage b)) (numpy_angle (voltage b) + c)).

Definition stretch (c : R) (b : Bus) : Bus :=
  with_voltage b (polar (numpy_abs (voltage b) + c) (numpy_angle (voltage b))).

(** The mismatches of the specification. *)
Definition delta_P (self : PowerFlowSolver) (k : nat) : R :=
  active_power_generated (bus_at self k) - active_power_consumed (bus_at self k)
  - P_calc self k.

Definition delta_Q (self : PowerFlowSolver) (k : nat) : R :=
  - reactive_power_consumed (bus_at self k) - Q_calc self k.

(** The estimate mapping holds, under the number of the bus at position
    [k], the injections and mismatches of that bus. *)
Definition estimate_holds (self : PowerFlowSolver) (k : nat) : Prop :=
  exists e, dict_get (estimates self) (number (bus_at self k)) = Ok e /\
            bus e = k /\ bus_type e = type_at self k /\
            active_power e = P_calc self k /\ reactive_power e = Q_calc self k /\
            active_power_error e = delta_P self k /\
            reactive_power_error e = delta_Q self k.

(** [n] calls of [step] in a row, as the caller's loop makes them; the
    first exception ends the run. *)
Fixpoint steps (linalg_inv : matrix -> option matrix) (n : nat) (self : PowerFlowSolver)
    : res unit * PowerFlowSolver :=
  match n with
  | O => (Ok tt, self)
  | S n' =>
      match step linalg_inv self with
      | (Ok _, self') => steps linalg_inv n' self'
      | (Raise e, self') => (Raise e, self')
      end
  end.

(** A three-bus chain: swing bus, load bus, and a bus with no generation
    and no consumption. *)
Definition three_bus : PowerSystem :=
  mkSystem [mkBus 1 (mkC 1 0) 0 0 0; mkBus 2 (mkC 1 0) 0 (1 / 2) 0; mkBus 3 (mkC 1 0) 0 0 0]
           [[mkC 0 (-1); mkC 0 1; mkC 0 0];
            [mkC 0 1; mkC 0 (-2); mkC 0 1];
            [mkC 0 0; mkC 0 1; mkC 0 (-1)]].

(** The two buses of [two_bus] with no line between them. *)
Definition open_line : PowerSystem :=
  mkSystem [mkBus 1 (mkC 1 0) 0 0 0; mkBus 2 (mkC 1 0) 0 (1 / 2) 0]
           [[mkC 0 0; mkC 0 0]; [mkC 0 0; mkC 0 0]].

(** A swing bus alone. *)
Definition one_bus : PowerSystem :=
  mkSystem [mkBus 1 (mkC 1 0) 0 0 0] [[mkC 0 0]].

(** A swing bus and a generator bus at flat start, joined by a purely
    reactive line; the generator feeds a load of its own size at its bus. *)
Definition generator_pair : PowerSystem :=
  mkSystem [mkBus 1 (mkC 1 0) 0 0 0; mkBus 2 (mkC 1 0) 1 1 0]
           [[mkC 0 (-1); mkC 0 1]; [mkC 0 1; mkC 0 (-1)]].

(** ** Definitions for further properties of the solver *)

(** What the solver never writes of a bus: its number and its powers. *)
Definition static (b : Bus) : Z * R * R * R :=
  (number b, active_power_generated b, active_power_consumed b,
   reactive_power_consumed b).

(** The lookup [Y[k][i]] is out of range. *)
Definition lookup_fails (Y : list (list complex)) (k i : nat) : Prop :=
  (length Y <= k)%nat \/ (length (nth k Y []) <= i)%nat.

(** What no method of the solver writes. *)
Definition same_frame (self self' : PowerFlowSolver) : Prop :=
  map static (buses (_system self')) = map static (buses (_system self)) /\
  admittance_matrix (_system self') = admittance_matrix (_system self) /\
  _admittance_matrix self' = _admittance_matrix self /\
  _swing_bus_number self' = _swing_bus_number self /\
  _max_active_power_error self' = _max_active_power_error self /\
  _max_reactive_power_error self' = _max_reactive_power_error self.

(** The buses of [two_bus] with an admittance matrix of one row. *)
Definition short_matrix : PowerSystem :=
  mkSystem [mkBus 1 (mkC 1 0) 0 0 0; mkBus 2 (mkC 1 0) 0 (1 / 2) 0]
           [[mkC 0 (-1); mkC 0 1]].

(** ** The reports (power_system_reporter.py)

    The reports end in [tabulate.tabulate] or [str.format], which render
    floats as text; the embedding stops at the table, or at the values
    substituted into the message, that is handed to them. *)

(** Python's [max(l, key=key)]: the first element of greatest key; it
    raises on an empty list. *)
Fixpoint max_from {A : Type} (key : A -> R) (best : A) (l : list A) : A :=
  match l with
  | [] => best
  | x :: l' => if Rlt_dec (key best) (key x) then max_from key x l'
               else max_from key best l'
  end.

Definition python_max {A : Type} (key : A -> R) (l : list A) : res A :=
  match l with
  | [] => Raise ValueError
  | x :: l' => Ok (max_from key x l')
  end.

(** [numpy.rad2deg] *)
Definition rad2deg (x : R) : R := x * (180 / PI).

(** The cell ['Yes'] or ['No'] of a report. *)
Inductive YesNo : Type :=
| Yes
| No.

Definition Rlt_bool (x y : R) : bool :=
  if Rlt_dec x y then true else false.

(** The table of [bus_voltage_report]; [v] is [bus.voltage]. *)
Definition bus_voltage_report_table (system : PowerSystem)
    (min_operating_voltage max_operating_voltage : R) : list (Z * R * R * YesNo) :=
  map (fun bus =>
         let v := voltage bus in
         let voltage := numpy_abs v in
         let outside_limits :=
           if Rlt_bool voltage min_operating_voltage
              || Rlt_bool max_operating_voltage voltage
           then Yes else No in
         (number bus, numpy_abs v, rad2deg (numpy_angle v), outside_limits))
      (buses system).

(** The values that [largest_power_mismatch_report] substitutes into its
    message, in the order of the call of [format].  [st] is the bus list
    that the estimates refer to. *)
Definition largest_power_mismatch_report_fields (st : list Bus)
    (estimates : dict _BusEstimate) (power_base : R) (iteration : Z)
    : res (Z * R * Z * R * Z) :=
  let pv_pq_estimates :=
    filter (fun i => negb (BusType_eqb (bus_type i) SWING)) (dict_values estimates) in
  max_p_error_estimate <-
    python_max (fun x => Rabs (active_power_error x)) pv_pq_estimates ;;
  let max_p_error := active_power_error max_p_error_estimate * power_base in
  let pq_estimates :=
    filter (fun i => BusType_eqb (bus_type i) PQ) (dict_values estimates) in
  max_q_error_estimate <-
    python_max (fun x => Rabs (reactive_power_error x)) pq_estimates ;;
  let max_q_error := reactive_power_error max_q_error_estimate * power_base in
  Ok (iteration, max_p_error, number (deref st (bus max_p_error_estimate)),
      max_q_error, number (deref st (bus max_q_error_estimate))).

(** The table of [power_injection_report]: one row for every estimate that
    is not of type PQ. *)
Definition power_injection_report_table (st : list Bus)
    (estimates : dict _BusEstimate) (power_base : R) : list (Z * R * R) :=
  map (fun estimate =>
         let p_injected :=
           (active_power estimate + active_power_consumed (deref st (bus estimate)))
           * power_base in
         let q_injected :=
           (reactive_power estimate + reactive_power_consumed (deref st (bus estimate)))
           * power_base in
         (number (deref st (bus estimate)), p_injected, q_injected))
      (filter (fun estimate => negb (BusType_eqb (bus_type estimate) PQ))
              (dict_values estimates)).

(** ** The first power-flow API (power_flow.py)

    [read_bus_data], [count_rows] and [execute] are left out: they rest on
    openpyxl worksheets and on the module [power_flow_jacobian], which is not
    among the sources. *)

(** An array index that may be negative, as numpy and Python lists take
    it: [-1] is the last position. *)
Definition np_index (n : nat) (z : Z) : res nat :=
  if (0 <=? z)%Z && (z <? Z.of_nat n)%Z then Ok (Z.to_nat z)
  else if (- Z.of_nat n <=? z)%Z && (z <? 0)%Z then Ok (Z.to_nat (z + Z.of_nat n))
  else Raise IndexError.

Definition np_getitem {A : Type} (l : list A) (z : Z) : res A :=
  i <- np_index (length l) z ;; getitem l i.

Definition Rge_bool (x y : R) : bool := Rle_bool y x.

Module PowerFlow.

(** [Bus = namedlist('Bus', ['number', 'power', 'voltage'])] *)
Record Bus : Type := mkBus {
  number : Z;
  power : complex;
  voltage : complex
}.

Section Worksheets.

(** The openpyxl worksheets are kept abstract. *)
Variable worksheet : Type.

Record PowerFlow : Type := mkPowerFlow {
  bus_data : worksheet;
  line_data : worksheet;
  slack_bus_number : Z;
  start_voltage : R;
  power_base_mva : R;
  max_active_power_mismatch_pu : R;
  max_reactive_power_mismatch_pu : R
}.

Definition create_power_flow_equations (self : PowerFlow) (buses : list Bus)
    (admittances : list (list complex)) : res (list complex) :=
  mapM (fun src =>
          let k := (number src - 1)%Z in
          let v_k := numpy_abs (voltage src) in
          let theta_k := numpy_angle (voltage src) in
          foldM (fun s dst =>
                   let j := (number dst - 1)%Z in
                   let v_j := numpy_abs (voltage dst) in
                   let theta_j := numpy_angle (voltage dst) in
                   row <- np_getitem admittances k ;;
                   y_kj <- np_getitem row j ;;
                   let b_kj := imag y_kj in
                   let p := v_k * v_j * b_kj * sin (theta_k - theta_j) in
                   let q := - v_k * v_j * b_kj * cos (theta_k - theta_j) in
                   Ok (mkC (real s + p) (imag s + q)))
                buses (mkC 0 0))
       buses.

Fixpoint is_convergent (self : PowerFlow) (errors : list complex) : bool :=
  match errors with
  | [] => true
  | e :: errors' =>
      if Rge_bool (real e) (max_active_power_mismatch_pu self)
         || Rge_bool (imag e) (max_reactive_power_mismatch_pu self)
      then false
      else is_convergent self errors'
  end.

(** The loop of [apply_corrections] from the bus it has reached, with the
    value of [count]; it returns the outcome and the buses as the loop
    leaves them. *)
Fixpoint apply_loop (self : PowerFlow) (theta_corrections voltage_corrections : vector)
    (count : nat) (buses : list Bus) : res unit * list Bus :=
  match buses with
  | [] => (Ok tt, [])
  | bus :: rest =>
      if Z.eqb (number bus) (slack_bus_number self) then
        let '(r, rest') :=
          apply_loop self theta_corrections voltage_corrections count rest in
        (r, bus :: rest')
      else
        match getitem voltage_corrections count with
        | Raise e => (Raise e, bus :: rest)
        | Ok dv =>
            match getitem theta_corrections count with
            | Raise e => (Raise e, bus :: rest)
            | Ok dtheta =>
                let v := numpy_abs (voltage bus) + dv in
                let theta := numpy_angle (voltage bus) + dtheta in
                let bus' := mkBus (number bus) (power bus) (polar v theta) in
                let '(r, rest') :=
                  apply_loop self theta_corrections voltage_corrections (S count) rest in
                (r, bus' :: rest')
            end
        end
  end.

Definition apply_corrections (self : PowerFlow) (buses : list Bus) (corrections : vector)
    : res unit * list Bus :=
  let theta_corrections := firstn (length corrections / 2) corrections in
  let voltage_corrections := skipn (length corrections / 2) corrections in
  apply_loop self theta_corrections voltage_corrections 0 buses.

End Worksheets.

End PowerFlow.

(** The test [bus.number == self.slack_bus_number] of [apply_corrections],
    negated. *)
Definition non_slack (slack_bus_number : Z) (b : PowerFlow.Bus) : bool :=
  negb (Z.eqb (PowerFlow.number b) slack_bus_number).

(** A bus of the solver as a bus of the first API, with a power. *)
Definition first_api_bus (power_of : Bus -> complex) (b : Bus) : PowerFlow.Bus :=
  PowerFlow.mkBus (number b) (power_of b) (voltage b).

(** The sums of the first API: the susceptance terms only. *)
Definition P_susceptance (self : PowerFlowSolver) (k : nat) : R :=
  Rsum (map (fun i => V self k * V self i * B self k i
                      * sin (theta self k - theta self i))
            (seq 0 (bus_count self))).

Definition Q_susceptance (self : PowerFlowSolver) (k : nat) : R :=
  Rsum (map (fun i => - V self k * V self i * B self k i
                      * cos (theta self k - theta self i))
            (seq 0 (bus_count self))).

(** *** [read_admittance_matrix] *)

(** Complex arithmetic. *)
Definition cadd (a b : complex) : complex := mkC (real a + real b) (imag a + imag b).
Definition csub (a b : complex) : complex := mkC (real a - real b) (imag a - imag b).

(** The exceptions of [read_admittance_matrix]: those of [exn],
    [ZeroDivisionError] and [TypeError]. *)
Inductive arith_exn : Type :=
| Builtin (e : exn)
| ZeroDivisionError
| TypeError.

Inductive outcome (A : Type) : Type :=
| Returns (a : A)
| Raises (e : arith_exn).

Arguments Returns {A} a.
Arguments Raises {A} e.

Definition lift {A : Type} (m : res A) : outcome A :=
  match m with
  | Ok a => Returns a
  | Raise e => Raises (Builtin e)
  end.

Definition and_then {A E : Type} (m : outcome A) (k : A -> outcome E) : outcome E :=
  match m with
  | Returns a => k a
  | Raises e => Raises e
  end.

(** [1 / z] for a Python complex [z]: it raises when [z] is zero. *)
Definition complex_inverse (z : complex) : outcome complex :=
  if Req_dec_T (real z) 0 then
    if Req_dec_T (imag z) 0 then Raises ZeroDivisionError
    else Returns (mkC (real z / (real z * real z + imag z * imag z))
                      (- imag z / (real z * real z + imag z * imag z)))
  else Returns (mkC (real z / (real z * real z + imag z * imag z))
                    (- imag z / (real z * real z + imag z * imag z))).

(** [a[i][j] = f(a[i][j])] on an array of rows, for indices that may be
    negative. *)
Definition modify_entry (a : list (list complex)) (i j : Z) (f : complex -> complex)
    : res (list (list complex)) :=
  i' <- np_index (length a) i ;;
  row <- getitem a i' ;;
  j' <- np_index (length row) j ;;
  Ok (update a i' (fun row => update row j' f)).

(** A row of the line worksheet: the values of its first five cells.  A
    cell holds a number or it does not: [None] is the value of a blank
    cell, and stands for any value that is not a number. *)
Record line_row : Type := mkLine {
  source_cell : option Z;
  destination_cell : option Z;
  rtotal_cell : option R;
  xtotal_cell : option R;
  btotal_cell : option R
}.

(** A cell value as an operand of arithmetic: only a number is one. *)
Definition cell_number {A : Type} (value : option A) : outcome A :=
  match value with
  | Some x => Returns x
  | None => Raises TypeError
  end.

(** One pass of the loop of [read_admittance_matrix]. *)
Definition add_line (admittances : list (list complex)) (row : line_row)
    : outcome (list (list complex)) :=
  and_then (cell_number (source_cell row)) (fun source =>
  let src := (source - 1)%Z in
  and_then (cell_number (destination_cell row)) (fun destination =>
  let dst := (destination - 1)%Z in
  (* [1j * xtotal] is evaluated before [rtotal + ...] *)
  and_then (cell_number (xtotal_cell row)) (fun xtotal =>
  and_then (cell_number (rtotal_cell row)) (fun rtotal =>
  and_then (complex_inverse (mkC rtotal xtotal)) (fun y_series =>
  and_then (cell_number (btotal_cell row)) (fun btotal =>
  let y_parallel := mkC 0 (btotal / 2) in
  and_then (lift (modify_entry admittances src dst (fun c => csub c y_series))) (fun a1 =>
  and_then (lift (modify_entry a1 dst src (fun c => csub c y_series))) (fun a2 =>
  and_then (lift (modify_entry a2 src src (fun c => cadd c (cadd y_series y_parallel))))
           (fun a3 =>
  lift (modify_entry a3 dst dst (fun c => cadd c (cadd y_series y_parallel)))))))))))).

Fixpoint add_lines (admittances : list (list complex)) (rows : list line_row)
    : outcome (list (list complex)) :=
  match rows with
  | [] => Returns admittances
  | row :: rows' => and_then (add_line admittances row) (fun a => add_lines a rows')
  end.

Section LineData.

Variable worksheet : Type.

(** [ws.iter_rows(row_offset=..., max_row=...)] of openpyxl, as the rows it
    yields. *)
Variable iter_rows : worksheet -> Z -> Z -> list line_row.

Definition read_admittance_matrix (self : PowerFlow.PowerFlow worksheet) (num_buses : nat)
    : outcome (list (list complex)) :=
  let admittances := repeat (repeat (mkC 0 0) num_buses) num_buses in
  add_lines admittances
            (iter_rows (PowerFlow.line_data worksheet self) 1 (Z.of_nat num_buses)).

End LineData.

(** Entry [(i, j)] and the sum of row [i] of a complex matrix. *)
Definition centry (a : list (list complex)) (i j : nat) : complex :=
  nth j (nth i a []) (mkC 0 0).

Definition csum (l : list complex) : complex := fold_right cadd (mkC 0 0) l.

(** A line row on which one pass of the loop of [read_admittance_matrix]
    returns, for [n] buses: its five cells hold numbers, the resistance and
    the reactance are not both zero, and the two bus numbers, less one, are
    indices of the matrix, the negative ones that wrap around included. *)
Definition row_ok (n : nat) (row : line_row) : Prop :=
  match source_cell row, destination_cell row, rtotal_cell row, xtotal_cell row,
        btotal_cell row with
  | Some source, Some destination, Some rtotal, Some xtotal, Some _ =>
      (rtotal <> 0 \/ xtotal <> 0) /\
      (- Z.of_nat n <= source - 1 < Z.of_nat n)%Z /\
      (- Z.of_nat n <= destination - 1 < Z.of_nat n)%Z
  | _, _, _, _, _ => False
  end.

(** The exception that a row which is not [row_ok] raises: the first that
    the statements of the loop body meet, in their order. *)
Definition row_exception (row : line_row) : arith_exn :=
  match source_cell row, destination_cell row, xtotal_cell row, rtotal_cell row with
  | Some _, Some _, Some xtotal, Some rtotal =>
      if Req_dec_T rtotal 0 then
        if Req_dec_T xtotal 0 then ZeroDivisionError
        else match btotal_cell row with
             | Some _ => Builtin IndexError
             | None => TypeError
             end
      else match btotal_cell row with
           | Some _ => Builtin IndexError
           | None => TypeError
           end
  | _, _, _, _ => TypeError
  end.

Definition square_c (n : nat) (a : list (list complex)) : Prop :=
  length a = n /\ Forall (fun row => length row = n) a.

Definition symmetric_c (a : list (list complex)) : Prop :=
  forall p q, centry a p q = centry a q p.

(** The matrix after the four in-place updates of one line between the
    positions [s] and [d]. *)
Definition with_line (a : list (list complex)) (s d : nat) (y_series y_parallel : complex)
    : list (list complex) :=
  let a1 := update a s (fun row => update row d (fun c => csub c y_series)) in
  let a2 := update a1 d (fun row => update row s (fun c => csub c y_series)) in
  let a3 := update a2 s (fun row => update row s
                           (fun c => cadd c (cadd y_series y_parallel))) in
  update a3 d (fun row => update row d (fun c => cadd c (cadd y_series y_parallel))).

(** A line worksheet with one line between the buses 1 and 2, of reactance
    1 and no resistance or susceptance, and a first-API object over it. *)
Definition one_line (ws : unit) (row_offset max_row : Z) : list line_row :=
  [mkLine (Some 1%Z) (Some 2%Z) (Some 0) (Some 1) (Some 0)].

Definition first_api : PowerFlow.PowerFlow unit :=
  PowerFlow.mkPowerFlow unit tt tt 1 1 100 (1 / 1000) (1 / 1000).

(** The same line worksheet read for two buses: the second row read is
    blank. *)
Definition blank_tail (ws : unit) (row_offset max_row : Z) : list line_row :=
  [mkLine (Some 1%Z) (Some 2%Z) (Some 0) (Some 1) (Some 0);
   mkLine None None None None None].

(** *** [PowerFlow.__init__], [count_rows] and [read_bus_data] *)

Definition cneg (a : complex) : complex := mkC (- real a) (- imag a).


Definition complex_div_float (z : complex) (y : R) : outcome complex :=
  if Req_dec_T y 0 then Raises ZeroDivisionError
  else Returns (mkC (real z / y) (imag z / y)).

(** The value of a worksheet cell: nothing, a number or a text. *)
Inductive cell_value : Type :=
| Blank
| Number (x : R)
| Text (s : String.string).

(** Truth value of a cell value: [None], zero and the empty text are
    false. *)
Definition cell_truthy (c : cell_value) : bool :=
  match c with
  | Blank => false
  | Number x => truthy x
  | Text String.EmptyString => false
  | Text (String.String _ _) => true
  end.

(** [value or default] for a numeric cell that may be empty. *)
Definition value_or (value : option R) (default : R) : R :=
  match value with
  | Some x => if truthy x then x else default
  | None => default
  end.

(** A row of the bus worksheet: the values of its first five cells, of
    which the last four may be empty. *)
Record bus_row : Type := mkBusRow {
  bus_num_cell : Z;
  p_load_cell : option R;
  q_load_cell : option R;
  p_gen_cell : option R;
  voltage_cell : option R
}.

(** [sorted(buses, key=operator.attrgetter('number'))]: the sort is
    stable, a bus goes before the buses of the same number that follow
    it. *)
Fixpoint insert_by_number (b : PowerFlow.Bus) (l : list PowerFlow.Bus)
    : list PowerFlow.Bus :=
  match l with
  | [] => [b]
  | c :: l' =>
      if (PowerFlow.number b <=? PowerFlow.number c)%Z then b :: c :: l'
      else c :: insert_by_number b l'
  end.

Definition sorted_by_number (l : list PowerFlow.Bus) : list PowerFlow.Bus :=
  fold_right insert_by_number [] l.

(** The loop of [count_rows] from the row it has reached, with the value
    of [n]. *)
Fixpoint count_loop (cells : list cell_value) (n : nat) : nat :=
  match cells with
  | [] => n
  | c :: cells' => if cell_truthy c then count_loop cells' (S n) else n
  end.

Section BusData.

Variable worksheet : Type.

(** [ws.iter_rows()] as the values of the first cells of the rows it
    yields, and [ws.iter_rows(row_offset=..., max_row=...)] as the bus rows
    it yields. *)
Variable first_cells : worksheet -> list cell_value.
Variable iter_rows : worksheet -> Z -> Z -> list bus_row.


Definition count_rows (self : PowerFlow.PowerFlow worksheet) (ws : worksheet) : nat :=
  count_loop (first_cells ws) 0.

(** The loop of [read_bus_data] from the row it has reached, with
    [s_total] and [buses] as they stand. *)
Fixpoint read_rows (self : PowerFlow.PowerFlow worksheet) (rows : list bus_row)
    (s_total : complex) (buses : list PowerFlow.Bus)
    : outcome (complex * list PowerFlow.Bus) :=
  match rows with
  | [] => Returns (s_total, buses)
  | row :: rows' =>
      let bus_num := bus_num_cell row in
      let p_load := value_or (p_load_cell row) 0 in
      let q_load := value_or (q_load_cell row) 0 in
      let p_gen := value_or (p_gen_cell row) 0 in
      let voltage := mkC (value_or (voltage_cell row)
                                   (PowerFlow.start_voltage worksheet self)) 0 in
      and_then (complex_div_float (mkC (p_gen - p_load) (- q_load))
                                  (PowerFlow.power_base_mva worksheet self))
               (fun s =>
      read_rows self rows' (cadd s_total s)
                (buses ++ [PowerFlow.mkBus bus_num s voltage]))
  end.

Definition read_bus_data (self : PowerFlow.PowerFlow worksheet)
    : outcome (list PowerFlow.Bus) :=
  let max_row := Z.of_nat (count_rows self (PowerFlow.bus_data worksheet self)) in
  and_then (read_rows self (iter_rows (PowerFlow.bus_data worksheet self) 1 max_row)
                      (mkC 0 0) [])
           (fun loop =>
  let s_total := fst loop in
  let buses := sorted_by_number (snd loop) in
  and_then (lift (np_index (length buses)
                           (PowerFlow.slack_bus_number worksheet self - 1)))
           (fun i =>
  Returns (update buses i
             (fun bus => PowerFlow.mkBus (PowerFlow.number bus) (cneg s_total)
                                         (PowerFlow.voltage bus))))).

End BusData.

(** The power and the bus that [read_bus_data] makes of a row. *)
Definition specified_power (power_base_mva : R) (row : bus_row) : complex :=
  mkC ((value_or (p_gen_cell row) 0 - value_or (p_load_cell row) 0) / power_base_mva)
      (- value_or (q_load_cell row) 0 / power_base_mva).

Definition specified_bus (start_voltage power_base_mva : R) (row : bus_row)
    : PowerFlow.Bus :=
  PowerFlow.mkBus (bus_num_cell row) (specified_power power_base_mva row)
                  (mkC (value_or (voltage_cell row) start_voltage) 0).

(** A bus worksheet under a header row: a load at bus 2 and a generator at
    bus 1, the slack bus of [first_api]. *)
Definition bus_sheet_cells (ws : unit) : list cell_value :=
  [Text (String.String (Ascii.Ascii false true false false false false true false)
                       String.EmptyString);
   Number 2; Number 1; Blank].

Definition bus_sheet (ws : unit) (row_offset max_row : Z) : list bus_row :=
  [mkBusRow 2 (Some 50) (Some 20) None None;
   mkBusRow 1 None None (Some 30) (Some (21 / 20))].

(** ** Flat start *)

Lemma abs_flat : numpy_abs (mkC 1 0) = 1.
Proof.
  unfold numpy_abs. simpl. replace (1 * 1 + 0 * 0) with 1 by lra. apply sqrt_1.
Qed.

Lemma angle_flat : numpy_angle (mkC 1 0) = 0.
Proof.
  unfold numpy_angle, arctan2. simpl.
  destruct (Rlt_dec 0 1); [|lra].
  replace (0 / 1) with 0 by lra. apply atan_0.
Qed.

(** ** Lists, loops and dictionaries *)

Lemma foldM_ok {A E : Type} (f : A -> E -> res A) (g : A -> E -> A) (l : list E) :
  forall a, (forall a' x, In x l -> f a' x = Ok (g a' x)) ->
            foldM f l a = Ok (fold_left g l a).
Proof.
  induction l as [|x l IH]; intros a H; simpl; [reflexivity|].
  rewrite H by (left; reflexivity). simpl.
  apply IH. intros a' y Hy. apply H. right; assumption.
Qed.

Lemma foldM_map {A E E' : Type} (f : A -> E' -> res A) (h : E -> E') (l : list E) :
  forall a, foldM f (map h l) a = foldM (fun a x => f a (h x)) l a.
Proof.
  induction l as [|x l IH]; intros a; simpl; [reflexivity|].
  destruct (f a (h x)); simpl; [apply IH|reflexivity].
Qed.

Lemma mapM_ok {A E : Type} (f : A -> res E) (g : A -> E) (l : list A) :
  (forall x, In x l -> f x = Ok (g x)) -> mapM f l = Ok (map g l).
Proof.
  induction l as [|x l IH]; intros H; simpl; [reflexivity|].
  rewrite H by (left; reflexivity). simpl.
  rewrite IH by (intros y Hy; apply H; right; assumption). reflexivity.
Qed.

Lemma fold_left_map {A E E' : Type} (f : A -> E' -> A) (h : E -> E') (l : list E) :
  forall a, fold_left f (map h l) a = fold_left (fun a x => f a (h x)) l a.
Proof.
  induction l as [|x l IH]; intros a; simpl; [reflexivity|apply IH].
Qed.

Lemma combine_seq_nth {A : Type} (d : A) (l : list A) :
  forall a, combine (seq a (length l)) l
            = map (fun i => (i, nth (i - a) l d)) (seq a (length l)).
Proof.
  induction l as [|x l IH]; intros a; simpl; [reflexivity|].
  rewrite Nat.sub_diag. f_equal.
  rewrite IH. apply map_ext_in. intros i Hi.
  apply in_seq in Hi.
  replace (i - a)%nat with (S (i - S a)) by lia. reflexivity.
Qed.

Lemma enumerate_nth {A : Type} (d : A) (l : list A) :
  enumerate l = map (fun i => (i, nth i l d)) (seq 0 (length l)).
Proof.
  unfold enumerate. rewrite (combine_seq_nth d).
  apply map_ext. intros i. rewrite Nat.sub_0_r. reflexivity.
Qed.

Lemma map_nth_seq {A : Type} (d : A) (l : list A) :
  map (fun i => nth i l d) (seq 0 (length l)) = l.
Proof.
  apply (nth_ext _ _ d d).
  - rewrite length_map, length_seq. reflexivity.
  - intros n Hn. rewrite length_map, length_seq in Hn.
    rewrite (nth_indep _ d (nth 0 l d)) by (rewrite length_map, length_seq; assumption).
    rewrite (map_nth (fun i => nth i l d) (seq 0 (length l)) 0%nat n).
    rewrite seq_nth by assumption. reflexivity.
Qed.

Lemma filter_map_comm {A E : Type} (f : A -> E) (p : E -> bool) (l : list A) :
  filter p (map f l) = map f (filter (fun x => p (f x)) l).
Proof.
  induction l as [|x l IH]; simpl; [reflexivity|].
  destruct (p (f x)); simpl; rewrite IH; reflexivity.
Qed.

Lemma NoDup_map_filter {A E : Type} (f : A -> E) (p : A -> bool) (l : list A) :
  NoDup (map f l) -> NoDup (map f (filter p l)).
Proof.
  induction l as [|x l IH]; simpl; intros H; [constructor|].
  inversion H as [|? ? Hn Hd]; subst.
  destruct (p x); simpl; [|apply IH; assumption].
  constructor; [|apply IH; assumption].
  intros Hin. apply Hn. apply in_map_iff in Hin. destruct Hin as [y [Hy Hin]].
  apply in_map_iff. exists y. split; [assumption|].
  apply filter_In in Hin. tauto.
Qed.

Lemma NoDup_map_injective {A E : Type} (f : A -> E) (l : list A) :
  NoDup (map f l) -> forall x y, In x l -> In y l -> f x = f y -> x = y.
Proof.
  induction l as [|a l IH]; simpl; intros H x y Hx Hy Hf; [contradiction|].
  inversion H as [|? ? Hn Hd]; subst.
  destruct Hx as [Hx|Hx], Hy as [Hy|Hy]; subst.
  - reflexivity.
  - exfalso. apply Hn. rewrite Hf. apply in_map. assumption.
  - exfalso. apply Hn. rewrite <- Hf. apply in_map. assumption.
  - apply IH; assumption.
Qed.

Lemma dict_set_fresh {A : Type} (d : dict A) (k : Z) (v : A) :
  ~ In k (dict_keys d) -> dict_set d k v = d ++ [(k, v)].
Proof.
  induction d as [|[k' v'] d IH]; simpl; intros H; [reflexivity|].
  destruct (Z.eqb_spec k' k) as [->|Hne]; [exfalso; apply H; left; reflexivity|].
  rewrite IH by (intros Hin; apply H; right; assumption). reflexivity.
Qed.

Lemma fold_dict_set_fresh {A : Type} (items : list (Z * A)) :
  forall d, NoDup (map fst items) ->
            (forall k, In k (map fst items) -> ~ In k (dict_keys d)) ->
            fold_left (fun d it => dict_set d (fst it) (snd it)) items d = d ++ items.
Proof.
  induction items as [|[k v] items IH]; intros d Hnd Hfresh; simpl.
  - rewrite app_nil_r. reflexivity.
  - inversion Hnd as [|? ? Hn Hd]; subst.
    rewrite dict_set_fresh by (apply Hfresh; left; reflexivity).
    rewrite IH; [rewrite <- app_assoc; reflexivity|assumption|].
    intros k' Hk' Hin. unfold dict_keys in Hin. rewrite map_app in Hin.
    apply in_app_or in Hin. destruct Hin as [Hin|Hin].
    + apply (Hfresh k'); [right; assumption|assumption].
    + simpl in Hin. destruct Hin as [<-|[]]. apply Hn. assumption.
Qed.

Lemma dict_get_in {A : Type} (d : dict A) (k : Z) (v : A) :
  NoDup (dict_keys d) -> In (k, v) d -> dict_get d k = Ok v.
Proof.
  induction d as [|[k' v'] d IH]; simpl; intros Hnd Hin; [contradiction|].
  inversion Hnd as [|? ? Hn Hd]; subst.
  destruct Hin as [Heq|Hin].
  - inversion Heq; subst. rewrite Z.eqb_refl. reflexivity.
  - destruct (Z.eqb_spec k' k) as [->|Hne]; [|apply IH; assumption].
    exfalso. apply Hn. apply in_map_iff. exists (k, v). split; [reflexivity|assumption].
Qed.

Lemma getitem_nth {A : Type} (d : A) (l : list A) (i : nat) :
  (i < length l)%nat -> getitem l i = Ok (nth i l d).
Proof.
  intros H. unfold getitem. rewrite (nth_error_nth' l d H). reflexivity.
Qed.

Lemma fold_left_sums {E : Type} (tp tq : E -> R) (l : list E) :
  forall p q,
    fold_left (fun acc i => (fst acc + tp i, snd acc + tq i)) l (p, q)
    = (p + Rsum (map tp l), q + Rsum (map tq l)).
Proof.
  induction l as [|x l IH]; intros p q; simpl.
  - f_equal; lra.
  - rewrite IH. f_equal; lra.
Qed.

(** ** The injection estimator *)

Section Estimates.

Variable self : PowerFlowSolver.
Hypothesis Hwf : wf_system (_system self).
Hypothesis HY : _admittance_matrix self = admittance_matrix (_system self).

Lemma Y_row (k : nat) :
  (k < bus_count self)%nat ->
  getitem (_admittance_matrix self) k = Ok (nth k (_admittance_matrix self) []) /\
  length (nth k (_admittance_matrix self) []) = bus_count self.
Proof.
  intros Hk. destruct Hwf as [_ [Hlen Hrows]]. rewrite HY. unfold bus_count in *.
  split.
  - apply getitem_nth. lia.
  - rewrite Forall_forall in Hrows. apply Hrows. apply nth_In. lia.
Qed.

Lemma Y_lookup (k i : nat) :
  (k < bus_count self)%nat -> (i < bus_count self)%nat ->
  (row <- getitem (_admittance_matrix self) k ;; getitem row i) = Ok (Y_at self k i).
Proof.
  intros Hk Hi. destruct (Y_row k Hk) as [Hrow Hlen].
  rewrite Hrow. simpl. apply getitem_nth. lia.
Qed.

Lemma inner_loop_ok (k : nat) :
  (k < bus_count self)%nat ->
  foldM (estimate_term self k (V self k) (theta self k))
        (enumerate (buses (_system self))) (0, 0)
  = Ok (P_calc self k, Q_calc self k).
Proof.
  intros Hk.
  rewrite (enumerate_nth (mkBus 0 (mkC 0 0) 0 0 0)), foldM_map.
  rewrite (foldM_ok _
    (fun acc i =>
       (fst acc + V self k * V self i *
                  (G self k i * cos (theta self k - theta self i)
                   + B self k i * sin (theta self k - theta self i)),
        snd acc + V self k * V self i *
                  (G self k i * sin (theta self k - theta self i)
                   - B self k i * cos (theta self k - theta self i))))).
  - rewrite fold_left_sums. unfold P_calc, Q_calc, bus_count.
    rewrite !Rplus_0_l. reflexivity.
  - intros [p q] i Hi. apply in_seq in Hi. unfold estimate_term.
    destruct (Y_row k Hk) as [Hrow Hlen]. rewrite Hrow. simpl.
    rewrite (getitem_nth (mkC 0 0)) by (unfold bus_count in *; lia).
    reflexivity.
Qed.

Lemma numbers_nodup (l : list nat) :
  NoDup l -> incl l (seq 0 (bus_count self)) ->
  NoDup (map fst (map (item_of self) l)).
Proof.
  intros Hnd Hincl. rewrite map_map. simpl.
  destruct Hwf as [Hnum _].
  rewrite <- (map_nth_seq (mkBus 0 (mkC 0 0) 0 0 0) (buses (_system self))) in Hnum.
  rewrite map_map in Hnum.
  induction l as [|k l IH]; simpl; [constructor|].
  inversion Hnd as [|? ? Hn Hd]; subst.
  constructor.
  - intros Hin. apply in_map_iff in Hin. destruct Hin as [k' [Heq Hk']].
    apply Hn.
    assert (k' = k); [|subst; assumption].
    apply (NoDup_map_injective _ _ Hnum).
    + apply Hincl. right; assumption.
    + apply Hincl. left; reflexivity.
    + exact Heq.
  - apply IH; [assumption|]. intros x Hx. apply Hincl. right; assumption.
Qed.

Lemma dict_of_items (l : list nat) :
  NoDup l -> incl l (seq 0 (bus_count self)) ->
  fold_left (fun d i => dict_set d (number (deref (buses (_system self)) (bus i))) i)
            (map (estimate_of self) l) []
  = map (item_of self) l.
Proof.
  intros Hnd Hincl.
  rewrite fold_left_map.
  rewrite <- (fold_left_map (fun d it => dict_set d (fst it) (snd it)) (item_of self)).
  rewrite fold_dict_set_fresh; [reflexivity| |intros ? ? []].
  apply numbers_nodup; assumption.
Qed.

Lemma bus_power_estimates_ok :
  _bus_power_estimates self = Ok (map (item_of self) (seq 0 (bus_count self))).
Proof.
  unfold _bus_power_estimates.
  rewrite (enumerate_nth (mkBus 0 (mkC 0 0) 0 0 0)), foldM_map.
  rewrite (foldM_ok _ (fun d k => dict_set d (fst (item_of self k)) (snd (item_of self k)))).
  - rewrite <- (fold_left_map (fun d it => dict_set d (fst it) (snd it)) (item_of self)).
    rewrite fold_dict_set_fresh; [reflexivity| |intros ? ? []].
    apply numbers_nodup; [apply seq_NoDup|apply incl_refl].
  - intros d k Hk. apply in_seq in Hk.
    rewrite <- (enumerate_nth (mkBus 0 (mkC 0 0) 0 0 0)).
    cbv beta iota zeta.
    change (nth k (buses (_system self)) (mkBus 0 (mkC 0 0) 0 0 0)) with (bus_at self k).
    change (numpy_abs (voltage (bus_at self k))) with (V self k).
    change (numpy_angle (voltage (bus_at self k))) with (theta self k).
    rewrite inner_loop_ok by (unfold bus_count; lia).
    reflexivity.
Qed.

Lemma compute_estimates_ok : _compute_estimates self = (Ok tt, refreshed self).
Proof.
  unfold refreshed.
  unfold _compute_estimates. rewrite bus_power_estimates_ok.
  unfold dict_by_number, dict_values. rewrite !map_map. simpl.
  rewrite !filter_map_comm. simpl.
  fold (non_swing self). fold (load self).
  rewrite !dict_of_items; try reflexivity;
    try (apply NoDup_filter, seq_NoDup); apply incl_filter.
Qed.

End Estimates.

(** ** The Jacobian builder *)

Lemma mapM_map {A A' E : Type} (f : A' -> res E) (h : A -> A') (l : list A) :
  mapM f (map h l) = mapM (fun x => f (h x)) l.
Proof.
  induction l as [|x l IH]; simpl; [reflexivity|]. rewrite IH. reflexivity.
Qed.

Lemma filter_none {A : Type} (p : A -> bool) (l : list A) :
  (forall x, In x l -> p x = false) -> filter p l = [].
Proof.
  induction l as [|x l IH]; simpl; intros H; [reflexivity|].
  rewrite H by (left; reflexivity). apply IH. intros y Hy. apply H. right; assumption.
Qed.

Lemma filter_eqb_seq (k n : nat) :
  forall a, (a <= k < a + n)%nat -> filter (fun i => Nat.eqb i k) (seq a n) = [k].
Proof.
  induction n as [|n IH]; intros a Hk; simpl; [lia|].
  destruct (Nat.eqb_spec a k) as [->|Hne].
  - f_equal. apply filter_none. intros x Hx. apply in_seq in Hx.
    apply Nat.eqb_neq. lia.
  - apply IH. lia.
Qed.

Lemma index_of_number_ok (st : list Bus) (k : nat) :
  NoDup (map number st) -> (k < length st)%nat ->
  index_of_number st (number (deref st k)) = Ok k.
Proof.
  intros Hnd Hk. unfold index_of_number, deref.
  rewrite (enumerate_nth (mkBus 0 (mkC 0 0) 0 0 0)), filter_map_comm. simpl.
  rewrite (filter_ext_in _ (fun i => Nat.eqb i k)).
  - rewrite filter_eqb_seq by lia. reflexivity.
  - intros i Hi. apply in_seq in Hi.
    rewrite <- (map_nth_seq (mkBus 0 (mkC 0 0) 0 0 0) st), map_map in Hnd.
    destruct (Nat.eqb_spec i k) as [->|Hne]; [apply Z.eqb_refl|].
    apply Z.eqb_neq. intros Heq. apply Hne.
    apply (NoDup_map_injective _ _ Hnd); [apply in_seq; lia|apply in_seq; lia|exact Heq].
Qed.

Section Jacobian.

Variable self : PowerFlowSolver.
Hypothesis Hc : consistent self.

Lemma consistent_wf : wf_system (_system self).
Proof. apply Hc. Qed.

Lemma consistent_Y : _admittance_matrix self = admittance_matrix (_system self).
Proof. apply Hc. Qed.

Lemma item_lookup (l : list nat) (k : nat) :
  NoDup l -> incl l (seq 0 (bus_count self)) -> In k l ->
  dict_get (map (item_of self) l) (number (bus_at self k)) = Ok (estimate_of self k).
Proof.
  intros Hnd Hincl Hk. apply dict_get_in.
  - apply numbers_nodup; [apply consistent_wf|assumption|assumption].
  - apply (in_map (item_of self)) in Hk. exact Hk.
Qed.

Lemma jacobian_block_ok (rows cols : list nat)
    (cell : bool -> R -> R -> R -> R -> R -> R -> R -> R) (e : nat -> nat -> R) :
  NoDup rows -> incl rows (seq 0 (bus_count self)) ->
  NoDup cols -> incl cols (seq 0 (bus_count self)) ->
  (forall k j, cell (Nat.eqb k j) (V self k) (V self j) (theta_kj self k j)
                    (G self k j) (B self k j) (P_calc self k) (Q_calc self k)
               = e k j) ->
  jacobian_block self (map (item_of self) rows) (map (item_of self) cols) cell
  = Ok (block e rows cols).
Proof.
  intros Hnr Hir Hnc Hic Hcell.
  unfold jacobian_block, dict_keys. rewrite !map_map.
  rewrite mapM_map. apply mapM_ok. intros k Hk.
  assert (Hkn : (k < bus_count self)%nat) by (apply Hir, in_seq in Hk; lia).
  cbv beta. change (fst (item_of self k)) with (number (bus_at self k)).
  rewrite (item_lookup rows k Hnr Hir Hk). simpl.
  change (deref (buses (_system self)) k) with (bus_at self k).
  unfold bus_at at 1.
  rewrite index_of_number_ok; [|apply consistent_wf|exact Hkn]. simpl.
  rewrite mapM_map.
  rewrite (mapM_ok _ (fun j => e k j)); [reflexivity|].
  intros j Hj.
  assert (Hjn : (j < bus_count self)%nat) by (apply Hic, in_seq in Hj; lia).
  cbv beta. change (fst (item_of self j)) with (number (bus_at self j)).
  rewrite (item_lookup cols j Hnc Hic Hj). simpl.
  change (deref (buses (_system self)) j) with (bus_at self j).
  unfold bus_at at 1.
  rewrite index_of_number_ok; [|apply consistent_wf|exact Hjn]. simpl.
  pose proof (Y_lookup self consistent_wf consistent_Y k j Hkn Hjn) as HY.
  unfold bind in HY.
  destruct (getitem (_admittance_matrix self) k) as [row|]; [|discriminate].
  simpl. rewrite HY. simpl. f_equal. apply Hcell.
Qed.

Lemma non_swing_ok : NoDup (non_swing self) /\ incl (non_swing self) (seq 0 (bus_count self)).
Proof. split; [apply NoDup_filter, seq_NoDup|apply incl_filter]. Qed.

Lemma load_ok : NoDup (load self) /\ incl (load self) (seq 0 (bus_count self)).
Proof. split; [apply NoDup_filter, seq_NoDup|apply incl_filter]. Qed.

Lemma jacobian_ok : _jacobian self = Ok (jacobian_of self).
Proof.
  destruct non_swing_ok as [Hn1 Hi1]. destruct load_ok as [Hn2 Hi2].
  destruct Hc as [_ [_ [_ [Hpvpq Hpq]]]].
  unfold _jacobian, _jacobian_11, _jacobian_12, _jacobian_21, _jacobian_22.
  rewrite Hpvpq, Hpq.
  rewrite (jacobian_block_ok _ _ cell_11 (J11 self)); try assumption.
  2:{ intros k j. unfold cell_11, J11.
      destruct (Nat.eq_dec k j) as [He|He], (Nat.eqb_spec k j) as [He'|He'];
        try contradiction; try subst j; simpl; reflexivity. }
  rewrite (jacobian_block_ok _ _ cell_12 (J12 self)); try assumption.
  2:{ intros k j. unfold cell_12, J12.
      destruct (Nat.eq_dec k j) as [He|He], (Nat.eqb_spec k j) as [He'|He'];
        try contradiction; try subst j; simpl; reflexivity. }
  rewrite (jacobian_block_ok _ _ cell_21 (J21 self)); try assumption.
  2:{ intros k j. unfold cell_21, J21.
      destruct (Nat.eq_dec k j) as [He|He], (Nat.eqb_spec k j) as [He'|He'];
        try contradiction; try subst j; simpl; ring. }
  rewrite (jacobian_block_ok _ _ cell_22 (J22 self)); try assumption.
  2:{ intros k j. unfold cell_22, J22.
      destruct (Nat.eq_dec k j) as [He|He], (Nat.eqb_spec k j) as [He'|He'];
        try contradiction; try subst j; simpl; reflexivity. }
  reflexivity.
Qed.

End Jacobian.

Lemma nth_map_lt {A E : Type} (f : A -> E) (l : list A) (n : nat) (d : A) (d' : E) :
  (n < length l)%nat -> nth n (map f l) d' = f (nth n l d).
Proof.
  intros H. rewrite (nth_indep _ d' (f d)) by (rewrite length_map; assumption).
  apply map_nth.
Qed.

Lemma concatenate_axis1_length (a b : matrix) :
  length a = length b -> length (concatenate_axis1 a b) = length a.
Proof.
  revert b. induction a as [|ra a IH]; intros [|rb b] H; simpl in *; try discriminate;
    [reflexivity|]. f_equal. apply IH. lia.
Qed.

Lemma concatenate_axis1_nth (a b : matrix) (r : nat) :
  length a = length b -> (r < length a)%nat ->
  nth r (concatenate_axis1 a b) [] = nth r a [] ++ nth r b [].
Proof.
  revert b r. induction a as [|ra a IH]; intros [|rb b] r H Hr; simpl in *;
    try discriminate; try lia.
  destruct r as [|r]; [reflexivity|]. apply IH; lia.
Qed.

Lemma block_length (e : nat -> nat -> R) (rows cols : list nat) :
  length (block e rows cols) = length rows.
Proof. unfold block. apply length_map. Qed.

Lemma block_row (e : nat -> nat -> R) (rows cols : list nat) (r : nat) :
  (r < length rows)%nat ->
  nth r (block e rows cols) [] = map (fun j => e (nth r rows 0%nat) j) cols.
Proof.
  intros H. unfold block.
  apply (nth_map_lt (fun k => map (fun j => e k j) cols) rows r 0%nat []). assumption.
Qed.

Lemma block_pair_row (e1 e2 : nat -> nat -> R) (rows c1 c2 : list nat) (r : nat) :
  (r < length rows)%nat ->
  nth r (concatenate_axis1 (block e1 rows c1) (block e2 rows c2)) []
  = map (fun j => e1 (nth r rows 0%nat) j) c1 ++ map (fun j => e2 (nth r rows 0%nat) j) c2.
Proof.
  intros H. rewrite concatenate_axis1_nth by (rewrite !block_length; auto).
  rewrite !block_row by assumption. reflexivity.
Qed.

Lemma block_pair_length (e1 e2 : nat -> nat -> R) (rows c1 c2 : list nat) :
  length (concatenate_axis1 (block e1 rows c1) (block e2 rows c2)) = length rows.
Proof.
  rewrite concatenate_axis1_length by (rewrite !block_length; reflexivity).
  apply block_length.
Qed.

(** Shape and entries of the block matrix. *)
Lemma jacobian_of_shape (self : PowerFlowSolver) :
  is_square (length (non_swing self) + length (load self)) (jacobian_of self).
Proof.
  unfold jacobian_of, concatenate_axis0. split.
  - rewrite length_app, !block_pair_length. reflexivity.
  - apply Forall_forall. intros row Hrow.
    apply (In_nth _ _ []) in Hrow. destruct Hrow as [r [Hr <-]].
    rewrite length_app, !block_pair_length in Hr.
    destruct (Nat.lt_ge_cases r (length (non_swing self))) as [Hlt|Hge].
    + rewrite app_nth1 by (rewrite block_pair_length; assumption).
      rewrite block_pair_row by assumption.
      rewrite length_app, !length_map. reflexivity.
    + rewrite app_nth2 by (rewrite block_pair_length; assumption).
      rewrite block_pair_length, block_pair_row by lia.
      rewrite length_app, !length_map. reflexivity.
Qed.

Lemma jacobian_of_entries (self : PowerFlowSolver) :
  let ns := non_swing self in
  let ld := load self in
  let n1 := length ns in
  let n2 := length ld in
  (forall r c, (r < n1)%nat -> (c < n1)%nat ->
     entry (jacobian_of self) r c = J11 self (nth r ns 0%nat) (nth c ns 0%nat)) /\
  (forall r c, (r < n1)%nat -> (c < n2)%nat ->
     entry (jacobian_of self) r (n1 + c) = J12 self (nth r ns 0%nat) (nth c ld 0%nat)) /\
  (forall r c, (r < n2)%nat -> (c < n1)%nat ->
     entry (jacobian_of self) (n1 + r) c = J21 self (nth r ld 0%nat) (nth c ns 0%nat)) /\
  (forall r c, (r < n2)%nat -> (c < n2)%nat ->
     entry (jacobian_of self) (n1 + r) (n1 + c)
     = J22 self (nth r ld 0%nat) (nth c ld 0%nat)).
Proof.
  intros ns ld n1 n2. unfold entry, jacobian_of, concatenate_axis0.
  repeat split; intros r c Hr Hc.
  - rewrite app_nth1 by (rewrite block_pair_length; assumption).
    rewrite block_pair_row by assumption.
    rewrite app_nth1 by (rewrite length_map; assumption).
    apply (nth_map_lt (fun j => J11 self (nth r ns 0%nat) j)). assumption.
  - rewrite app_nth1 by (rewrite block_pair_length; assumption).
    rewrite block_pair_row by assumption.
    rewrite app_nth2 by (rewrite length_map; fold ns n1; lia).
    rewrite length_map. fold ns n1. replace (n1 + c - n1)%nat with c by lia.
    apply (nth_map_lt (fun j => J12 self (nth r ns 0%nat) j)). assumption.
  - rewrite app_nth2 by (rewrite block_pair_length; fold ns n1; lia).
    rewrite block_pair_length. fold ns n1. replace (n1 + r - n1)%nat with r by lia.
    rewrite block_pair_row by assumption.
    rewrite app_nth1 by (rewrite length_map; assumption).
    apply (nth_map_lt (fun j => J21 self (nth r ld 0%nat) j)). assumption.
  - rewrite app_nth2 by (rewrite block_pair_length; fold ns n1; lia).
    rewrite block_pair_length. fold ns n1. replace (n1 + r - n1)%nat with r by lia.
    rewrite block_pair_row by assumption.
    rewrite app_nth2 by (rewrite length_map; fold ns n1; lia).
    rewrite length_map. fold ns n1. replace (n1 + c - n1)%nat with c by lia.
    apply (nth_map_lt (fun j => J22 self (nth r ld 0%nat) j)). assumption.
Qed.

(** ** Linear algebra on arrays of rows *)

Lemma dot_cons (x y : R) (u v : vector) : dot (x :: u) (y :: v) = x * y + dot u v.
Proof. reflexivity. Qed.

Lemma dot_nil_r (u : vector) : dot u [] = 0.
Proof. unfold dot. rewrite combine_nil. reflexivity. Qed.

Lemma dot_linear {A : Type} (f g : A -> R) (c : R) (l : list A) :
  forall row, dot row (map (fun x => f x * c + g x) l)
              = dot row (map f l) * c + dot row (map g l).
Proof.
  induction l as [|x l IH]; intros [|y row]; simpl; try (unfold dot; simpl; lra).
  rewrite !dot_cons, IH. ring.
Qed.

Lemma dot_zeros {A : Type} (l : list A) :
  forall row, dot row (map (fun _ => 0) l) = 0.
Proof.
  induction l as [|x l IH]; intros [|y row]; simpl; try reflexivity.
  rewrite dot_cons, IH. ring.
Qed.

Lemma dot_transpose (row : vector) (n : nat) :
  forall (b : matrix) (v : vector),
    Forall (fun r => length r = n) b -> length v = n ->
    dot (map (fun col => dot row col) (transpose_cols n b)) v = dot row (matvec b v).
Proof.
  induction n as [|n IH]; intros b v Hb Hv.
  - destruct v; [|discriminate]. simpl. unfold matvec.
    rewrite (map_ext _ (fun _ => 0)) by (intros; apply dot_nil_r).
    rewrite dot_zeros. reflexivity.
  - destruct v as [|v0 v]; [discriminate|]. simpl. rewrite dot_cons.
    rewrite IH.
    + unfold matvec. rewrite map_map.
      rewrite (map_ext_in (fun r => dot r (v0 :: v))
                          (fun r => hd 0 r * v0 + dot (tl r) v)).
      * rewrite dot_linear. reflexivity.
      * intros r Hr. rewrite Forall_forall in Hb. specialize (Hb r Hr).
        destruct r; [discriminate|]. reflexivity.
    + apply Forall_forall. intros r Hr. apply in_map_iff in Hr.
      destruct Hr as [r' [<- Hr']]. rewrite Forall_forall in Hb.
      specialize (Hb r' Hr'). destruct r'; [discriminate|]. simpl in *. lia.
    + simpl in Hv. lia.
Qed.

Lemma matvec_matmul (n : nat) (a b : matrix) (v : vector) :
  Forall (fun r => length r = n) b -> length v = n ->
  matvec (matmul n a b) v = matvec a (matvec b v).
Proof.
  intros Hb Hv. unfold matmul. unfold matvec at 1 2. rewrite map_map.
  apply map_ext. intros row. apply dot_transpose; assumption.
Qed.

Lemma dot_unit_before (i : nat) (v : vector) :
  forall a, (i < a)%nat ->
            dot (map (fun j => if Nat.eqb i j then 1 else 0) (seq a (length v))) v = 0.
Proof.
  induction v as [|x v IH]; intros a Ha; simpl; [reflexivity|].
  rewrite dot_cons, IH by lia.
  destruct (Nat.eqb_spec i a); [lia|ring].
Qed.

Lemma dot_unit (i : nat) (v : vector) :
  forall a, (a <= i < a + length v)%nat ->
            dot (map (fun j => if Nat.eqb i j then 1 else 0) (seq a (length v))) v
            = nth (i - a) v 0.
Proof.
  induction v as [|x v IH]; intros a Ha; simpl in *; [lia|].
  rewrite dot_cons.
  destruct (Nat.eqb_spec i a) as [->|Hne].
  - rewrite dot_unit_before by lia. rewrite Nat.sub_diag. ring.
  - rewrite IH by lia. replace (i - a)%nat with (S (i - S a)) by lia. ring.
Qed.

Lemma matvec_eye (v : vector) : matvec (eye (length v)) v = v.
Proof.
  unfold matvec, eye. rewrite map_map.
  transitivity (map (fun i => nth i v 0) (seq 0 (length v))); [|apply map_nth_seq].
  apply map_ext_in. intros i Hi. apply in_seq in Hi.
  rewrite dot_unit by lia. rewrite Nat.sub_0_r. reflexivity.
Qed.

Lemma errors_length (self : PowerFlowSolver) :
  consistent self -> length (errors self) = (length (non_swing self) + length (load self))%nat.
Proof.
  intros [_ [_ [_ [H1 H2]]]]. unfold errors, dict_values.
  rewrite H1, H2, length_app, !length_map. reflexivity.
Qed.

(** A result of the inverse solves the linear system. *)
Lemma inverse_solves (linalg_inv : matrix -> option matrix) (a ainv : matrix) (m : vector) :
  inv_contract linalg_inv -> linalg_inv a = Some ainv -> length m = length a ->
  matvec a (matvec ainv m) = m /\ length (matvec ainv m) = length a.
Proof.
  intros Hinv Ha Hm. destruct (Hinv a ainv Ha) as [_ [[Hlen Hrows] Hmul]]. split.
  - rewrite <- (matvec_matmul (length a)) by assumption.
    rewrite Hmul, <- Hm. apply matvec_eye.
  - unfold matvec. rewrite length_map. assumption.
Qed.

(** ** The state updater *)

Lemma update_self {A : Type} (F : A -> A -> A) (d : A) (l : list A) :
  forall r, update l r (fun b => F (nth r l d) b) = update l r (fun b => F b b).
Proof.
  induction l as [|x l IH]; intros [|r]; simpl; try reflexivity.
  f_equal. apply IH.
Qed.

Lemma length_update {A : Type} (f : A -> A) (l : list A) :
  forall r, length (update l r f) = length l.
Proof.
  induction l as [|x l IH]; intros [|r]; simpl; try reflexivity.
  rewrite IH. reflexivity.
Qed.

Lemma nth_error_update {A : Type} (f : A -> A) (l : list A) :
  forall r k, nth_error (update l r f) k
              = if Nat.eqb r k then option_map f (nth_error l k) else nth_error l k.
Proof.
  induction l as [|x l IH]; intros [|r] [|k]; simpl; try reflexivity.
  - destruct (Nat.eqb r k); reflexivity.
  - apply IH.
Qed.

Lemma correct_angle_update (st : list Bus) (c : R) (e : _BusEstimate) :
  correct_angle st (c, e) = update st (bus e) (rotate c).
Proof.
  unfold correct_angle, set_voltage, deref.
  apply (update_self
           (fun b0 b => mkBus (number b)
                          (polar (numpy_abs (voltage b0)) (numpy_angle (voltage b0) + c))
                          (active_power_generated b) (active_power_consumed b)
                          (reactive_power_consumed b))).
Qed.

Lemma correct_magnitude_update (st : list Bus) (c : R) (e : _BusEstimate) :
  correct_magnitude st (c, e) = update st (bus e) (stretch c).
Proof.
  unfold correct_magnitude, set_voltage, deref.
  apply (update_self
           (fun b0 b => mkBus (number b)
                          (polar (numpy_abs (voltage b0) + c) (numpy_angle (voltage b0)))
                          (active_power_generated b) (active_power_consumed b)
                          (reactive_power_consumed b))).
Qed.

(** A loop of updates through references, seen from one position. *)
Lemma fold_update_nth_error (h : R -> Bus -> Bus) (items : list (R * _BusEstimate)) (k : nat) :
  forall st,
    nth_error (fold_left (fun st it => update st (bus (snd it)) (h (fst it))) items st) k
    = option_map
        (fun b => fold_left (fun b it => if Nat.eqb (bus (snd it)) k then h (fst it) b else b)
                            items b)
        (nth_error st k).
Proof.
  induction items as [|it items IH]; intros st; simpl.
  - destruct (nth_error st k); reflexivity.
  - rewrite IH, nth_error_update.
    destruct (Nat.eqb (bus (snd it)) k), (nth_error st k); reflexivity.
Qed.

Lemma fold_update_length (h : R -> Bus -> Bus) (items : list (R * _BusEstimate)) :
  forall st,
    length (fold_left (fun st it => update st (bus (snd it)) (h (fst it))) items st)
    = length st.
Proof.
  induction items as [|it items IH]; intros st; simpl; [reflexivity|].
  rewrite IH. apply length_update.
Qed.

Lemma rank_none (k : nat) (l : list nat) : ~ In k l -> rank k l = None.
Proof.
  induction l as [|x l IH]; simpl; intros H; [reflexivity|].
  destruct (Nat.eqb_spec x k) as [->|Hne]; [exfalso; apply H; left; reflexivity|].
  rewrite IH by (intros Hin; apply H; right; assumption). reflexivity.
Qed.

Lemma rank_some (k : nat) (l : list nat) :
  forall r, rank k l = Some r -> (r < length l)%nat /\ nth r l 0%nat = k.
Proof.
  induction l as [|x l IH]; simpl; intros r H; [discriminate|].
  destruct (Nat.eqb_spec x k) as [->|Hne].
  - inversion H; subst. split; [lia|reflexivity].
  - destruct (rank k l) as [r'|]; [|discriminate]. inversion H; subst.
    destruct (IH r' eq_refl). split; [lia|assumption].
Qed.

Lemma rank_nth (l : list nat) :
  NoDup l -> forall r, (r < length l)%nat -> rank (nth r l 0%nat) l = Some r.
Proof.
  induction l as [|x l IH]; simpl; intros Hnd r Hr; [lia|].
  inversion Hnd as [|? ? Hn Hd]; subst.
  destruct r as [|r].
  - rewrite Nat.eqb_refl. reflexivity.
  - destruct (Nat.eqb_spec x (nth r l 0%nat)) as [Heq|Hne].
    + exfalso. apply Hn. rewrite Heq. apply nth_In. lia.
    + rewrite IH by (assumption || lia). reflexivity.
Qed.

Lemma rank_in (k : nat) (l : list nat) : In k l -> exists r, rank k l = Some r.
Proof.
  induction l as [|x l IH]; simpl; intros H; [contradiction|].
  destruct (Nat.eqb_spec x k) as [->|Hne]; [exists 0%nat; reflexivity|].
  destruct H as [H|H]; [contradiction|].
  destruct (IH H) as [r ->]. exists (S r). reflexivity.
Qed.

Lemma fold_rank (h : R -> Bus -> Bus) (est : nat -> _BusEstimate) (k : nat) :
  (forall i, bus (est i) = i) ->
  forall (l : list nat) (cs : vector) (b : Bus),
    NoDup l -> length cs = length l ->
    fold_left (fun b it => if Nat.eqb (bus (snd it)) k then h (fst it) b else b)
              (combine cs (map est l)) b
    = match rank k l with
      | Some r => h (nth r cs 0) b
      | None => b
      end.
Proof.
  intros Hest. induction l as [|x l IH]; intros cs b Hnd Hlen.
  - destruct cs; reflexivity.
  - destruct cs as [|c cs]; [discriminate|]. simpl.
    inversion Hnd as [|? ? Hn Hd]; subst.
    rewrite Hest, IH by (assumption || (simpl in Hlen; lia)).
    destruct (Nat.eqb_spec x k) as [->|Hne].
    + rewrite rank_none by assumption. reflexivity.
    + destruct (rank k l); reflexivity.
Qed.

Lemma fold_left_ext_all {A E : Type} (f g : A -> E -> A) (l : list E) :
  (forall a x, f a x = g a x) -> forall a, fold_left f l a = fold_left g l a.
Proof.
  intros H. induction l as [|x l IH]; intros a; simpl; [reflexivity|].
  rewrite H. apply IH.
Qed.

Lemma map_number_update (f : Bus -> Bus) (st : list Bus) :
  (forall b, number (f b) = number b) ->
  forall r, map number (update st r f) = map number st.
Proof.
  intros Hf. induction st as [|b st IH]; intros [|r]; simpl; try reflexivity.
  - rewrite Hf. reflexivity.
  - rewrite IH. reflexivity.
Qed.

Lemma fold_update_numbers (h : R -> Bus -> Bus) (items : list (R * _BusEstimate)) :
  (forall c b, number (h c b) = number b) ->
  forall st,
    map number (fold_left (fun st it => update st (bus (snd it)) (h (fst it))) items st)
    = map number st.
Proof.
  intros Hh. induction items as [|it items IH]; intros st; simpl; [reflexivity|].
  rewrite IH. apply map_number_update. intros b. apply Hh.
Qed.

Lemma apply_corrections_loops (self : PowerFlowSolver) (x : vector) :
  buses (_system (_apply_corrections self x))
  = fold_left (fun st it => update st (bus (snd it)) (stretch (fst it)))
      (combine (skipn (length (_pv_pq_estimates self)) x)
               (dict_values (_pq_estimates self)))
      (fold_left (fun st it => update st (bus (snd it)) (rotate (fst it)))
         (combine (firstn (length (_pv_pq_estimates self)) x)
                  (dict_values (_pv_pq_estimates self)))
         (buses (_system self))).
Proof.
  unfold _apply_corrections. simpl.
  rewrite (fold_left_ext_all correct_magnitude
             (fun st it => update st (bus (snd it)) (stretch (fst it))))
    by (intros st [c e]; apply correct_magnitude_update).
  rewrite (fold_left_ext_all correct_angle
             (fun st it => update st (bus (snd it)) (rotate (fst it))))
    by (intros st [c e]; apply correct_angle_update).
  reflexivity.
Qed.

Lemma apply_corrections_length (self : PowerFlowSolver) (x : vector) :
  bus_count (_apply_corrections self x) = bus_count self.
Proof.
  unfold bus_count. rewrite apply_corrections_loops, !fold_update_length. reflexivity.
Qed.

Lemma apply_corrections_numbers (self : PowerFlowSolver) (x : vector) :
  map number (buses (_system (_apply_corrections self x)))
  = map number (buses (_system self)).
Proof.
  rewrite apply_corrections_loops, !fold_update_numbers; reflexivity.
Qed.

Lemma consistent_values (self : PowerFlowSolver) :
  consistent self ->
  dict_values (_pv_pq_estimates self) = map (estimate_of self) (non_swing self) /\
  dict_values (_pq_estimates self) = map (estimate_of self) (load self) /\
  length (_pv_pq_estimates self) = length (non_swing self).
Proof.
  intros [_ [_ [_ [H1 H2]]]]. unfold dict_values. rewrite H1, H2, !map_map, length_map.
  repeat split; reflexivity.
Qed.

Lemma with_voltage_voltage (b : Bus) : with_voltage b (voltage b) = b.
Proof. destruct b; reflexivity. Qed.

(** The state update, bus by bus. *)
Lemma apply_corrections_bus (self : PowerFlowSolver) (x : vector) (k : nat) :
  consistent self ->
  length x = (length (non_swing self) + length (load self))%nat ->
  (k < bus_count self)%nat ->
  bus_at (_apply_corrections self x) k
  = with_voltage (bus_at self k) (corrected_voltage self x k).
Proof.
  intros Hc Hx Hk.
  destruct (consistent_values self Hc) as [Hv1 [Hv2 Hn]].
  assert (Hnth : nth_error (buses (_system (_apply_corrections self x))) k
                 = Some (with_voltage (bus_at self k) (corrected_voltage self x k))).
  { rewrite apply_corrections_loops, Hv1, Hv2, Hn.
    rewrite !fold_update_nth_error.
    rewrite (nth_error_nth' _ (mkBus 0 (mkC 0 0) 0 0 0)) by exact Hk.
    change (nth k (buses (_system self)) (mkBus 0 (mkC 0 0) 0 0 0)) with (bus_at self k).
    simpl. f_equal.
    rewrite (fold_rank rotate (estimate_of self) k (fun i => eq_refl));
      [|apply NoDup_filter, seq_NoDup|rewrite length_firstn; lia].
    rewrite (fold_rank stretch (estimate_of self) k (fun i => eq_refl));
      [|apply NoDup_filter, seq_NoDup|rewrite length_skipn; lia].
    unfold corrected_voltage, angle_corrected.
    destruct (rank k (non_swing self)) as [r|] eqn:Hr.
    - destruct (rank_some _ _ _ Hr) as [Hlt _].
      rewrite nth_firstn. apply Nat.ltb_lt in Hlt. rewrite Hlt.
      destruct (rank k (load self)) as [r2|]; [|reflexivity].
      rewrite nth_skipn. reflexivity.
    - destruct (rank k (load self)) as [r2|].
      + rewrite nth_skipn. reflexivity.
      + rewrite with_voltage_voltage. reflexivity. }
  unfold bus_at at 1. unfold deref. apply nth_error_nth. exact Hnth.
Qed.

Lemma refreshed_consistent (self : PowerFlowSolver) :
  wf_system (_system self) ->
  _admittance_matrix self = admittance_matrix (_system self) ->
  consistent (refreshed self).
Proof.
  intros Hwf HY. unfold consistent. repeat split; try apply Hwf; assumption || reflexivity.
Qed.

Lemma apply_corrections_wf (self : PowerFlowSolver) (x : vector) :
  consistent self ->
  wf_system (_system (_apply_corrections self x)) /\
  _admittance_matrix (_apply_corrections self x)
  = admittance_matrix (_system (_apply_corrections self x)).
Proof.
  intros [[Hnd [Hlen Hrows]] [HY _]].
  pose proof (apply_corrections_length self x) as Hl. unfold bus_count in Hl.
  split; [|exact HY].
  unfold wf_system. rewrite apply_corrections_numbers, Hl.
  repeat split; assumption.
Qed.

(** Construction and one iteration, written out. *)
Lemma init_ok (system : PowerSystem) (swing : Z) (eP eQ : R) :
  wf_system system ->
  __init__ system swing eP eQ = Ok (solver_of system swing eP eQ) /\
  consistent (solver_of system swing eP eQ).
Proof.
  intros Hwf. split.
  - unfold __init__. rewrite compute_estimates_ok by (assumption || reflexivity).
    reflexivity.
  - apply refreshed_consistent; [assumption|reflexivity].
Qed.

Lemma step_ok (linalg_inv : matrix -> option matrix) (self : PowerFlowSolver)
    (inverse : matrix) :
  consistent self -> linalg_inv (jacobian_of self) = Some inverse ->
  step linalg_inv self
  = (Ok tt, refreshed (_apply_corrections self (matvec inverse (errors self)))) /\
  consistent (refreshed (_apply_corrections self (matvec inverse (errors self)))).
Proof.
  intros Hc Hinv.
  destruct (apply_corrections_wf self (matvec inverse (errors self)) Hc) as [Hwf HY].
  split.
  - unfold step, _compute_corrections. rewrite (jacobian_ok self Hc), Hinv.
    apply compute_estimates_ok; assumption.
  - apply refreshed_consistent; assumption.
Qed.

Lemma step_singular (linalg_inv : matrix -> option matrix) (self : PowerFlowSolver) :
  consistent self -> linalg_inv (jacobian_of self) = None ->
  step linalg_inv self = (Raise LinAlgError, self).
Proof.
  intros Hc Hinv. unfold step, _compute_corrections.
  rewrite (jacobian_ok self Hc), Hinv. reflexivity.
Qed.

Lemma truthy_0 : truthy 0 = false.
Proof. unfold truthy. destruct (Req_dec_T 0 0); [reflexivity|contradiction]. Qed.

Lemma truthy_nonzero (x : R) : x <> 0 -> truthy x = true.
Proof. intros H. unfold truthy. destruct (Req_dec_T x 0); [contradiction|reflexivity]. Qed.

Lemma two_bus_wf : wf_system two_bus.
Proof.
  unfold wf_system, two_bus. simpl. repeat split.
  - repeat constructor; simpl; intuition discriminate.
  - repeat constructor.
Qed.

Lemma two_bus_types (eP eQ : R) :
  non_swing (solver_of two_bus 1 eP eQ) = [1%nat] /\
  load (solver_of two_bus 1 eP eQ) = [1%nat].
Proof.
  unfold non_swing, load, type_at, _bus_type, bus_at, deref. simpl.
  rewrite truthy_0, truthy_nonzero by lra. simpl. split; reflexivity.
Qed.

Lemma two_bus_flat (eP eQ : R) (k : nat) :
  (k < 2)%nat ->
  V (solver_of two_bus 1 eP eQ) k = 1 /\ theta (solver_of two_bus 1 eP eQ) k = 0.
Proof.
  intros Hk. unfold V, theta, bus_at, deref.
  destruct k as [|[|k]]; simpl; try lia; rewrite abs_flat, angle_flat; split; reflexivity.
Qed.

Lemma two_bus_injections (eP eQ : R) :
  P_calc (solver_of two_bus 1 eP eQ) 1 = 0 /\ Q_calc (solver_of two_bus 1 eP eQ) 1 = 0.
Proof.
  unfold P_calc, Q_calc, bus_count. simpl.
  destruct (two_bus_flat eP eQ 0) as [V0 T0]; [lia|].
  destruct (two_bus_flat eP eQ 1) as [V1 T1]; [lia|].
  rewrite V0, V1, T0, T1. unfold G, B, Y_at. simpl.
  replace (0 - 0) with 0 by lra. rewrite cos_0, sin_0. split; lra.
Qed.

Lemma two_bus_jacobian (eP eQ : R) :
  jacobian_of (solver_of two_bus 1 eP eQ) = [[1; 0]; [0; 1]].
Proof.
  unfold jacobian_of. destruct (two_bus_types eP eQ) as [-> ->].
  unfold block, concatenate_axis0. simpl.
  unfold J11, J12, J21, J22. simpl.
  destruct (two_bus_injections eP eQ) as [-> ->].
  destruct (two_bus_flat eP eQ 1) as [-> _]; [lia|].
  unfold G, B, Y_at. simpl.
  repeat f_equal; field.
Qed.

Lemma two_bus_errors (eP eQ : R) :
  errors (solver_of two_bus 1 eP eQ) = [- (1 / 2); 0].
Proof.
  unfold errors.
  change (_pv_pq_estimates (solver_of two_bus 1 eP eQ))
    with (map (item_of (solver_of two_bus 1 eP eQ)) (non_swing (solver_of two_bus 1 eP eQ))).
  change (_pq_estimates (solver_of two_bus 1 eP eQ))
    with (map (item_of (solver_of two_bus 1 eP eQ)) (load (solver_of two_bus 1 eP eQ))).
  destruct (two_bus_types eP eQ) as [-> ->]. unfold dict_values. simpl.
  destruct (two_bus_injections eP eQ) as [-> ->].
  unfold bus_at, deref. simpl. repeat f_equal; lra.
Qed.

Lemma inv_upto2_contract : inv_contract inv_upto2.
Proof.
  intros a ainv H. unfold inv_upto2 in H.
  destruct a as [|[|a11 [|a12 [|? ?]]] [|[|a21 [|a22 [|? ?]]] [|? ?]]]; try discriminate.
  - inversion H; subst. repeat split; constructor.
  - destruct (Req_dec_T a11 0) as [|Hne]; [discriminate|]. inversion H; subst.
    repeat split; try (repeat constructor).
    unfold matmul, eye, dot. simpl. repeat f_equal. field. assumption.
  - destruct (Req_dec_T (a11 * a22 - a12 * a21) 0) as [|Hne]; [discriminate|].
    inversion H; subst.
    repeat split; try (repeat constructor).
    unfold matmul, eye, dot. simpl. repeat f_equal; field; assumption.
Qed.

Lemma inv_upto2_eye : inv_upto2 [[1; 0]; [0; 1]] = Some [[1; 0]; [0; 1]].
Proof.
  unfold inv_upto2. destruct (Req_dec_T (1 * 1 - 0 * 0) 0) as [H|H]; [lra|].
  repeat f_equal; field.
Qed.

(** ** The convergence checker *)

Lemma fold_Rmax_is_max (l : list R) : forall x, is_max (fold_left Rmax l x) (x :: l).
Proof.
  induction l as [|y l IH]; intros x; simpl.
  - split; [left; reflexivity|]. intros z [Hz|[]]. subst z. lra.
  - destruct (IH (Rmax x y)) as [Hin Hub]. split.
    + destruct Hin as [Heq|Hin]; [|right; right; assumption].
      rewrite <- Heq. unfold Rmax. destruct (Rle_dec x y); [right; left|left]; reflexivity.
    + intros z [Hz|[Hz|Hz]].
      * subst z. apply Rle_trans with (Rmax x y); [apply Rmax_l|apply Hub; left; reflexivity].
      * subst z. apply Rle_trans with (Rmax x y); [apply Rmax_r|apply Hub; left; reflexivity].
      * apply Hub. right; assumption.
Qed.

Lemma is_max_unique (l : list R) (m m' : R) : is_max m l -> is_max m' l -> m = m'.
Proof.
  intros [Hin Hub] [Hin' Hub']. apply Rle_antisym; [apply Hub'|apply Hub]; assumption.
Qed.

Lemma numpy_max_spec (l : list R) (m : R) : numpy_max l = Ok m <-> is_max m l.
Proof.
  destruct l as [|x l]; simpl.
  - split; [discriminate|intros [[] _]].
  - split.
    + intros H. inversion H; subst. apply fold_Rmax_is_max.
    + intros H. f_equal. apply (is_max_unique (x :: l)); [apply fold_Rmax_is_max|assumption].
Qed.

Lemma numpy_max_empty (l : list R) : numpy_max l = Raise ValueError <-> l = [].
Proof. destruct l; simpl; split; intros H; try reflexivity; discriminate. Qed.

Lemma Rle_bool_true (x y : R) : Rle_bool x y = true <-> x <= y.
Proof. unfold Rle_bool. destruct (Rle_dec x y); split; intros; auto; discriminate. Qed.

Lemma has_converged_true (self : PowerFlowSolver) :
  has_converged self = Ok true <->
  (exists max_dp,
      is_max max_dp (map (fun i => Rabs (active_power_error i))
                         (dict_values (_pv_pq_estimates self))) /\
      max_dp <= _max_active_power_error self) /\
  (exists max_dq,
      is_max max_dq (map (fun i => Rabs (reactive_power_error i))
                         (dict_values (_pq_estimates self))) /\
      max_dq <= _max_reactive_power_error self).
Proof.
  unfold has_converged. split.
  - intros H.
    destruct (numpy_max (map (fun i => Rabs (active_power_error i)) _)) as [mp|] eqn:Hp;
      [|discriminate].
    destruct (numpy_max (map (fun i => Rabs (reactive_power_error i)) _)) as [mq|] eqn:Hq;
      [|discriminate].
    simpl in H. inversion H as [Hb]. apply andb_true_iff in Hb. destruct Hb as [Hb1 Hb2].
    split; [exists mp|exists mq]; split;
      try (apply numpy_max_spec; assumption); apply Rle_bool_true; assumption.
  - intros [[mp [Hmp Hlp]] [mq [Hmq Hlq]]].
    apply numpy_max_spec in Hmp, Hmq. rewrite Hmp, Hmq. simpl.
    apply Rle_bool_true in Hlp, Hlq. rewrite Hlp, Hlq. reflexivity.
Qed.

(** ** Facts about consistent solvers *)

Lemma consistent_holds (self : PowerFlowSolver) (k : nat) :
  consistent self -> (k < bus_count self)%nat -> estimate_holds self k.
Proof.
  intros Hc Hk. exists (estimate_of self k). unfold estimates.
  destruct Hc as [Hwf [HY [He _]]]. rewrite He. split.
  - apply dict_get_in.
    + apply numbers_nodup; [assumption|apply seq_NoDup|apply incl_refl].
    + apply (in_map (item_of self)). apply in_seq. lia.
  - repeat split; reflexivity.
Qed.

Lemma step_outcome (linalg_inv : matrix -> option matrix) (self : PowerFlowSolver) :
  consistent self ->
  (exists inverse,
      linalg_inv (jacobian_of self) = Some inverse /\
      step linalg_inv self
      = (Ok tt, refreshed (_apply_corrections self (matvec inverse (errors self)))) /\
      consistent (refreshed (_apply_corrections self (matvec inverse (errors self))))) \/
  (linalg_inv (jacobian_of self) = None /\ step linalg_inv self = (Raise LinAlgError, self)).
Proof.
  intros Hc. destruct (linalg_inv (jacobian_of self)) as [inverse|] eqn:Hinv.
  - left. exists inverse. split; [reflexivity|]. apply step_ok; assumption.
  - right. split; [reflexivity|]. apply step_singular; assumption.
Qed.

Lemma steps_consistent (linalg_inv : matrix -> option matrix) (n : nat) :
  forall self out self', consistent self -> steps linalg_inv n self = (out, self') ->
                         consistent self'.
Proof.
  induction n as [|n IH]; intros self out self' Hc H; simpl in H.
  - inversion H; subst. assumption.
  - destruct (step_outcome linalg_inv self Hc) as [[inverse [_ [Hs Hc']]]|[_ Hs]];
      rewrite Hs in H.
    + apply (IH _ _ _ Hc' H).
    + inversion H; subst. assumption.
Qed.

Lemma abs_nonneg (z : complex) : 0 <= numpy_abs z.
Proof. apply sqrt_pos. Qed.



(** The angle correction of the [r]-th non-swing bus is entry [r] of the
    vector; the magnitude correction of the [r]-th load bus is entry
    [|non-swing| + r]. *)
Lemma angle_corrected_nth (self : PowerFlowSolver) (x : vector) (r : nat) :
  (r < length (non_swing self))%nat ->
  angle_corrected self x (nth r (non_swing self) 0%nat)
  = polar (V self (nth r (non_swing self) 0%nat))
          (theta self (nth r (non_swing self) 0%nat) + nth r x 0).
Proof.
  intros Hr. unfold angle_corrected.
  rewrite rank_nth by (assumption || apply NoDup_filter, seq_NoDup). reflexivity.
Qed.

Lemma corrected_voltage_nth (self : PowerFlowSolver) (x : vector) (r : nat) :
  (r < length (load self))%nat ->
  corrected_voltage self x (nth r (load self) 0%nat)
  = polar (numpy_abs (angle_corrected self x (nth r (load self) 0%nat))
           + nth (length (non_swing self) + r) x 0)
          (numpy_angle (angle_corrected self x (nth r (load self) 0%nat))).
Proof.
  intros Hr. unfold corrected_voltage.
  rewrite rank_nth by (assumption || apply NoDup_filter, seq_NoDup). reflexivity.
Qed.

Lemma corrected_voltage_not_load (self : PowerFlowSolver) (x : vector) (k : nat) :
  ~ In k (load self) -> corrected_voltage self x k = angle_corrected self x k.
Proof. intros H. unfold corrected_voltage. rewrite rank_none by assumption. reflexivity. Qed.





Lemma two_bus_consistent (eP eQ : R) : consistent (solver_of two_bus 1 eP eQ).
Proof. apply init_ok, two_bus_wf. Qed.

Lemma two_bus_step_runs (eP eQ : R) :
  exists self', step inv_upto2 (solver_of two_bus 1 eP eQ) = (Ok tt, self').
Proof.
  destruct (step_ok inv_upto2 (solver_of two_bus 1 eP eQ) [[1; 0]; [0; 1]]) as [H _].
  - apply two_bus_consistent.
  - rewrite two_bus_jacobian. apply inv_upto2_eye.
  - eexists. exact H.
Qed.

(** ** The claims *)

(** C3: for a solver whose estimates are those of its current bus state,
    the Jacobian assembled by [_jacobian], which [step] calls first, is the
    block matrix [[J11, J12], [J21, J22]] of size |non-swing| + |load|.  Its
    rows and columns follow the ordered non-swing subset and then the ordered
    load subset, and the entry for row bus [k] and column bus [j] is given by
    the formulas [J11], [J12], [J21], [J22] of the specification, whose
    diagonal case is taken exactly when [k] and [j] are the same bus. *)
Theorem C3_jacobian_blocks (self : PowerFlowSolver) :
  consistent self ->
  let ns := non_swing self in
  let ld := load self in
  let n1 := length ns in
  let n2 := length ld in
  exists J,
    _jacobian self = Ok J /\
    is_square (n1 + n2) J /\
    (forall r c, (r < n1)%nat -> (c < n1)%nat ->
       entry J r c = J11 self (nth r ns 0%nat) (nth c ns 0%nat)) /\
    (forall r c, (r < n1)%nat -> (c < n2)%nat ->
       entry J r (n1 + c) = J12 self (nth r ns 0%nat) (nth c ld 0%nat)) /\
    (forall r c, (r < n2)%nat -> (c < n1)%nat ->
       entry J (n1 + r) c = J21 self (nth r ld 0%nat) (nth c ns 0%nat)) /\
    (forall r c, (r < n2)%nat -> (c < n2)%nat ->
       entry J (n1 + r) (n1 + c) = J22 self (nth r ld 0%nat) (nth c ld 0%nat)).
Proof.
  intros Hc ns ld n1 n2. exists (jacobian_of self).
  split; [apply jacobian_ok; assumption|].
  split; [apply jacobian_of_shape|].
  apply jacobian_of_entries.
Qed.

Lemma C3_jacobian_blocks_witness :
  exists J,
    _jacobian two_bus_solver = Ok J /\
    is_square (length (non_swing two_bus_solver) + length (load two_bus_solver)) J /\
    (forall r c, (r < length (non_swing two_bus_solver))%nat ->
                 (c < length (non_swing two_bus_solver))%nat ->
       entry J r c = J11 two_bus_solver (nth r (non_swing two_bus_solver) 0%nat)
                         (nth c (non_swing two_bus_solver) 0%nat)) /\
    (forall r c, (r < length (non_swing two_bus_solver))%nat ->
                 (c < length (load two_bus_solver))%nat ->
       entry J r (length (non_swing two_bus_solver) + c)
       = J12 two_bus_solver (nth r (non_swing two_bus_solver) 0%nat)
             (nth c (load two_bus_solver) 0%nat)) /\
    (forall r c, (r < length (load two_bus_solver))%nat ->
                 (c < length (non_swing two_bus_solver))%nat ->
       entry J (length (non_swing two_bus_solver) + r) c
       = J21 two_bus_solver (nth r (load two_bus_solver) 0%nat)
             (nth c (non_swing two_bus_solver) 0%nat)) /\
    (forall r c, (r < length (load two_bus_solver))%nat ->
                 (c < length (load two_bus_solver))%nat ->
       entry J (length (non_swing two_bus_solver) + r)
             (length (non_swing two_bus_solver) + c)
       = J22 two_bus_solver (nth r (load two_bus_solver) 0%nat)
             (nth c (load two_bus_solver) 0%nat)).
Proof.
  exact (C3_jacobian_blocks two_bus_solver
           (two_bus_consistent DEFAULT_MAX_ACTIVE_POWER_ERROR
                               DEFAULT_MAX_REACTIVE_POWER_ERROR)).
Defined.

(** C5: when [numpy.linalg.inv] returns an inverse of the Jacobian, the
    correction vector [x] computed by [_compute_corrections] satisfies
    Jacobian . x = mismatch vector, where the mismatch vector is the active
    mismatches of the non-swing buses followed by the reactive mismatches of
    the load buses, in the subset orders of the Jacobian rows.  [x] has
    |non-swing| + |load| entries; [_apply_corrections] uses entry [r] as the
    angle correction of the [r]-th non-swing bus and entry [|non-swing| + r]
    as the magnitude correction of the [r]-th load bus. *)
Theorem C5_corrections (linalg_inv : matrix -> option matrix) (self : PowerFlowSolver)
    (inverse : matrix) :
  inv_contract linalg_inv -> consistent self ->
  linalg_inv (jacobian_of self) = Some inverse ->
  let ns := non_swing self in
  let ld := load self in
  exists J x,
    _jacobian self = Ok J /\
    _compute_corrections linalg_inv self J = Ok x /\
    matvec J x = errors self /\
    errors self = map (delta_P self) ns ++ map (delta_Q self) ld /\
    length x = (length ns + length ld)%nat /\
    (forall r, (r < length ns)%nat ->
       angle_corrected self x (nth r ns 0%nat)
       = polar (V self (nth r ns 0%nat)) (theta self (nth r ns 0%nat) + nth r x 0)) /\
    (forall r, (r < length ld)%nat ->
       corrected_voltage self x (nth r ld 0%nat)
       = polar (numpy_abs (angle_corrected self x (nth r ld 0%nat))
                + nth (length ns + r) x 0)
               (numpy_angle (angle_corrected self x (nth r ld 0%nat)))) /\
    (forall k, (k < bus_count self)%nat ->
       voltage (bus_at (_apply_corrections self x) k) = corrected_voltage self x k).
Proof.
  intros Hinv Hc Hi ns ld.
  assert (Hm : length (errors self) = length (jacobian_of self)).
  { rewrite errors_length by assumption. symmetry. apply jacobian_of_shape. }
  destruct (inverse_solves linalg_inv _ inverse (errors self) Hinv Hi Hm) as [Hsol Hlen].
  rewrite (proj1 (jacobian_of_shape self)) in Hlen.
  exists (jacobian_of self), (matvec inverse (errors self)).
  split; [apply jacobian_ok; assumption|].
  split; [unfold _compute_corrections; rewrite Hi; reflexivity|].
  split; [exact Hsol|].
  split.
  { destruct (consistent_values self Hc) as [Hv1 [Hv2 _]].
    unfold errors. rewrite Hv1, Hv2, !map_map. reflexivity. }
  split; [exact Hlen|].
  split; [intros r Hr; apply angle_corrected_nth; assumption|].
  split; [intros r Hr; apply corrected_voltage_nth; assumption|].
  intros k Hk. rewrite (apply_corrections_bus self _ k Hc Hlen Hk). reflexivity.
Qed.

Lemma C5_corrections_witness :
  exists J x,
    _jacobian two_bus_solver = Ok J /\
    _compute_corrections inv_upto2 two_bus_solver J = Ok x /\
    matvec J x = errors two_bus_solver /\
    errors two_bus_solver
    = map (delta_P two_bus_solver) (non_swing two_bus_solver)
      ++ map (delta_Q two_bus_solver) (load two_bus_solver) /\
    length x = (length (non_swing two_bus_solver) + length (load two_bus_solver))%nat /\
    (forall r, (r < length (non_swing two_bus_solver))%nat ->
       angle_corrected two_bus_solver x (nth r (non_swing two_bus_solver) 0%nat)
       = polar (V two_bus_solver (nth r (non_swing two_bus_solver) 0%nat))
               (theta two_bus_solver (nth r (non_swing two_bus_solver) 0%nat)
                + nth r x 0)) /\
    (forall r, (r < length (load two_bus_solver))%nat ->
       corrected_voltage two_bus_solver x (nth r (load two_bus_solver) 0%nat)
       = polar (numpy_abs (angle_corrected two_bus_solver x
                             (nth r (load two_bus_solver) 0%nat))
                + nth (length (non_swing two_bus_solver) + r) x 0)
               (numpy_angle (angle_corrected two_bus_solver x
                               (nth r (load two_bus_solver) 0%nat)))) /\
    (forall k, (k < bus_count two_bus_solver)%nat ->
       voltage (bus_at (_apply_corrections two_bus_solver x) k)
       = corrected_voltage two_bus_solver x k).
Proof.
  refine (C5_corrections inv_upto2 two_bus_solver [[1; 0]; [0; 1]]
            inv_upto2_contract (two_bus_consistent _ _) _).
  unfold two_bus_solver, DEFAULT_SWING_BUS_NUMBER.
  rewrite two_bus_jacobian. apply inv_upto2_eye.
Defined.

Lemma two_bus_solver_facts :
  consistent two_bus_solver /\
  jacobian_of two_bus_solver = [[1; 0]; [0; 1]] /\
  errors two_bus_solver = [- (1 / 2); 0].
Proof.
  exact (conj (two_bus_consistent _ _) (conj (two_bus_jacobian _ _) (two_bus_errors _ _))).
Qed.

(** C2 (as stated, refuted): on the two-bus network the Jacobian is
    invertible and the correction [x] that [step] applies has
    Jacobian . x different from the negated mismatch vector. *)
Lemma C2_counterexample :
  inv_contract inv_upto2 /\
  exists J x,
    _jacobian two_bus_solver = Ok J /\
    _compute_corrections inv_upto2 two_bus_solver J = Ok x /\
    step inv_upto2 two_bus_solver
    = (Ok tt, refreshed (_apply_corrections two_bus_solver x)) /\
    matvec J x <> map Ropp (errors two_bus_solver).
Proof.
  split; [apply inv_upto2_contract|].
  destruct two_bus_solver_facts as [Hc [HJ He]].
  exists [[1; 0]; [0; 1]], (matvec [[1; 0]; [0; 1]] (errors two_bus_solver)).
  split; [rewrite (jacobian_ok _ Hc), HJ; reflexivity|].
  split; [unfold _compute_corrections; rewrite inv_upto2_eye; reflexivity|].
  split.
  - apply step_ok; [assumption|]. rewrite HJ. apply inv_upto2_eye.
  - rewrite He. unfold matvec, dot. simpl. intros H. inversion H. lra.
Qed.

(** C2 (amended): when [numpy.linalg.inv] returns an inverse of the
    Jacobian J, the correction vector x that [step] applies to the buses
    satisfies J . x = m, where m is the stacked mismatch vector. *)
Theorem C2_correction_solves (linalg_inv : matrix -> option matrix)
    (self : PowerFlowSolver) (inverse : matrix) :
  inv_contract linalg_inv -> consistent self ->
  linalg_inv (jacobian_of self) = Some inverse ->
  exists J x,
    _jacobian self = Ok J /\
    _compute_corrections linalg_inv self J = Ok x /\
    step linalg_inv self = (Ok tt, refreshed (_apply_corrections self x)) /\
    matvec J x = errors self.
Proof.
  intros Hinv Hc Hi.
  exists (jacobian_of self), (matvec inverse (errors self)).
  split; [apply jacobian_ok; assumption|].
  split; [unfold _compute_corrections; rewrite Hi; reflexivity|].
  split; [apply step_ok; assumption|].
  apply (inverse_solves linalg_inv _ inverse (errors self) Hinv Hi).
  rewrite errors_length by assumption. symmetry. apply jacobian_of_shape.
Qed.

Lemma C2_correction_solves_witness :
  exists J x,
    _jacobian two_bus_solver = Ok J /\
    _compute_corrections inv_upto2 two_bus_solver J = Ok x /\
    step inv_upto2 two_bus_solver
    = (Ok tt, refreshed (_apply_corrections two_bus_solver x)) /\
    matvec J x = errors two_bus_solver.
Proof.
  refine (C2_correction_solves inv_upto2 two_bus_solver [[1; 0]; [0; 1]]
            inv_upto2_contract (two_bus_consistent _ _) _).
  unfold two_bus_solver, DEFAULT_SWING_BUS_NUMBER.
  rewrite two_bus_jacobian. apply inv_upto2_eye.
Defined.

Lemma generator_pair_wf : wf_system generator_pair.
Proof.
  unfold wf_system, generator_pair. simpl. repeat split.
  - repeat constructor; simpl; intuition discriminate.
  - repeat constructor.
Qed.

Lemma generator_pair_types (eP eQ : R) :
  non_swing (solver_of generator_pair 1 eP eQ) = [1%nat] /\
  load (solver_of generator_pair 1 eP eQ) = [].
Proof.
  unfold non_swing, load, type_at, _bus_type, bus_at, deref. simpl.
  rewrite truthy_0, truthy_nonzero by lra. simpl. split; reflexivity.
Qed.

Lemma generator_pair_mismatch (eP eQ : R) :
  delta_P (solver_of generator_pair 1 eP eQ) 1 = 0.
Proof.
  unfold delta_P, P_calc, bus_count, V, theta, bus_at, deref. simpl.
  rewrite abs_flat, angle_flat. unfold G, B, Y_at. simpl.
  replace (0 - 0) with 0 by lra. rewrite cos_0, sin_0. lra.
Qed.

(** C6 (as stated, refuted): the snapshot of a swing bus and a generator
    bus has its only non-swing mismatch, and every load mismatch, below the
    thresholds at construction, and [has_converged] raises [ValueError]
    instead of returning true: there is no load bus to take a maximum
    over. *)
Lemma C6_counterexample :
  exists self,
    __init__ generator_pair 1 (1 / 1000) (1 / 1000) = Ok self /\
    (forall k, In k (non_swing self) -> Rabs (delta_P self k) < 1 / 1000) /\
    (forall k, In k (load self) -> Rabs (delta_Q self k) < 1 / 1000) /\
    has_converged self = Raise ValueError /\
    has_converged self <> Ok true.
Proof.
  destruct (init_ok generator_pair 1 (1 / 1000) (1 / 1000) generator_pair_wf)
    as [Hinit Hc].
  destruct (generator_pair_types (1 / 1000) (1 / 1000)) as [Hns Hld].
  eexists. split; [exact Hinit|]. rewrite Hns, Hld. split; [|split].
  - intros k [<-|[]]. rewrite generator_pair_mismatch, Rabs_R0. lra.
  - intros k [].
  - assert (H : has_converged (solver_of generator_pair 1 (1 / 1000) (1 / 1000))
                = Raise ValueError).
    { destruct (consistent_values _ Hc) as [Hv1 [Hv2 _]].
      unfold has_converged. rewrite Hv1, Hv2, Hns, Hld. reflexivity. }
    split; [exact H|]. rewrite H. discriminate.
Qed.

(** C6 (amended): [has_converged] returns true exactly when the maximum of
    |dP| over the non-swing estimates exists and is at most
    [max_active_power_error] and the maximum of |dQ| over the load estimates
    exists and is at most [max_reactive_power_error], on the current
    estimates.  Construction succeeds on a well-formed snapshot; when the
    snapshot has a non-swing bus and a load bus and all their mismatches are
    within the thresholds, [has_converged] is true on the solver before any
    [step]; when it has no non-swing bus or no load bus, [has_converged]
    raises [ValueError], whatever the mismatches are. *)
Theorem C6_has_converged :
  (forall self,
      has_converged self = Ok true <->
      (exists max_dp,
          is_max max_dp (map (fun i => Rabs (active_power_error i))
                             (dict_values (_pv_pq_estimates self))) /\
          max_dp <= _max_active_power_error self) /\
      (exists max_dq,
          is_max max_dq (map (fun i => Rabs (reactive_power_error i))
                             (dict_values (_pq_estimates self))) /\
          max_dq <= _max_reactive_power_error self)) /\
  (forall system swing_bus_number max_active_power_error max_reactive_power_error,
      wf_system system ->
      let s := solver_of system swing_bus_number max_active_power_error
                         max_reactive_power_error in
      exists self,
        __init__ system swing_bus_number max_active_power_error max_reactive_power_error
        = Ok self /\
        (non_swing s <> [] -> load s <> [] ->
         (forall k, In k (non_swing s) -> Rabs (delta_P s k) <= max_active_power_error) ->
         (forall k, In k (load s) -> Rabs (delta_Q s k) <= max_reactive_power_error) ->
         has_converged self = Ok true) /\
        (non_swing s = [] \/ load s = [] -> has_converged self = Raise ValueError)).
Proof.
  split; [exact has_converged_true|].
  intros system swing eP eQ Hwf s.
  destruct (init_ok system swing eP eQ Hwf) as [Hinit Hc]. fold s in Hinit, Hc.
  exists s. split; [exact Hinit|].
  destruct (consistent_values s Hc) as [Hv1 [Hv2 _]].
  assert (Hmax : forall (l : list nat) (f : nat -> R) (t : R),
             l <> [] -> (forall k, In k l -> f k <= t) ->
             exists m, is_max m (map f l) /\ m <= t).
  { intros l f t Hl Hall. destruct l as [|k l]; [congruence|].
    exists (fold_left Rmax (map f l) (f k)).
    pose proof (fold_Rmax_is_max (map f l) (f k)) as Hm.
    split; [exact Hm|].
    destruct Hm as [Hin _]. change (f k :: map f l) with (map f (k :: l)) in Hin.
    apply in_map_iff in Hin. destruct Hin as [j [<- Hj]]. apply Hall. exact Hj. }
  split.
  - intros Hns Hld Hp Hq. apply has_converged_true.
    rewrite Hv1, Hv2, !map_map. split; apply Hmax; assumption.
  - intros Hempty. unfold has_converged. rewrite Hv1, Hv2.
    destruct Hempty as [H|H]; rewrite H; [reflexivity|].
    generalize (map (fun i => Rabs (active_power_error i))
                    (map (estimate_of s) (non_swing s))).
    intros [|y l]; reflexivity.
Qed.

Lemma C6_has_converged_witness :
  exists self, __init__ two_bus 1 1 1 = Ok self /\ has_converged self = Ok true.
Proof.
  destruct (proj2 C6_has_converged two_bus 1%Z 1 1 two_bus_wf) as [self [Hinit [Htrue _]]].
  exists self. split; [exact Hinit|].
  destruct (two_bus_types 1 1) as [Hns Hld].
  apply Htrue; rewrite ?Hns, ?Hld; try discriminate.
  - intros k [<-|[]]. unfold delta_P. rewrite (proj1 (two_bus_injections 1 1)).
    unfold bus_at, deref. simpl. unfold Rabs. destruct (Rcase_abs _); lra.
  - intros k [<-|[]]. unfold delta_Q. rewrite (proj2 (two_bus_injections 1 1)).
    unfold bus_at, deref. simpl. unfold Rabs. destruct (Rcase_abs _); lra.
Defined.

(** C8: when the Jacobian is assembled and [numpy.linalg.inv] raises on it,
    [step] raises [LinAlgError] to its caller and the solver is as it was
    before the call: same bus voltages, same estimate mapping. *)
Theorem C8_singular (linalg_inv : matrix -> option matrix) (self : PowerFlowSolver)
    (J : matrix) :
  _jacobian self = Ok J -> linalg_inv J = None ->
  exists self',
    step linalg_inv self = (Raise LinAlgError, self') /\
    self' = self /\
    buses (_system self') = buses (_system self) /\
    estimates self' = estimates self.
Proof.
  intros HJ Hi. exists self. repeat split.
  unfold step, _compute_corrections. rewrite HJ, Hi. reflexivity.
Qed.

Lemma open_line_wf : wf_system open_line.
Proof.
  unfold wf_system, open_line. simpl. repeat split.
  - repeat constructor; simpl; intuition discriminate.
  - repeat constructor.
Qed.

Lemma open_line_jacobian (eP eQ : R) :
  jacobian_of (solver_of open_line 1 eP eQ) = [[0; 0]; [0; 0]].
Proof.
  assert (Hns : non_swing (solver_of open_line 1 eP eQ) = [1%nat]).
  { unfold non_swing, type_at, _bus_type, bus_at, deref. simpl.
    rewrite truthy_0, truthy_nonzero by lra. reflexivity. }
  assert (Hld : load (solver_of open_line 1 eP eQ) = [1%nat]).
  { unfold load, type_at, _bus_type, bus_at, deref. simpl.
    rewrite truthy_0, truthy_nonzero by lra. reflexivity. }
  unfold jacobian_of. rewrite Hns, Hld.
  unfold block, concatenate_axis0. simpl.
  unfold J11, J12, J21, J22. simpl.
  unfold P_calc, Q_calc, bus_count, G, B, Y_at. simpl.
  repeat f_equal; unfold Rdiv; ring.
Qed.

Lemma C8_singular_witness :
  exists self',
    step inv_upto2 (solver_of open_line 1 (1 / 1000) (1 / 1000))
    = (Raise LinAlgError, self') /\
    self' = solver_of open_line 1 (1 / 1000) (1 / 1000) /\
    buses (_system self') = buses (_system (solver_of open_line 1 (1 / 1000) (1 / 1000))) /\
    estimates self' = estimates (solver_of open_line 1 (1 / 1000) (1 / 1000)).
Proof.
  apply (C8_singular inv_upto2 (solver_of open_line 1 (1 / 1000) (1 / 1000))
           [[0; 0]; [0; 0]]).
  - rewrite jacobian_ok by (apply init_ok, open_line_wf).
    rewrite open_line_jacobian. reflexivity.
  - unfold inv_upto2. destruct (Req_dec_T (0 * 0 - 0 * 0) 0) as [H|H]; [reflexivity|].
    exfalso. apply H. ring.
Defined.

(** C10: for a well-formed snapshot in which no bus is of load type, or in
    which every bus is the swing bus, construction succeeds and
    [has_converged] raises [ValueError], the maximum of an empty sequence,
    instead of returning a boolean. *)
Theorem C10_empty_subset (system : PowerSystem) (swing_bus_number : Z)
    (max_active_power_error max_reactive_power_error : R) :
  wf_system system ->
  let s := solver_of system swing_bus_number max_active_power_error
                     max_reactive_power_error in
  (forall b, In b (buses system) -> _bus_type s b <> PQ) \/
  (forall b, In b (buses system) -> _bus_type s b = SWING) ->
  exists self,
    __init__ system swing_bus_number max_active_power_error max_reactive_power_error
    = Ok self /\
    has_converged self = Raise ValueError.
Proof.
  intros Hwf s Hno.
  destruct (init_ok system swing_bus_number max_active_power_error
                    max_reactive_power_error Hwf) as [Hinit Hc].
  fold s in Hinit, Hc. exists s. split; [exact Hinit|].
  assert (Hpq : forall b, In b (buses system) -> _bus_type s b <> PQ).
  { destruct Hno as [H|H]; [exact H|]. intros b Hb. rewrite (H b Hb). discriminate. }
  assert (Hld : load s = []).
  { unfold load. apply filter_none. intros k Hk. apply in_seq in Hk.
    assert (Hin : In (bus_at s k) (buses system)).
    { unfold bus_at, deref. apply nth_In. exact (proj2 Hk). }
    specialize (Hpq _ Hin). unfold type_at.
    destruct (_bus_type s (bus_at s k)); simpl; congruence. }
  destruct (consistent_values s Hc) as [_ [Hv2 _]].
  unfold has_converged. rewrite Hv2, Hld.
  generalize (map (fun i => Rabs (active_power_error i))
                  (dict_values (_pv_pq_estimates s))).
  intros [|y l]; reflexivity.
Qed.

Lemma one_bus_wf : wf_system one_bus.
Proof.
  unfold wf_system, one_bus. simpl. repeat split.
  - repeat constructor; simpl; intuition.
  - repeat constructor.
Qed.

Lemma C10_empty_subset_witness :
  exists self, __init__ one_bus 1 (1 / 1000) (1 / 1000) = Ok self /\
               has_converged self = Raise ValueError.
Proof.
  apply (C10_empty_subset one_bus 1%Z (1 / 1000) (1 / 1000) one_bus_wf).
  right. intros b [<-|[]]. reflexivity.
Defined.



Lemma three_bus_wf : wf_system three_bus.
Proof.
  unfold wf_system, three_bus. simpl. repeat split.
  - repeat constructor; simpl; intuition discriminate.
  - repeat constructor.
Qed.

Lemma three_bus_types (eP eQ : R) :
  type_at (solver_of three_bus 1 eP eQ) 2 = UNKNOWN /\
  non_swing (solver_of three_bus 1 eP eQ) = [1%nat; 2%nat] /\
  load (solver_of three_bus 1 eP eQ) = [1%nat].
Proof.
  unfold non_swing, load, type_at, _bus_type, bus_at, deref. simpl.
  rewrite truthy_0, truthy_nonzero by lra. simpl. repeat split; reflexivity.
Qed.

(** C1 (as stated, refuted): in the three-bus chain the bus at position 2
    is Unclassified, its estimate is in the non-swing dictionary that the
    Jacobian, the mismatch vector, the angle corrections and
    [has_converged] range over, and the Jacobian has a row for it. *)
Lemma C1_counterexample :
  exists self,
    __init__ three_bus 1 (1 / 1000) (1 / 1000) = Ok self /\
    type_at self 2 = UNKNOWN /\
    (exists e, In e (dict_values (_pv_pq_estimates self)) /\
               bus e = 2%nat /\ bus_type e = UNKNOWN) /\
    (exists J, _jacobian self = Ok J /\ length J = 3%nat) /\
    length (errors self) = 3%nat.
Proof.
  destruct (init_ok three_bus 1 (1 / 1000) (1 / 1000) three_bus_wf) as [Hinit Hc].
  destruct (three_bus_types (1 / 1000) (1 / 1000)) as [Ht [Hns Hld]].
  eexists. split; [exact Hinit|]. split; [exact Ht|].
  destruct (consistent_values _ Hc) as [Hv1 _].
  split.
  - exists (estimate_of (solver_of three_bus 1 (1 / 1000) (1 / 1000)) 2).
    split; [|split; [reflexivity|exact Ht]].
    rewrite Hv1, Hns. right; left; reflexivity.
  - split.
    + exists (jacobian_of (solver_of three_bus 1 (1 / 1000) (1 / 1000))).
      split; [apply jacobian_ok; assumption|].
      rewrite (proj1 (jacobian_of_shape _)), Hns, Hld. reflexivity.
    + rewrite errors_length by assumption. rewrite Hns, Hld. reflexivity.
Qed.

(** C1 (amended): an Unclassified bus is excluded from the load subset, so
    no load estimate refers to it and it receives no magnitude correction;
    it is a member of the non-swing subset: its estimate is in the non-swing
    dictionary, it holds a position [r] there, row and column [r] of the
    Jacobian and entry [r] of the mismatch vector are its own, the state
    update gives it the voltage |v| e^(j (angle v + x_r)), and an active
    mismatch of it above the threshold keeps [has_converged] from returning
    true. *)
Theorem C1_unclassified (self : PowerFlowSolver) (k : nat) :
  consistent self -> (k < bus_count self)%nat -> type_at self k = UNKNOWN ->
  In (estimate_of self k) (dict_values (_pv_pq_estimates self)) /\
  (forall e, In e (dict_values (_pq_estimates self)) -> bus e <> k) /\
  (exists r, (r < length (non_swing self))%nat /\ nth r (non_swing self) 0%nat = k /\
     (exists J, _jacobian self = Ok J /\ entry J r r = J11 self k k) /\
     nth r (errors self) 0 = delta_P self k /\
     forall x, length x = (length (non_swing self) + length (load self))%nat ->
       voltage (bus_at (_apply_corrections self x) k)
       = polar (V self k) (theta self k + nth r x 0)) /\
  (_max_active_power_error self < Rabs (delta_P self k) ->
   has_converged self <> Ok true).
Proof.
  intros Hc Hk Ht.
  destruct (consistent_values self Hc) as [Hv1 [Hv2 _]].
  assert (Hns : In k (non_swing self)).
  { unfold non_swing. apply filter_In. split; [apply in_seq; lia|]. rewrite Ht. reflexivity. }
  assert (Hld : ~ In k (load self)).
  { unfold load. rewrite filter_In, Ht. simpl. intros [_ H]. discriminate. }
  split; [rewrite Hv1; apply in_map; assumption|].
  split.
  { intros e He Hb. rewrite Hv2 in He. apply in_map_iff in He.
    destruct He as [j [<- Hj]]. simpl in Hb. subst j. contradiction. }
  split.
  { destruct (rank_in k _ Hns) as [r Hr].
    destruct (rank_some _ _ _ Hr) as [Hlt Hnth].
    exists r. split; [assumption|]. split; [assumption|].
    split.
    { exists (jacobian_of self). split; [apply jacobian_ok; assumption|].
      rewrite (proj1 (jacobian_of_entries self) r r Hlt Hlt), Hnth. reflexivity. }
    split.
    { unfold errors. rewrite Hv1, Hv2, !map_map.
      rewrite app_nth1 by (rewrite length_map; assumption).
      rewrite (nth_map_lt _ _ _ 0%nat) by assumption. rewrite Hnth. reflexivity. }
    intros x Hx. rewrite (apply_corrections_bus self x k Hc Hx Hk). simpl.
    rewrite corrected_voltage_not_load by assumption.
    unfold angle_corrected. rewrite Hr. reflexivity. }
  intros Hgt Hconv. apply has_converged_true in Hconv.
  destruct Hconv as [[mp [[_ Hub] Hle]] _].
  assert (Rabs (delta_P self k) <= mp); [|lra].
  apply Hub. rewrite Hv1, map_map.
  apply (in_map (fun j => Rabs (active_power_error (estimate_of self j)))) in Hns.
  exact Hns.
Qed.

Lemma C1_unclassified_witness :
  let self := solver_of three_bus 1 (1 / 1000) (1 / 1000) in
  In (estimate_of self 2) (dict_values (_pv_pq_estimates self)) /\
  (forall e, In e (dict_values (_pq_estimates self)) -> bus e <> 2%nat) /\
  (exists r, (r < length (non_swing self))%nat /\ nth r (non_swing self) 0%nat = 2%nat /\
     (exists J, _jacobian self = Ok J /\ entry J r r = J11 self 2 2) /\
     nth r (errors self) 0 = delta_P self 2 /\
     forall x, length x = (length (non_swing self) + length (load self))%nat ->
       voltage (bus_at (_apply_corrections self x) 2)
       = polar (V self 2) (theta self 2 + nth r x 0)) /\
  (_max_active_power_error self < Rabs (delta_P self 2) ->
   has_converged self <> Ok true).
Proof.
  intros self.
  apply (C1_unclassified self 2).
  - apply init_ok, three_bus_wf.
  - unfold bus_count. simpl. lia.
  - apply three_bus_types.
Defined.

(** ** Further properties of the solver *)

Lemma is_max_le (l : list R) (m t : R) :
  is_max m l -> (m <= t <-> Forall (fun x => x <= t) l).
Proof.
  intros [Hin Hub]. rewrite Forall_forall. split.
  - intros Hm x Hx. apply Rle_trans with m; [apply Hub; assumption|assumption].
  - intros H. apply H. assumption.
Qed.

Lemma numpy_max_le (l : list R) (m t : R) :
  numpy_max l = Ok m -> (Rle_bool m t = true <-> Forall (fun x => x <= t) l).
Proof.
  intros H. apply numpy_max_spec in H. rewrite Rle_bool_true. apply is_max_le. assumption.
Qed.

(** X1: [has_converged] raises exactly when one of the two dictionaries
    is empty, and then it raises [ValueError]; otherwise it returns a
    boolean, which is true exactly when every non-swing estimate has
    |dP| within [max_active_power_error] and every load estimate has |dQ|
    within [max_reactive_power_error]. *)
Theorem X1_has_converged_outcomes (self : PowerFlowSolver) :
  (has_converged self = Raise ValueError <->
   _pv_pq_estimates self = [] \/ _pq_estimates self = []) /\
  (forall e, has_converged self = Raise e -> e = ValueError) /\
  (forall b, has_converged self = Ok b ->
     (b = true <->
      Forall (fun i => Rabs (active_power_error i) <= _max_active_power_error self)
             (dict_values (_pv_pq_estimates self)) /\
      Forall (fun i => Rabs (reactive_power_error i) <= _max_reactive_power_error self)
             (dict_values (_pq_estimates self)))).
Proof.
  unfold has_converged.
  set (lp := map (fun i => Rabs (active_power_error i))
                 (dict_values (_pv_pq_estimates self))).
  set (lq := map (fun i => Rabs (reactive_power_error i))
                 (dict_values (_pq_estimates self))).
  assert (Hlp : lp = [] <-> _pv_pq_estimates self = []).
  { unfold lp, dict_values. destruct (_pv_pq_estimates self); simpl; split; congruence. }
  assert (Hlq : lq = [] <-> _pq_estimates self = []).
  { unfold lq, dict_values. destruct (_pq_estimates self); simpl; split; congruence. }
  rewrite <- Hlp, <- Hlq.
  destruct (numpy_max lp) as [mp|ep] eqn:Hp; simpl.
  - destruct (numpy_max lq) as [mq|eq] eqn:Hq; simpl.
    + split.
      { split; [discriminate|]. intros [H|H]; rewrite H in *; discriminate. }
      split; [discriminate|].
      intros b H. inversion H as [Hb]. clear H Hb.
      rewrite andb_true_iff, (numpy_max_le lp mp _ Hp), (numpy_max_le lq mq _ Hq).
      unfold lp, lq. rewrite !Forall_map. reflexivity.
    + assert (Hq' : lq = [] /\ eq = ValueError).
      { destruct lq; simpl in Hq; [inversion Hq; auto|discriminate]. }
      destruct Hq' as [Hq1 ->].
      split; [split; auto|]. split; [intros e H; inversion H; reflexivity|discriminate].
  - assert (Hp' : lp = [] /\ ep = ValueError).
    { destruct lp; simpl in Hp; [inversion Hp; auto|discriminate]. }
    destruct Hp' as [Hp1 ->].
    split; [split; auto|]. split; [intros e H; inversion H; reflexivity|discriminate].
Qed.

Lemma refreshed_fixed (self : PowerFlowSolver) : consistent self -> refreshed self = self.
Proof.
  intros [_ [_ [He [Hp Hq]]]]. unfold refreshed, with_estimates.
  rewrite <- He, <- Hp, <- Hq. destruct self; reflexivity.
Qed.

(** X2: recomputing the estimates of a solver that construction or a
    returning [step] has just produced changes nothing: [_bus_power_estimates]
    returns the estimate mapping the solver holds and [_compute_estimates]
    returns the solver itself. *)
Theorem X2_recompute_round_trip (linalg_inv : matrix -> option matrix)
    (system : PowerSystem) (swing_bus_number : Z)
    (max_active_power_error max_reactive_power_error : R) :
  wf_system system ->
  exists self0,
    __init__ system swing_bus_number max_active_power_error max_reactive_power_error
    = Ok self0 /\
    forall n self, steps linalg_inv n self0 = (Ok tt, self) ->
      _bus_power_estimates self = Ok (estimates self) /\
      _compute_estimates self = (Ok tt, self).
Proof.
  intros Hwf.
  destruct (init_ok system swing_bus_number max_active_power_error
                    max_reactive_power_error Hwf) as [Hinit Hc0].
  eexists. split; [exact Hinit|].
  intros n self Hs.
  pose proof (steps_consistent linalg_inv n _ _ _ Hc0 Hs) as Hc.
  pose proof Hc as [Hwf' [HY [He _]]]. split.
  - rewrite bus_power_estimates_ok by assumption. unfold estimates. rewrite He. reflexivity.
  - rewrite compute_estimates_ok by assumption. rewrite refreshed_fixed by assumption.
    reflexivity.
Qed.

Lemma X2_recompute_round_trip_witness :
  exists self0,
    __init__ two_bus 1 (1 / 1000) (1 / 1000) = Ok self0 /\
    forall n self, steps inv_upto2 n self0 = (Ok tt, self) ->
      _bus_power_estimates self = Ok (estimates self) /\
      _compute_estimates self = (Ok tt, self).
Proof.
  exact (X2_recompute_round_trip inv_upto2 two_bus 1 (1 / 1000) (1 / 1000) two_bus_wf).
Defined.

Lemma map_static_update (f : Bus -> Bus) (st : list Bus) :
  (forall b, static (f b) = static b) ->
  forall r, map static (update st r f) = map static st.
Proof.
  intros Hf. induction st as [|b st IH]; intros [|r]; simpl; try reflexivity.
  - rewrite Hf. reflexivity.
  - rewrite IH. reflexivity.
Qed.

Lemma fold_update_static (h : R -> Bus -> Bus) (items : list (R * _BusEstimate)) :
  (forall c b, static (h c b) = static b) ->
  forall st,
    map static (fold_left (fun st it => update st (bus (snd it)) (h (fst it))) items st)
    = map static st.
Proof.
  intros Hh. induction items as [|it items IH]; intros st; simpl; [reflexivity|].
  rewrite IH. apply map_static_update. intros b. apply Hh.
Qed.

Lemma apply_corrections_static (self : PowerFlowSolver) (x : vector) :
  map static (buses (_system (_apply_corrections self x)))
  = map static (buses (_system self)).
Proof.
  rewrite apply_corrections_loops, !fold_update_static; reflexivity.
Qed.

Lemma compute_estimates_frame (self : PowerFlowSolver) :
  same_frame self (snd (_compute_estimates self)) /\
  buses (_system (snd (_compute_estimates self))) = buses (_system self).
Proof.
  unfold _compute_estimates, same_frame.
  destruct (_bus_power_estimates self); simpl; repeat split; reflexivity.
Qed.

Lemma same_frame_trans (s1 s2 s3 : PowerFlowSolver) :
  same_frame s1 s2 -> same_frame s2 s3 -> same_frame s1 s3.
Proof.
  unfold same_frame. intros [A1 [A2 [A3 [A4 [A5 A6]]]]] [B1 [B2 [B3 [B4 [B5 B6]]]]].
  repeat split; congruence.
Qed.

Lemma same_frame_refl (self : PowerFlowSolver) : same_frame self self.
Proof. unfold same_frame. repeat split; reflexivity. Qed.

Lemma step_same_frame (linalg_inv : matrix -> option matrix) (self : PowerFlowSolver) :
  same_frame self (snd (step linalg_inv self)).
Proof.
  unfold step.
  destruct (_jacobian self) as [J|e]; [|apply same_frame_refl].
  destruct (_compute_corrections linalg_inv self J) as [x|e]; [|apply same_frame_refl].
  apply same_frame_trans with (_apply_corrections self x).
  - unfold same_frame. rewrite apply_corrections_static. repeat split; reflexivity.
  - apply compute_estimates_frame.
Qed.

Lemma steps_same_frame (linalg_inv : matrix -> option matrix) (n : nat) :
  forall self, same_frame self (snd (steps linalg_inv n self)).
Proof.
  induction n as [|n IH]; intros self; simpl; [apply same_frame_refl|].
  pose proof (step_same_frame linalg_inv self) as H.
  destruct (step linalg_inv self) as [[u|e] s1]; simpl in *; [|assumption].
  apply same_frame_trans with s1; [assumption|apply IH].
Qed.

Lemma same_frame_static (self self' : PowerFlowSolver) (k : nat) :
  same_frame self self' -> static (bus_at self' k) = static (bus_at self k).
Proof.
  intros [H _]. unfold bus_at, deref.
  rewrite <- !(map_nth static). rewrite H. reflexivity.
Qed.

Lemma bus_type_static (self self' : PowerFlowSolver) (b b' : Bus) :
  _swing_bus_number self' = _swing_bus_number self -> static b' = static b ->
  _bus_type self' b' = _bus_type self b.
Proof.
  intros Hs Hb. unfold static in Hb. inversion Hb as [[H1 H2 H3 H4]].
  unfold _bus_type. rewrite Hs, H1, H2, H3, H4. reflexivity.
Qed.

Lemma same_frame_subsets (self self' : PowerFlowSolver) :
  same_frame self self' ->
  bus_count self' = bus_count self /\
  (forall k, type_at self' k = type_at self k) /\
  non_swing self' = non_swing self /\ load self' = load self.
Proof.
  intros H.
  assert (Hn : bus_count self' = bus_count self).
  { destruct H as [H _]. unfold bus_count.
    rewrite <- (length_map static), H, length_map. reflexivity. }
  assert (Ht : forall k, type_at self' k = type_at self k).
  { intros k. unfold type_at. apply bus_type_static; [apply H|].
    apply same_frame_static. assumption. }
  split; [assumption|]. split; [assumption|].
  unfold non_swing, load. rewrite Hn.
  split; apply filter_ext; intros k; rewrite Ht; reflexivity.
Qed.

(** C4: for a well-formed snapshot, construction succeeds and returns a
    solver over that snapshot: it holds the system, the admittance matrix of
    the system and the swing bus number it was given.  Every solver reached
    from it by calls of [step] that return holds the same matrix and the
    same buses, but for their voltages.  In all these solvers the estimate
    stored for every bus [k] of the snapshot, the swing bus included, has
    P_k = sum over all buses i of Vk Vi (G_ki cos(theta_k - theta_i) + B_ki sin(theta_k - theta_i)),
    Q_k = sum over all buses i of Vk Vi (G_ki sin(theta_k - theta_i) - B_ki cos(theta_k - theta_i)),
    with G_ki + j B_ki the entry Y[k][i] of the matrix of the snapshot, the
    active mismatch P_generated - P_consumed - P_k and the reactive
    mismatch - Q_consumed - Q_k, all taken at the bus voltages of that
    solver. *)
Theorem C4_estimates (linalg_inv : matrix -> option matrix) (system : PowerSystem)
    (swing_bus_number : Z) (max_active_power_error max_reactive_power_error : R) :
  wf_system system ->
  exists self0,
    __init__ system swing_bus_number max_active_power_error max_reactive_power_error
    = Ok self0 /\
    _system self0 = system /\
    _admittance_matrix self0 = admittance_matrix system /\
    _swing_bus_number self0 = swing_bus_number /\
    (forall k, (k < length (buses system))%nat -> estimate_holds self0 k) /\
    (forall n self, steps linalg_inv n self0 = (Ok tt, self) ->
       same_frame self0 self /\
       forall k, (k < length (buses system))%nat -> estimate_holds self k).
Proof.
  intros Hwf.
  destruct (init_ok system swing_bus_number max_active_power_error
                    max_reactive_power_error Hwf) as [Hinit Hc].
  eexists. split; [exact Hinit|].
  split; [reflexivity|]. split; [reflexivity|]. split; [reflexivity|]. split.
  - intros k Hk. apply consistent_holds; assumption.
  - intros n self Hs.
    pose proof (steps_same_frame linalg_inv n
                  (solver_of system swing_bus_number max_active_power_error
                             max_reactive_power_error)) as Hframe.
    rewrite Hs in Hframe. simpl in Hframe.
    split; [exact Hframe|].
    intros k Hk. apply consistent_holds.
    + apply (steps_consistent linalg_inv n _ _ _ Hc Hs).
    + rewrite (proj1 (same_frame_subsets _ _ Hframe)). exact Hk.
Qed.

Lemma C4_estimates_witness :
  exists self0,
    __init__ two_bus 1 (1 / 1000) (1 / 1000) = Ok self0 /\
    _system self0 = two_bus /\
    _admittance_matrix self0 = admittance_matrix two_bus /\
    _swing_bus_number self0 = 1%Z /\
    (forall k, (k < length (buses two_bus))%nat -> estimate_holds self0 k) /\
    (forall n self, steps inv_upto2 n self0 = (Ok tt, self) ->
       same_frame self0 self /\
       forall k, (k < length (buses two_bus))%nat -> estimate_holds self k).
Proof.
  exact (C4_estimates inv_upto2 two_bus 1 (1 / 1000) (1 / 1000) two_bus_wf).
Defined.

(** X3: no sequence of calls of [step], returning or raising, changes the
    number or the powers of any bus, the admittance matrix, the swing bus
    number or the thresholds; so the bus count, the classification of every
    bus and the two ordered subsets are the same after it as before. *)
Theorem X3_steps_keep_classification (linalg_inv : matrix -> option matrix) (n : nat)
    (self : PowerFlowSolver) :
  let self' := snd (steps linalg_inv n self) in
  same_frame self self' /\
  bus_count self' = bus_count self /\
  (forall k, type_at self' k = type_at self k) /\
  non_swing self' = non_swing self /\ load self' = load self.
Proof.
  intros self'. split; [apply steps_same_frame|].
  apply same_frame_subsets, steps_same_frame.
Qed.

Lemma foldM_raises {A E : Type} (f : A -> E -> res A) (e : exn) (l : list E) :
  (forall a x, In x l -> (exists a', f a x = Ok a') \/ f a x = Raise e) ->
  (exists x, In x l /\ forall a, f a x = Raise e) ->
  forall a, foldM f l a = Raise e.
Proof.
  induction l as [|y l IH]; intros Hall [x [Hx Hbad]] a; [contradiction|]. simpl.
  destruct (Hall a y (or_introl eq_refl)) as [[a' Ha]|Ha]; rewrite Ha; simpl;
    [|reflexivity].
  destruct Hx as [->|Hx]; [rewrite Hbad in Ha; discriminate|].
  apply IH.
  - intros a0 z Hz. apply Hall. right; assumption.
  - exists x. split; assumption.
Qed.

Lemma foldM_total {A E : Type} (f : A -> E -> res A) (l : list E) :
  (forall a x, In x l -> exists a', f a x = Ok a') ->
  forall a, exists a', foldM f l a = Ok a'.
Proof.
  induction l as [|y l IH]; intros Hall a; simpl; [exists a; reflexivity|].
  destruct (Hall a y (or_introl eq_refl)) as [a' Ha]. rewrite Ha. simpl.
  apply IH. intros a0 z Hz. apply Hall. right; assumption.
Qed.

Lemma in_enumerate {A : Type} (l : list A) (i : nat) (x : A) :
  In (i, x) (enumerate l) <-> nth_error l i = Some x.
Proof.
  rewrite (enumerate_nth x), in_map_iff. split.
  - intros [j [Heq Hj]]. inversion Heq; subst. apply in_seq in Hj.
    rewrite (nth_error_nth' l x); [reflexivity|lia].
  - intros H. exists i. split.
    + rewrite (nth_error_nth l i x H). reflexivity.
    + apply in_seq. assert (nth_error l i <> None) as Hn by congruence.
      apply nth_error_Some in Hn. lia.
Qed.

Lemma getitem_cases {A : Type} (d : A) (l : list A) (i : nat) :
  ((i < length l)%nat /\ getitem l i = Ok (nth i l d)) \/
  ((length l <= i)%nat /\ getitem l i = Raise IndexError).
Proof.
  destruct (Nat.lt_ge_cases i (length l)) as [H|H].
  - left. split; [assumption|apply getitem_nth; assumption].
  - right. split; [assumption|]. unfold getitem.
    rewrite (proj2 (nth_error_None l i) H). reflexivity.
Qed.

Lemma estimate_term_cases (self : PowerFlowSolver) (k : nat) (v_k theta_k : R)
    (acc : R * R) (i : nat) (dst : Bus) :
  (~ lookup_fails (_admittance_matrix self) k i /\
   exists acc', estimate_term self k v_k theta_k acc (i, dst) = Ok acc') \/
  (lookup_fails (_admittance_matrix self) k i /\
   estimate_term self k v_k theta_k acc (i, dst) = Raise IndexError).
Proof.
  unfold estimate_term, lookup_fails. destruct acc as [p q].
  destruct (getitem_cases [] (_admittance_matrix self) k) as [[Hk ->]|[Hk ->]]; simpl.
  - destruct (getitem_cases (mkC 0 0) (nth k (_admittance_matrix self) []) i)
      as [[Hi ->]|[Hi ->]]; simpl.
    + left. split; [lia|eexists; reflexivity].
    + right. split; [right; assumption|reflexivity].
  - right. split; [left; assumption|reflexivity].
Qed.

Lemma inner_loop_cases (self : PowerFlowSolver) (k : nat) (v_k theta_k : R) :
  let st := buses (_system self) in
  ((forall i, (i < length st)%nat -> ~ lookup_fails (_admittance_matrix self) k i) ->
   exists pq, foldM (estimate_term self k v_k theta_k) (enumerate st) (0, 0) = Ok pq) /\
  ((exists i, (i < length st)%nat /\ lookup_fails (_admittance_matrix self) k i) ->
   foldM (estimate_term self k v_k theta_k) (enumerate st) (0, 0) = Raise IndexError).
Proof.
  intros st. split.
  - intros Hok. apply foldM_total. intros acc [i dst] Hin.
    apply in_enumerate in Hin.
    assert (Hi : (i < length st)%nat) by (apply nth_error_Some; congruence).
    destruct (estimate_term_cases self k v_k theta_k acc i dst) as [[_ H]|[H _]];
      [assumption|]. exfalso. apply (Hok i Hi H).
  - intros [i [Hi Hf]]. apply foldM_raises.
    + intros acc [j dst] Hin.
      destruct (estimate_term_cases self k v_k theta_k acc j dst) as [[_ H]|[_ H]];
        [left|right]; assumption.
    + exists (i, nth i st (mkBus 0 (mkC 0 0) 0 0 0)). split.
      * apply in_enumerate. apply nth_error_nth'. assumption.
      * intros acc.
        destruct (estimate_term_cases self k v_k theta_k acc i
                    (nth i st (mkBus 0 (mkC 0 0) 0 0 0))) as [[H _]|[_ H]];
          [contradiction|assumption].
Qed.

Lemma bus_power_estimates_cases (self : PowerFlowSolver) :
  let st := buses (_system self) in
  ((forall k i, (k < length st)%nat -> (i < length st)%nat ->
      ~ lookup_fails (_admittance_matrix self) k i) ->
   exists d, _bus_power_estimates self = Ok d) /\
  ((exists k i, (k < length st)%nat /\ (i < length st)%nat /\
      lookup_fails (_admittance_matrix self) k i) ->
   _bus_power_estimates self = Raise IndexError).
Proof.
  intros st. unfold _bus_power_estimates. fold st. split.
  - intros Hok. apply foldM_total. intros d [k src] Hin.
    apply in_enumerate in Hin.
    assert (Hk : (k < length st)%nat) by (apply nth_error_Some; congruence).
    destruct (proj1 (inner_loop_cases self k (numpy_abs (voltage src))
                       (numpy_angle (voltage src)))) as [[p q] Hpq].
    { intros i Hi. apply Hok; assumption. }
    fold st in Hpq. rewrite Hpq. simpl. eexists. reflexivity.
  - intros [k [i [Hk [Hi Hf]]]]. apply foldM_raises.
    + intros d [k' src] Hin.
      destruct (foldM (estimate_term self k' (numpy_abs (voltage src))
                         (numpy_angle (voltage src))) (enumerate st) (0, 0))
        as [[p q]|e] eqn:Hinner; simpl.
      * left. eexists. reflexivity.
      * right. f_equal.
        assert (Hcases : forall l acc, foldM (estimate_term self k' (numpy_abs (voltage src))
                         (numpy_angle (voltage src))) l acc = Raise e -> e = IndexError).
        { induction l as [|[j dst] l IH]; intros acc H; simpl in H; [discriminate|].
          destruct (estimate_term_cases self k' (numpy_abs (voltage src))
                      (numpy_angle (voltage src)) acc j dst) as [[_ [acc' Ha]]|[_ Ha]];
            rewrite Ha in H; simpl in H; [apply (IH _ H)|congruence]. }
        apply (Hcases _ _ Hinner).
    + exists (k, nth k st (mkBus 0 (mkC 0 0) 0 0 0)). split.
      * apply in_enumerate. apply nth_error_nth'. assumption.
      * intros d.
        rewrite (proj2 (inner_loop_cases self k _ _)); [reflexivity|].
        exists i. split; assumption.
Qed.

(** X4: construction succeeds when every lookup [Y[k][i]] for two
    snapshot positions is in range, and then the solver holds the bus list
    and the matrix it was given; it raises [IndexError] when some such
    lookup is out of range. *)
Theorem X4_init_bounds (system : PowerSystem) (swing_bus_number : Z)
    (max_active_power_error max_reactive_power_error : R) :
  let n := length (buses system) in
  ((forall k i, (k < n)%nat -> (i < n)%nat ->
      ~ lookup_fails (admittance_matrix system) k i) ->
   exists self,
     __init__ system swing_bus_number max_active_power_error max_reactive_power_error
     = Ok self /\
     _system self = system /\ _admittance_matrix self = admittance_matrix system) /\
  ((exists k i, (k < n)%nat /\ (i < n)%nat /\
      lookup_fails (admittance_matrix system) k i) ->
   __init__ system swing_bus_number max_active_power_error max_reactive_power_error
   = Raise IndexError).
Proof.
  intros n. unfold __init__, _compute_estimates.
  set (self := mkSolver system swing_bus_number max_active_power_error
                        max_reactive_power_error (admittance_matrix system) [] [] []).
  split.
  - intros Hok. destruct (proj1 (bus_power_estimates_cases self) Hok) as [d Hd].
    rewrite Hd. eexists. split; [reflexivity|]. split; reflexivity.
  - intros Hbad. rewrite (proj2 (bus_power_estimates_cases self) Hbad). reflexivity.
Qed.

Lemma X4_init_bounds_witness :
  (exists self,
     __init__ two_bus 1 (1 / 1000) (1 / 1000) = Ok self /\
     _system self = two_bus /\ _admittance_matrix self = admittance_matrix two_bus) /\
  __init__ short_matrix 1 (1 / 1000) (1 / 1000) = Raise IndexError.
Proof.
  split.
  - apply (proj1 (X4_init_bounds two_bus 1%Z (1 / 1000) (1 / 1000))).
    intros k i Hk Hi [H|H]; simpl in *; [lia|].
    destruct k as [|[|k]]; simpl in *; lia.
  - apply (proj2 (X4_init_bounds short_matrix 1%Z (1 / 1000) (1 / 1000))).
    exists 1%nat, 0%nat. simpl. split; [lia|]. split; [lia|]. left. simpl. lia.
Defined.

Lemma filter_split_length {A : Type} (f : A -> bool) (l : list A) :
  (length (filter f l) + length (filter (fun x => negb (f x)) l) = length l)%nat.
Proof.
  induction l as [|x l IH]; simpl; [reflexivity|].
  destruct (f x); simpl; lia.
Qed.

Lemma bus_type_swing_iff (self : PowerFlowSolver) (b : Bus) :
  _bus_type self b = SWING <-> number b = _swing_bus_number self.
Proof.
  unfold _bus_type. destruct (Z.eqb_spec (number b) (_swing_bus_number self)) as [H|H].
  - split; auto.
  - destruct (truthy (active_power_generated b));
      [|destruct (truthy (active_power_consumed b) || truthy (reactive_power_consumed b))];
      split; intros H'; try discriminate; contradiction.
Qed.

Lemma swing_position_filter (self : PowerFlowSolver) (p : nat) :
  NoDup (map number (buses (_system self))) ->
  (p < bus_count self)%nat -> type_at self p = SWING ->
  non_swing self = filter (fun k => negb (Nat.eqb k p)) (seq 0 (bus_count self)) /\
  forall k, (k < bus_count self)%nat -> type_at self k = SWING -> k = p.
Proof.
  intros Hnd Hp Ht.
  assert (Huniq : forall k, (k < bus_count self)%nat -> type_at self k = SWING -> k = p).
  { intros k Hk Hk'. unfold type_at in *. apply bus_type_swing_iff in Ht, Hk'.
    rewrite <- (map_nth_seq (mkBus 0 (mkC 0 0) 0 0 0) (buses (_system self))), map_map in Hnd.
    apply (NoDup_map_injective _ _ Hnd); try (apply in_seq; unfold bus_count in *; lia).
    unfold bus_at, deref in *. congruence. }
  split; [|exact Huniq].
  unfold non_swing. apply filter_ext_in. intros k Hk. apply in_seq in Hk. f_equal.
  destruct (Nat.eqb_spec k p) as [->|Hne].
  - rewrite Ht. reflexivity.
  - destruct (type_at self k) eqn:Hk'; try reflexivity.
    exfalso. apply Hne. apply Huniq; [lia|assumption].
Qed.

(** X5: when bus numbers are unique, at most one bus is classified SWING.
    If the swing bus number is the number of a bus, that bus is the only
    swing bus and the non-swing subset has all the other buses; if it is the
    number of no bus, every bus is in the non-swing subset and none is held
    as the reference. *)
Theorem X5_swing_unique (self : PowerFlowSolver) :
  NoDup (map number (buses (_system self))) ->
  (In (_swing_bus_number self) (map number (buses (_system self))) ->
   exists p, (p < bus_count self)%nat /\ type_at self p = SWING /\
             (forall k, (k < bus_count self)%nat -> type_at self k = SWING -> k = p) /\
             ~ In p (non_swing self) /\
             (length (non_swing self) + 1 = bus_count self)%nat) /\
  (~ In (_swing_bus_number self) (map number (buses (_system self))) ->
   non_swing self = seq 0 (bus_count self)).
Proof.
  intros Hnd. split.
  - intros Hin. apply in_map_iff in Hin. destruct Hin as [b [Hb Hin]].
    apply (In_nth _ _ (mkBus 0 (mkC 0 0) 0 0 0)) in Hin. destruct Hin as [p [Hp Hnth]].
    change (p < bus_count self)%nat in Hp.
    assert (Ht : type_at self p = SWING).
    { unfold type_at, bus_at, deref. rewrite Hnth. apply bus_type_swing_iff. assumption. }
    destruct (swing_position_filter self p Hnd Hp Ht) as [Hns Huniq].
    exists p. split; [exact Hp|]. split; [exact Ht|]. split; [exact Huniq|]. split.
    + rewrite Hns, filter_In, Nat.eqb_refl. intros [_ H]. discriminate.
    + rewrite Hns.
      pose proof (filter_split_length (fun k => Nat.eqb k p) (seq 0 (bus_count self))) as Hl.
      rewrite filter_eqb_seq in Hl by lia. rewrite length_seq in Hl. simpl in Hl. lia.
  - intros Hnin. unfold non_swing.
    rewrite <- (filter_ext_in (fun _ => true)).
    + induction (seq 0 (bus_count self)) as [|x l IH]; simpl; congruence.
    + intros k Hk. apply in_seq in Hk.
      destruct (type_at self k) eqn:Ht; try reflexivity.
      exfalso. apply Hnin. unfold type_at in Ht. apply bus_type_swing_iff in Ht.
      rewrite <- Ht. apply in_map. unfold bus_at, deref. apply nth_In.
      unfold bus_count in Hk. lia.
Qed.

Lemma X5_swing_unique_witness :
  (In (_swing_bus_number two_bus_solver) (map number (buses (_system two_bus_solver))) ->
   exists p, (p < bus_count two_bus_solver)%nat /\ type_at two_bus_solver p = SWING /\
             (forall k, (k < bus_count two_bus_solver)%nat ->
                        type_at two_bus_solver k = SWING -> k = p) /\
             ~ In p (non_swing two_bus_solver) /\
             (length (non_swing two_bus_solver) + 1 = bus_count two_bus_solver)%nat) /\
  (~ In (_swing_bus_number two_bus_solver) (map number (buses (_system two_bus_solver))) ->
   non_swing two_bus_solver = seq 0 (bus_count two_bus_solver)).
Proof.
  apply (X5_swing_unique two_bus_solver). apply two_bus_wf.
Defined.

(** ** The reports *)

Lemma max_from_spec {A : Type} (key : A -> R) (l : list A) :
  forall best,
    In (max_from key best l) (best :: l) /\
    (forall y, In y (best :: l) -> key y <= key (max_from key best l)).
Proof.
  induction l as [|x l IH]; intros best; simpl.
  - split; [left; reflexivity|]. intros y [<-|[]]. lra.
  - destruct (Rlt_dec (key best) (key x)) as [Hlt|Hge].
    + destruct (IH x) as [Hin Hub]. split.
      * right. exact Hin.
      * intros y [<-|Hy]; [|apply Hub; exact Hy].
        apply Rle_trans with (key x); [lra|apply Hub; left; reflexivity].
    + destruct (IH best) as [Hin Hub]. split.
      * destruct Hin as [Hin|Hin]; [left; exact Hin|right; right; exact Hin].
      * intros y [<-|[<-|Hy]].
        -- apply Hub. left; reflexivity.
        -- apply Rle_trans with (key best); [lra|apply Hub; left; reflexivity].
        -- apply Hub. right; exact Hy.
Qed.

Lemma python_max_spec {A : Type} (key : A -> R) (l : list A) (x : A) :
  python_max key l = Ok x ->
  In x l /\ (forall y, In y l -> key y <= key x) /\ numpy_max (map key l) = Ok (key x).
Proof.
  destruct l as [|a l]; simpl; intros H; [discriminate|]. inversion H; subst.
  destruct (max_from_spec key l a) as [Hin Hub].
  split; [exact Hin|]. split; [exact Hub|].
  change (numpy_max (map key (a :: l)) = Ok (key (max_from key a l))).
  apply numpy_max_spec. split.
  - apply in_map. exact Hin.
  - intros y Hy. apply in_map_iff in Hy. destruct Hy as [z [<- Hz]]. apply Hub. exact Hz.
Qed.

Lemma python_max_empty {A : Type} (key : A -> R) (l : list A) (e : exn) :
  python_max key l = Raise e -> l = [] /\ e = ValueError.
Proof. destruct l; simpl; intros H; inversion H; auto. Qed.

Lemma max_from_first {A : Type} (key : A -> R) (l : list A) :
  forall best, exists r,
    (r < S (length l))%nat /\ nth r (best :: l) best = max_from key best l /\
    forall r', (r' < r)%nat -> key (nth r' (best :: l) best) < key (max_from key best l).
Proof.
  induction l as [|x l IH]; intros best.
  - exists 0%nat. simpl. split; [lia|]. split; [reflexivity|]. intros r' Hr'. lia.
  - simpl max_from. destruct (Rlt_dec (key best) (key x)) as [Hlt|Hge].
    + destruct (IH x) as [r [Hr [Hnth Hfirst]]].
      exists (S r). split; [simpl; lia|]. split.
      * simpl. simpl in Hnth. rewrite <- Hnth. destruct r; [reflexivity|].
        apply nth_indep. simpl in Hr. lia.
      * intros [|r'] Hr'; simpl.
        -- apply Rlt_le_trans with (key x); [exact Hlt|].
           apply (proj2 (max_from_spec key l x)). left; reflexivity.
        -- specialize (Hfirst r' ltac:(lia)). simpl in Hfirst.
           destruct r'; [exact Hfirst|].
           rewrite (nth_indep _ best x) by (simpl in Hr; lia). exact Hfirst.
    + destruct (IH best) as [[|r] [Hr [Hnth Hfirst]]].
      * exists 0%nat. split; [simpl; lia|]. split; [exact Hnth|]. intros r' Hr'. lia.
      * exists (S (S r)). split; [simpl in *; lia|]. split; [exact Hnth|].
        intros [|[|r']] Hr'.
        -- apply (Hfirst 0%nat). lia.
        -- simpl. apply Rle_lt_trans with (key best); [lra|]. apply (Hfirst 0%nat). lia.
        -- apply (Hfirst (S r')). lia.
Qed.

Lemma python_max_map {A : Type} (est : nat -> A) (key : A -> R) (l : list nat) (x : A) :
  python_max key (map est l) = Ok x ->
  exists r, (r < length l)%nat /\ x = est (nth r l 0%nat) /\
    (forall j, In j l -> key (est j) <= key x) /\
    (forall r', (r' < r)%nat -> key (est (nth r' l 0%nat)) < key x) /\
    numpy_max (map key (map est l)) = Ok (key x).
Proof.
  intros H. destruct (python_max_spec key _ x H) as [_ [Hub Hmax]].
  destruct l as [|a l]; [discriminate|]. simpl in H. inversion H as [Hx]. subst x.
  destruct (max_from_first key (map est l) (est a)) as [r [Hr [Hnth Hfirst]]].
  rewrite length_map in Hr.
  assert (Hnth' : forall i, (i < S (length l))%nat ->
                            nth i (est a :: map est l) (est a) = est (nth i (a :: l) 0%nat)).
  { intros i Hi. change (est a :: map est l) with (map est (a :: l)).
    apply nth_map_lt. simpl. lia. }
  exists r. split; [simpl; lia|]. split.
  - rewrite <- Hnth' by lia. rewrite Hnth. reflexivity.
  - split; [intros j Hj; apply Hub, in_map; exact Hj|]. split; [|exact Hmax].
    intros r' Hr'. rewrite <- Hnth' by lia. apply Hfirst. exact Hr'.
Qed.

Lemma consistent_estimate_values (self : PowerFlowSolver) :
  consistent self ->
  dict_values (estimates self) = map (estimate_of self) (seq 0 (bus_count self)) /\
  filter (fun i => negb (BusType_eqb (bus_type i) SWING)) (dict_values (estimates self))
  = map (estimate_of self) (non_swing self) /\
  filter (fun i => BusType_eqb (bus_type i) PQ) (dict_values (estimates self))
  = map (estimate_of self) (load self).
Proof.
  intros [_ [_ [He _]]]. unfold estimates, dict_values. rewrite He, map_map. simpl.
  split; [reflexivity|]. rewrite !filter_map_comm. split; reflexivity.
Qed.

Lemma Rabs_scale (x b : R) : 0 < b -> forall t, Rabs (x * b) <= t * b <-> Rabs x <= t.
Proof.
  intros Hb t. rewrite Rabs_mult, (Rabs_pos_eq b) by lra. split; intros H; nra.
Qed.

(** X6: on the estimates of a solver and a positive power base,
    [largest_power_mismatch_report] raises exactly when [has_converged]
    does, with [ValueError].  Otherwise the active mismatch it reports is
    that of the first non-swing bus, in bus order, whose |dP| is greatest,
    times the base, next to the number of that bus, and likewise for the
    reactive mismatch over the load buses; [has_converged] is true exactly
    when both reported values are within threshold times base. *)
Theorem X6_largest_mismatch (self : PowerFlowSolver) (power_base : R) (iteration : Z) :
  consistent self -> 0 < power_base ->
  let report := largest_power_mismatch_report_fields
                  (buses (_system self)) (estimates self) power_base iteration in
  let ns := non_swing self in
  let ld := load self in
  (report = Raise ValueError <-> has_converged self = Raise ValueError) /\
  (forall e, report = Raise e -> e = ValueError) /\
  (forall it max_p p_number max_q q_number,
     report = Ok (it, max_p, p_number, max_q, q_number) ->
     it = iteration /\
     (exists r, (r < length ns)%nat /\
        p_number = number (bus_at self (nth r ns 0%nat)) /\
        max_p = delta_P self (nth r ns 0%nat) * power_base /\
        (forall j, In j ns ->
           Rabs (delta_P self j) <= Rabs (delta_P self (nth r ns 0%nat))) /\
        (forall r', (r' < r)%nat ->
           Rabs (delta_P self (nth r' ns 0%nat))
           < Rabs (delta_P self (nth r ns 0%nat)))) /\
     (exists r, (r < length ld)%nat /\
        q_number = number (bus_at self (nth r ld 0%nat)) /\
        max_q = delta_Q self (nth r ld 0%nat) * power_base /\
        (forall j, In j ld ->
           Rabs (delta_Q self j) <= Rabs (delta_Q self (nth r ld 0%nat))) /\
        (forall r', (r' < r)%nat ->
           Rabs (delta_Q self (nth r' ld 0%nat))
           < Rabs (delta_Q self (nth r ld 0%nat)))) /\
     (has_converged self = Ok true <->
      Rabs max_p <= _max_active_power_error self * power_base /\
      Rabs max_q <= _max_reactive_power_error self * power_base)).
Proof.
  intros Hc Hb report ns ld.
  destruct (consistent_estimate_values self Hc) as [_ [Hf1 Hf2]].
  destruct (consistent_values self Hc) as [Hv1 [Hv2 _]].
  unfold report, largest_power_mismatch_report_fields. rewrite Hf1, Hf2.
  unfold has_converged. rewrite Hv1, Hv2. fold ns ld.
  destruct (python_max (fun x => Rabs (active_power_error x)) (map (estimate_of self) ns))
    as [xp|ep] eqn:Hp; simpl.
  - destruct (python_max_map _ _ _ _ Hp) as [rp [Hrp [Hxp [Hubp [Hfp Hmp]]]]].
    rewrite Hmp. simpl.
    destruct (python_max (fun x => Rabs (reactive_power_error x))
                (map (estimate_of self) ld)) as [xq|eq] eqn:Hq; simpl.
    + destruct (python_max_map _ _ _ _ Hq) as [rq [Hrq [Hxq [Hubq [Hfq Hmq]]]]].
      rewrite Hmq. simpl.
      split; [split; discriminate|]. split; [discriminate|].
      intros it max_p p_number max_q q_number H. inversion H; subst. clear H.
      split; [reflexivity|].
      split; [exists rp; repeat split; assumption|].
      split; [exists rq; repeat split; assumption|].
      rewrite !Rabs_scale by assumption. simpl.
      rewrite <- !Rle_bool_true, <- andb_true_iff. split; congruence.
    + destruct (python_max_empty _ _ _ Hq) as [Hl ->]. rewrite Hl. simpl.
      split; [split; reflexivity|]. split; [intros e H; inversion H; reflexivity|].
      discriminate.
  - destruct (python_max_empty _ _ _ Hp) as [Hl ->]. rewrite Hl. simpl.
    split; [split; reflexivity|]. split; [intros e H; inversion H; reflexivity|].
    discriminate.
Qed.

Lemma X6_largest_mismatch_witness :
  let report := largest_power_mismatch_report_fields
                  (buses (_system two_bus_solver)) (estimates two_bus_solver) 100 1%Z in
  let ns := non_swing two_bus_solver in
  let ld := load two_bus_solver in
  (report = Raise ValueError <-> has_converged two_bus_solver = Raise ValueError) /\
  (forall e, report = Raise e -> e = ValueError) /\
  (forall it max_p p_number max_q q_number,
     report = Ok (it, max_p, p_number, max_q, q_number) ->
     it = 1%Z /\
     (exists r, (r < length ns)%nat /\
        p_number = number (bus_at two_bus_solver (nth r ns 0%nat)) /\
        max_p = delta_P two_bus_solver (nth r ns 0%nat) * 100 /\
        (forall j, In j ns ->
           Rabs (delta_P two_bus_solver j) <= Rabs (delta_P two_bus_solver (nth r ns 0%nat))) /\
        (forall r', (r' < r)%nat ->
           Rabs (delta_P two_bus_solver (nth r' ns 0%nat))
           < Rabs (delta_P two_bus_solver (nth r ns 0%nat)))) /\
     (exists r, (r < length ld)%nat /\
        q_number = number (bus_at two_bus_solver (nth r ld 0%nat)) /\
        max_q = delta_Q two_bus_solver (nth r ld 0%nat) * 100 /\
        (forall j, In j ld ->
           Rabs (delta_Q two_bus_solver j) <= Rabs (delta_Q two_bus_solver (nth r ld 0%nat))) /\
        (forall r', (r' < r)%nat ->
           Rabs (delta_Q two_bus_solver (nth r' ld 0%nat))
           < Rabs (delta_Q two_bus_solver (nth r ld 0%nat)))) /\
     (has_converged two_bus_solver = Ok true <->
      Rabs max_p <= _max_active_power_error two_bus_solver * 100 /\
      Rabs max_q <= _max_reactive_power_error two_bus_solver * 100)).
Proof.
  apply (X6_largest_mismatch two_bus_solver 100 1 (proj1 two_bus_solver_facts)). lra.
Defined.

(** X7: on the estimates of a solver, the table of
    [power_injection_report] has one row for every bus that is not of load
    type, the swing bus and Unclassified buses included, in bus order; the
    row of a bus holds its number, its declared generation less its active
    mismatch, times the base, and the opposite of its reactive mismatch,
    times the base. *)
Theorem X7_power_injection_rows (self : PowerFlowSolver) (power_base : R) :
  consistent self ->
  let table := power_injection_report_table
                 (buses (_system self)) (estimates self) power_base in
  table
  = map (fun k => (number (bus_at self k),
                   (active_power_generated (bus_at self k) - delta_P self k) * power_base,
                   (- delta_Q self k) * power_base))
        (filter (fun k => negb (BusType_eqb (type_at self k) PQ))
                (seq 0 (bus_count self))) /\
  (length table + length (load self) = bus_count self)%nat.
Proof.
  intros Hc table.
  destruct (consistent_estimate_values self Hc) as [Hv _].
  assert (Ht : table
               = map (fun k => (number (bus_at self k),
                     (active_power_generated (bus_at self k) - delta_P self k) * power_base,
                     (- delta_Q self k) * power_base))
                   (filter (fun k => negb (BusType_eqb (type_at self k) PQ))
                           (seq 0 (bus_count self)))).
  { unfold table, power_injection_report_table. rewrite Hv, filter_map_comm, map_map.
    apply map_ext. intros k. simpl. unfold delta_P, delta_Q, bus_at.
    f_equal; [f_equal|]; ring. }
  split; [exact Ht|].
  rewrite Ht, length_map. unfold load.
  pose proof (filter_split_length (fun k => BusType_eqb (type_at self k) PQ)
                                  (seq 0 (bus_count self))) as Hl.
  rewrite length_seq in Hl. lia.
Qed.

Lemma X7_power_injection_rows_witness :
  let table := power_injection_report_table
                 (buses (_system two_bus_solver)) (estimates two_bus_solver) 100 in
  table
  = map (fun k => (number (bus_at two_bus_solver k),
                   (active_power_generated (bus_at two_bus_solver k)
                    - delta_P two_bus_solver k) * 100,
                   (- delta_Q two_bus_solver k) * 100))
        (filter (fun k => negb (BusType_eqb (type_at two_bus_solver k) PQ))
                (seq 0 (bus_count two_bus_solver))) /\
  (length table + length (load two_bus_solver) = bus_count two_bus_solver)%nat.
Proof.
  exact (X7_power_injection_rows two_bus_solver 100 (proj1 two_bus_solver_facts)).
Defined.

Lemma arctan2_range (y x : R) : - PI < arctan2 y x <= PI.
Proof.
  pose proof PI_RGT_0 as Hpi. pose proof (atan_bound (y / x)) as Hat.
  unfold arctan2.
  destruct (Rlt_dec 0 x) as [Hx|Hx]; [lra|].
  destruct (Rlt_dec x 0) as [Hx'|Hx'].
  - assert (Hinv : / x < 0) by (apply Rinv_lt_0_compat; assumption).
    destruct (Rle_dec 0 y) as [Hy|Hy].
    + assert (Hq : y / x <= 0) by (unfold Rdiv; nra).
      assert (atan (y / x) <= 0).
      { destruct Hq as [Hq|Hq]; [|rewrite Hq, atan_0; lra].
        left. rewrite <- atan_0. apply atan_increasing. assumption. }
      lra.
    + assert (Hq : 0 < y / x) by (unfold Rdiv; nra).
      assert (0 < atan (y / x)) by (rewrite <- atan_0; apply atan_increasing; assumption).
      lra.
  - destruct (Rlt_dec 0 y); [lra|]. destruct (Rlt_dec y 0); lra.
Qed.

(** X8: the table of [bus_voltage_report] has one row for every bus, in bus
    order, starting with the bus number; the voltage of a row is not
    negative, its phase lies in (-180, 180] degrees, and the row is marked
    'No' exactly when the voltage lies within the two operating limits. *)
Theorem X8_bus_voltage_rows (system : PowerSystem)
    (min_operating_voltage max_operating_voltage : R) :
  let table := bus_voltage_report_table system min_operating_voltage
                                        max_operating_voltage in
  map (fun row => fst (fst (fst row))) table = map number (buses system) /\
  forall num magnitude phase outside,
    In (num, magnitude, phase, outside) table ->
    0 <= magnitude /\ -180 < phase <= 180 /\
    (outside = No <->
     min_operating_voltage <= magnitude <= max_operating_voltage).
Proof.
  intros table. unfold table, bus_voltage_report_table. split.
  - rewrite map_map. reflexivity.
  - intros num magnitude phase outside Hin. apply in_map_iff in Hin.
    destruct Hin as [b [Heq _]]. inversion Heq; subst; clear Heq.
    split; [apply abs_nonneg|]. split.
    + pose proof (arctan2_range (imag (voltage b)) (real (voltage b))) as Hr.
      pose proof PI_RGT_0 as Hpi. unfold rad2deg, numpy_angle.
      assert (Hk : 0 < 180 / PI) by (apply Rdiv_lt_0_compat; lra).
      assert (Hpk : PI * (180 / PI) = 180) by (field; lra).
      split; nra.
    + unfold Rlt_bool.
      destruct (Rlt_dec (numpy_abs (voltage b)) min_operating_voltage);
        destruct (Rlt_dec max_operating_voltage (numpy_abs (voltage b))); simpl;
        split; intros H; try discriminate; try reflexivity; lra.
Qed.

(** ** The first power-flow API *)

(** X9: [is_convergent] is true exactly when every error has a real part
    strictly below the active threshold and an imaginary part strictly below
    the reactive threshold; the comparison is signed, so with positive
    thresholds errors with no positive part are accepted whatever their
    size, and an empty list of errors is convergent. *)
Theorem X9_is_convergent (worksheet : Type) (self : PowerFlow.PowerFlow worksheet)
    (errors : list complex) :
  (PowerFlow.is_convergent worksheet self errors = true <->
   Forall (fun e => real e < PowerFlow.max_active_power_mismatch_pu worksheet self /\
                    imag e < PowerFlow.max_reactive_power_mismatch_pu worksheet self)
          errors) /\
  PowerFlow.is_convergent worksheet self [] = true /\
  (0 < PowerFlow.max_active_power_mismatch_pu worksheet self ->
   0 < PowerFlow.max_reactive_power_mismatch_pu worksheet self ->
   Forall (fun e => real e <= 0 /\ imag e <= 0) errors ->
   PowerFlow.is_convergent worksheet self errors = true).
Proof.
  assert (H : PowerFlow.is_convergent worksheet self errors = true <->
              Forall (fun e => real e < PowerFlow.max_active_power_mismatch_pu worksheet self /\
                               imag e < PowerFlow.max_reactive_power_mismatch_pu worksheet self)
                     errors).
  { induction errors as [|e errors IH]; simpl.
    - split; [constructor|reflexivity].
    - unfold Rge_bool, Rle_bool.
      destruct (Rle_dec (PowerFlow.max_active_power_mismatch_pu worksheet self) (real e));
        destruct (Rle_dec (PowerFlow.max_reactive_power_mismatch_pu worksheet self) (imag e));
        simpl; (split; [try discriminate|]);
        try (intros Hf; inversion Hf; subst; lra).
      + intros Hc. constructor; [lra|apply IH; assumption].
      + intros Hf. inversion Hf; subst. apply IH. assumption. }
  split; [exact H|]. split; [reflexivity|].
  intros Hp Hq Hall. apply H. apply Forall_forall. intros e He.
  rewrite Forall_forall in Hall. specialize (Hall e He). lra.
Qed.

Lemma X9_is_convergent_witness :
  PowerFlow.is_convergent unit
    (PowerFlow.mkPowerFlow unit tt tt 1 1 100 (1 / 1000) (1 / 1000))
    [mkC (- 5) (- 7)] = true.
Proof.
  apply (proj2 (proj2 (X9_is_convergent unit
                         (PowerFlow.mkPowerFlow unit tt tt 1 1 100 (1 / 1000) (1 / 1000))
                         [mkC (- 5) (- 7)]))); simpl; try lra.
  repeat constructor; simpl; lra.
Defined.

Section FirstApplyCorrections.

Variable worksheet : Type.
Variable self : PowerFlow.PowerFlow worksheet.
Variables theta_corrections voltage_corrections : vector.
Hypothesis Hlen : (length theta_corrections <= length voltage_corrections)%nat.

Local Abbreviation slack := (PowerFlow.slack_bus_number worksheet self).
Local Abbreviation loop := (PowerFlow.apply_loop worksheet self theta_corrections voltage_corrections).

Lemma apply_loop_slack (bus : PowerFlow.Bus) (rest : list PowerFlow.Bus) (count : nat) :
  non_slack slack bus = false ->
  loop count (bus :: rest) = (fst (loop count rest), bus :: snd (loop count rest)).
Proof.
  unfold non_slack. intros H. apply negb_false_iff in H.
  cbn [PowerFlow.apply_loop]. rewrite H. destruct (loop count rest). reflexivity.
Qed.

Lemma apply_loop_short (bus : PowerFlow.Bus) (rest : list PowerFlow.Bus) (count : nat) :
  non_slack slack bus = true -> (length theta_corrections <= count)%nat ->
  loop count (bus :: rest) = (Raise IndexError, bus :: rest).
Proof.
  unfold non_slack. intros H Hc. apply negb_true_iff in H.
  cbn [PowerFlow.apply_loop]. rewrite H.
  destruct (getitem_cases 0 voltage_corrections count) as [[Hv ->]|[Hv ->]];
    [|reflexivity].
  destruct (getitem_cases 0 theta_corrections count) as [[Ht ->]|[Ht ->]];
    [lia|reflexivity].
Qed.

Lemma apply_loop_update (bus : PowerFlow.Bus) (rest : list PowerFlow.Bus) (count : nat) :
  non_slack slack bus = true -> (count < length theta_corrections)%nat ->
  loop count (bus :: rest)
  = (fst (loop (S count) rest),
     PowerFlow.mkBus (PowerFlow.number bus) (PowerFlow.power bus)
       (polar (numpy_abs (PowerFlow.voltage bus) + nth count voltage_corrections 0)
              (numpy_angle (PowerFlow.voltage bus) + nth count theta_corrections 0))
     :: snd (loop (S count) rest)).
Proof.
  unfold non_slack. intros H Hc. apply negb_true_iff in H.
  cbn [PowerFlow.apply_loop]. rewrite H.
  rewrite (getitem_nth 0 voltage_corrections count) by lia.
  rewrite (getitem_nth 0 theta_corrections count) by lia.
  destruct (loop (S count) rest). reflexivity.
Qed.

Lemma apply_loop_outcome (buses : list PowerFlow.Bus) :
  forall count,
    fst (loop count buses)
    = if (length (filter (non_slack slack) buses) =? 0)%nat
         || (count + length (filter (non_slack slack) buses)
             <=? length theta_corrections)%nat
      then Ok tt else Raise IndexError.
Proof.
  induction buses as [|bus rest IH]; intros count; [reflexivity|].
  cbn [filter]. destruct (non_slack slack bus) eqn:Hb.
  - cbn [length]. destruct (Nat.lt_ge_cases count (length theta_corrections)) as [Hc|Hc].
    + rewrite apply_loop_update by assumption. cbn [fst]. rewrite IH.
      replace (count + S (length (filter (non_slack slack) rest)))%nat
        with (S count + length (filter (non_slack slack) rest))%nat by lia.
      destruct (Nat.eqb_spec (length (filter (non_slack slack) rest)) 0) as [Hz|Hz];
        [|reflexivity].
      rewrite Hz. cbn [orb Nat.eqb].
      destruct (Nat.leb_spec (S count + 0) (length theta_corrections)); [reflexivity|lia].
    + rewrite apply_loop_short by assumption. cbn [fst orb Nat.eqb].
      destruct (Nat.leb_spec (count + S (length (filter (non_slack slack) rest)))
                             (length theta_corrections)); [lia|reflexivity].
  - rewrite apply_loop_slack by assumption. cbn [fst]. apply IH.
Qed.

Lemma apply_loop_nth (buses : list PowerFlow.Bus) :
  forall count p b,
    nth_error buses p = Some b ->
    nth_error (snd (loop count buses)) p
    = Some (if non_slack slack b
               && (count + length (filter (non_slack slack) (firstn p buses))
                   <? length theta_corrections)%nat
            then
              PowerFlow.mkBus (PowerFlow.number b) (PowerFlow.power b)
                (polar (numpy_abs (PowerFlow.voltage b)
                        + nth (count + length (filter (non_slack slack) (firstn p buses)))
                              voltage_corrections 0)
                       (numpy_angle (PowerFlow.voltage b)
                        + nth (count + length (filter (non_slack slack) (firstn p buses)))
                              theta_corrections 0))
            else b).
Proof.
  induction buses as [|bus rest IH]; intros count p b Hp; [destruct p; discriminate|].
  destruct (non_slack slack bus) eqn:Hb.
  - destruct (Nat.lt_ge_cases count (length theta_corrections)) as [Hc|Hc].
    + rewrite apply_loop_update by assumption. cbn [snd].
      destruct p as [|p]; cbn [nth_error firstn filter length] in *.
      * inversion Hp; subst. rewrite Hb, Nat.add_0_r.
        apply Nat.ltb_lt in Hc. rewrite Hc. reflexivity.
      * rewrite Hb. cbn [length]. rewrite (IH (S count) p b Hp).
        replace (count + S (length (filter (non_slack slack) (firstn p rest))))%nat
          with (S count + length (filter (non_slack slack) (firstn p rest)))%nat by lia.
        reflexivity.
    + rewrite apply_loop_short by assumption. cbn [snd]. rewrite Hp. f_equal.
      destruct (Nat.ltb_spec (count + length (filter (non_slack slack)
                                                (firstn p (bus :: rest))))
                             (length theta_corrections)); [lia|].
      rewrite andb_false_r. reflexivity.
  - rewrite apply_loop_slack by assumption. cbn [snd].
    destruct p as [|p]; cbn [nth_error firstn filter length] in *.
    + inversion Hp; subst. rewrite Hb. reflexivity.
    + rewrite Hb. apply IH. exact Hp.
Qed.

End FirstApplyCorrections.

Lemma apply_loop_length (worksheet : Type) (self : PowerFlow.PowerFlow worksheet)
    (theta_corrections voltage_corrections : vector) (buses : list PowerFlow.Bus) :
  forall count,
    length (snd (PowerFlow.apply_loop worksheet self theta_corrections
                   voltage_corrections count buses)) = length buses.
Proof.
  induction buses as [|bus rest IH]; intros count; [reflexivity|].
  cbn [PowerFlow.apply_loop].
  destruct (Z.eqb (PowerFlow.number bus) (PowerFlow.slack_bus_number worksheet self)).
  - specialize (IH count).
    destruct (PowerFlow.apply_loop worksheet self theta_corrections voltage_corrections
                count rest). simpl in *. rewrite IH. reflexivity.
  - destruct (getitem voltage_corrections count); [|reflexivity].
    destruct (getitem theta_corrections count); [|reflexivity].
    specialize (IH (S count)).
    destruct (PowerFlow.apply_loop worksheet self theta_corrections voltage_corrections
                (S count) rest). simpl in *. rewrite IH. reflexivity.
Qed.

(** X10: [apply_corrections] of the first API reads the first half of the
    vector, [len // 2] entries, as angle corrections and the rest as
    magnitude corrections, one pair for every bus that is not the slack bus,
    in bus order.  It returns when there are at most [len // 2] such buses
    and raises [IndexError] otherwise; in both cases the bus list keeps its
    length, numbers and powers, the slack bus keeps its voltage, the [c]-th
    other bus with [c < len // 2] gets the voltage
    (|v| + x[len // 2 + c]) e^(j (angle v + x[c])), and the buses from the one
    that raised on are left as they were. *)
Theorem X10_first_apply_corrections (worksheet : Type)
    (self : PowerFlow.PowerFlow worksheet) (buses : list PowerFlow.Bus)
    (corrections : vector) :
  let half := (length corrections / 2)%nat in
  let slack := PowerFlow.slack_bus_number worksheet self in
  let m := length (filter (non_slack slack) buses) in
  let out := fst (PowerFlow.apply_corrections worksheet self buses corrections) in
  let buses' := snd (PowerFlow.apply_corrections worksheet self buses corrections) in
  (out = Ok tt <-> (m <= half)%nat) /\
  ((half < m)%nat -> out = Raise IndexError) /\
  length buses' = length buses /\
  forall p b, nth_error buses p = Some b ->
    exists b',
      nth_error buses' p = Some b' /\
      PowerFlow.number b' = PowerFlow.number b /\
      PowerFlow.power b' = PowerFlow.power b /\
      PowerFlow.voltage b'
      = let c := length (filter (non_slack slack) (firstn p buses)) in
        if non_slack slack b && (c <? half)%nat
        then polar (numpy_abs (PowerFlow.voltage b) + nth (half + c) corrections 0)
                   (numpy_angle (PowerFlow.voltage b) + nth c corrections 0)
        else PowerFlow.voltage b.
Proof.
  intros half slack m out buses'.
  assert (Hhalf : (2 * half <= length corrections)%nat)
    by (apply Nat.Div0.mul_div_le).
  assert (Ht : length (firstn half corrections) = half)
    by (rewrite length_firstn; lia).
  assert (Hv : (length (firstn half corrections) <= length (skipn half corrections))%nat)
    by (rewrite Ht, length_skipn; lia).
  unfold out, buses', PowerFlow.apply_corrections. fold half.
  pose proof (apply_loop_outcome worksheet self _ _ Hv buses 0) as Hout.
  rewrite Ht in Hout. fold slack m in Hout. simpl in Hout.
  split; [|split; [|split]].
  - rewrite Hout. destruct (Nat.eqb_spec m 0) as [Hz|Hz]; simpl.
    + split; [lia|reflexivity].
    + destruct (Nat.leb_spec m half); split; intros; try reflexivity; try lia; discriminate.
  - intros Hm. rewrite Hout.
    destruct (Nat.eqb_spec m 0) as [Hz|Hz]; [lia|]. simpl.
    destruct (Nat.leb_spec m half); [lia|reflexivity].
  - apply apply_loop_length.
  - intros p b Hp.
    pose proof (apply_loop_nth worksheet self _ _ Hv buses 0 p b Hp) as Hn.
    rewrite Ht in Hn. fold slack in Hn. simpl in Hn.
    eexists. split; [exact Hn|].
    destruct (non_slack slack b && _) eqn:Hc; simpl;
      [|repeat split; reflexivity].
    repeat split.
    apply andb_true_iff in Hc. destruct Hc as [_ Hc].
    rewrite nth_skipn, nth_firstn, Hc. reflexivity.
Qed.

Lemma np_getitem_nth {A : Type} (d : A) (l : list A) (i : nat) :
  (i < length l)%nat -> np_getitem l (Z.of_nat i) = Ok (nth i l d).
Proof.
  intros H. unfold np_getitem, np_index.
  destruct (Z.leb_spec 0 (Z.of_nat i)); [|lia].
  destruct (Z.ltb_spec (Z.of_nat i) (Z.of_nat (length l))); [|lia].
  simpl. rewrite Nat2Z.id. apply getitem_nth. assumption.
Qed.

Lemma fold_left_complex_sums {E : Type} (tp tq : E -> R) (l : list E) :
  forall s,
    fold_left (fun s i => mkC (real s + tp i) (imag s + tq i)) l s
    = mkC (real s + Rsum (map tp l)) (imag s + Rsum (map tq l)).
Proof.
  induction l as [|x l IH]; intros [p q]; simpl.
  - f_equal; lra.
  - rewrite IH. simpl. f_equal; lra.
Qed.

(** X11: for a solver's network whose buses are numbered 1..N in bus order,
    [create_power_flow_equations] of the first API returns, for every bus,
    the complex number whose parts are the susceptance sums
    sum_i Vk Vi B_ki sin(theta_k - theta_i) and
    sum_i - Vk Vi B_ki cos(theta_k - theta_i); when every conductance G_ki is
    zero these are the injections P_k and Q_k of the solver. *)
Theorem X11_first_equations (worksheet : Type) (pf : PowerFlow.PowerFlow worksheet)
    (self : PowerFlowSolver) (power_of : Bus -> complex) :
  wf_system (_system self) ->
  _admittance_matrix self = admittance_matrix (_system self) ->
  (forall k, (k < bus_count self)%nat -> number (bus_at self k) = Z.of_nat k + 1)%Z ->
  let equations :=
    PowerFlow.create_power_flow_equations worksheet pf
      (map (first_api_bus power_of) (buses (_system self))) (_admittance_matrix self) in
  equations
  = Ok (map (fun k => mkC (P_susceptance self k) (Q_susceptance self k))
            (seq 0 (bus_count self))) /\
  ((forall k i, (k < bus_count self)%nat -> (i < bus_count self)%nat -> G self k i = 0) ->
   equations
   = Ok (map (fun k => mkC (P_calc self k) (Q_calc self k)) (seq 0 (bus_count self)))).
Proof.
  intros Hwf HY Hdense equations.
  assert (Heq : equations
                = Ok (map (fun k => mkC (P_susceptance self k) (Q_susceptance self k))
                          (seq 0 (bus_count self)))).
  { unfold equations, PowerFlow.create_power_flow_equations.
    rewrite <- (map_nth_seq (mkBus 0 (mkC 0 0) 0 0 0) (buses (_system self))) at 1.
    fold (bus_count self). rewrite map_map, mapM_map.
    apply mapM_ok. intros k Hk. apply in_seq in Hk.
    change (nth k (buses (_system self)) (mkBus 0 (mkC 0 0) 0 0 0)) with (bus_at self k).
    cbn [first_api_bus PowerFlow.number PowerFlow.voltage].
    rewrite <- (map_nth_seq (mkBus 0 (mkC 0 0) 0 0 0) (buses (_system self))).
    fold (bus_count self). rewrite map_map, foldM_map.
    rewrite (foldM_ok _
      (fun s i => mkC (real s + V self k * V self i * B self k i
                                * sin (theta self k - theta self i))
                      (imag s + - V self k * V self i * B self k i
                                * cos (theta self k - theta self i)))).
    - rewrite fold_left_complex_sums. simpl.
      unfold P_susceptance, Q_susceptance. rewrite !Rplus_0_l. reflexivity.
    - intros s i Hi. apply in_seq in Hi.
      change (nth i (buses (_system self)) (mkBus 0 (mkC 0 0) 0 0 0)) with (bus_at self i).
      cbn [first_api_bus PowerFlow.number PowerFlow.voltage].
      rewrite !Hdense by lia.
      replace (Z.of_nat k + 1 - 1)%Z with (Z.of_nat k) by lia.
      replace (Z.of_nat i + 1 - 1)%Z with (Z.of_nat i) by lia.
      destruct (Y_row self Hwf HY k) as [_ Hrow]; [lia|].
      destruct Hwf as [_ [HlenY _]]. rewrite <- HY in HlenY.
      rewrite (np_getitem_nth []) by (unfold bus_count in *; lia). simpl.
      rewrite (np_getitem_nth (mkC 0 0)) by lia. simpl. reflexivity. }
  split; [exact Heq|].
  intros HG. rewrite Heq. f_equal. apply map_ext_in. intros k Hk. apply in_seq in Hk.
  unfold P_susceptance, Q_susceptance, P_calc, Q_calc. f_equal; f_equal;
    apply map_ext_in; intros i Hi; apply in_seq in Hi; rewrite HG by lia; ring.
Qed.

Lemma X11_first_equations_witness :
  let equations :=
    PowerFlow.create_power_flow_equations unit
      (PowerFlow.mkPowerFlow unit tt tt 1 1 100 (1 / 1000) (1 / 1000))
      (map (first_api_bus (fun _ => mkC 0 0)) (buses (_system two_bus_solver)))
      (_admittance_matrix two_bus_solver) in
  equations
  = Ok (map (fun k => mkC (P_susceptance two_bus_solver k) (Q_susceptance two_bus_solver k))
            (seq 0 (bus_count two_bus_solver))) /\
  ((forall k i, (k < bus_count two_bus_solver)%nat -> (i < bus_count two_bus_solver)%nat ->
                G two_bus_solver k i = 0) ->
   equations
   = Ok (map (fun k => mkC (P_calc two_bus_solver k) (Q_calc two_bus_solver k))
             (seq 0 (bus_count two_bus_solver)))).
Proof.
  apply (X11_first_equations unit _ two_bus_solver (fun _ => mkC 0 0)).
  - apply two_bus_wf.
  - reflexivity.
  - intros k Hk. destruct k as [|[|k]]; simpl in *; try reflexivity.
    unfold bus_count in Hk. simpl in Hk. lia.
Defined.

(** *** The admittance matrix of the first API *)

Lemma nth_update {A : Type} (f : A -> A) (d : A) (l : list A) :
  forall r k, nth k (update l r f) d
              = if Nat.eqb k r && (k <? length l)%nat then f (nth k l d) else nth k l d.
Proof.
  induction l as [|x l IH]; intros [|r] [|k]; simpl; try reflexivity.
  - rewrite andb_false_r. reflexivity.
  - rewrite IH. reflexivity.
Qed.

Lemma np_index_range (n : nat) (z : Z) :
  ((- Z.of_nat n <= z < Z.of_nat n)%Z /\
   exists i, (i < n)%nat /\ np_index n z = Ok i) \/
  (~ (- Z.of_nat n <= z < Z.of_nat n)%Z /\ np_index n z = Raise IndexError).
Proof.
  unfold np_index.
  destruct (Z_lt_ge_dec z 0) as [Hneg|Hpos].
  - rewrite (proj2 (Z.leb_gt 0 z)) by lia. rewrite (proj2 (Z.ltb_lt z 0)) by lia. simpl.
    rewrite andb_true_r.
    destruct (Z.leb_spec (- Z.of_nat n) z).
    + left. split; [lia|]. exists (Z.to_nat (z + Z.of_nat n)). split; [lia|reflexivity].
    + right. split; [lia|reflexivity].
  - rewrite (proj2 (Z.leb_le 0 z)) by lia. simpl.
    rewrite (proj2 (Z.ltb_ge z 0)) by lia. rewrite andb_false_r.
    destruct (Z.ltb_spec z (Z.of_nat n)).
    + left. split; [lia|]. exists (Z.to_nat z). split; [lia|reflexivity].
    + right. split; [lia|reflexivity].
Qed.

Lemma square_c_row (n : nat) (a : list (list complex)) (i : nat) :
  square_c n a -> (i < n)%nat -> length (nth i a []) = n.
Proof.
  intros [Hl Hr] Hi. rewrite Forall_forall in Hr. apply Hr. apply nth_In. lia.
Qed.

Lemma square_c_update (n : nat) (a : list (list complex)) (i j : nat)
    (f : complex -> complex) :
  square_c n a -> square_c n (update a i (fun row => update row j f)).
Proof.
  intros [Hl Hr]. split; [rewrite length_update; exact Hl|].
  apply Forall_forall. intros row Hin.
  apply (In_nth _ _ []) in Hin. destruct Hin as [k [Hk <-]].
  rewrite length_update in Hk. rewrite nth_update.
  rewrite Forall_forall in Hr.
  destruct (Nat.eqb k i && (k <? length a)%nat).
  - rewrite length_update. apply Hr. apply nth_In. exact Hk.
  - apply Hr. apply nth_In. exact Hk.
Qed.

Lemma centry_update (n : nat) (a : list (list complex)) (i j : nat)
    (f : complex -> complex) (p q : nat) :
  square_c n a -> (i < n)%nat -> (j < n)%nat ->
  centry (update a i (fun row => update row j f)) p q
  = if Nat.eqb p i && Nat.eqb q j then f (centry a p q) else centry a p q.
Proof.
  intros Hsq Hi Hj. unfold centry. rewrite nth_update.
  destruct (Nat.eqb_spec p i) as [->|Hne]; simpl; [|reflexivity].
  destruct Hsq as [Hl Hr]. rewrite Hl.
  destruct (Nat.ltb_spec i n); [|lia].
  rewrite nth_update.
  rewrite (square_c_row n a i (conj Hl Hr)) by assumption.
  destruct (Nat.eqb_spec q j) as [->|Hne]; simpl; [|reflexivity].
  destruct (Nat.ltb_spec j n); [reflexivity|lia].
Qed.

Lemma modify_entry_cases (n : nat) (a : list (list complex)) (i j : Z)
    (f : complex -> complex) :
  square_c n a ->
  (((- Z.of_nat n <= i < Z.of_nat n)%Z /\ (- Z.of_nat n <= j < Z.of_nat n)%Z) /\
   exists i' j', (i' < n)%nat /\ (j' < n)%nat /\
     np_index n i = Ok i' /\ np_index n j = Ok j' /\
     modify_entry a i j f = Ok (update a i' (fun row => update row j' f))) \/
  (~ ((- Z.of_nat n <= i < Z.of_nat n)%Z /\ (- Z.of_nat n <= j < Z.of_nat n)%Z) /\
   modify_entry a i j f = Raise IndexError).
Proof.
  intros Hsq. pose proof Hsq as [Hl Hr]. unfold modify_entry. rewrite Hl.
  destruct (np_index_range n i) as [[Hi [i' [Hi' ->]]]|[Hi ->]]; simpl;
    [|right; split; [tauto|reflexivity]].
  rewrite (getitem_nth [] a i') by lia. simpl.
  rewrite (square_c_row n a i' Hsq Hi').
  destruct (np_index_range n j) as [[Hj [j' [Hj' Hjeq]]]|[Hj Hjeq]]; rewrite Hjeq; simpl.
  - left. split; [tauto|]. exists i', j'. repeat split; assumption.
  - right. split; [tauto|reflexivity].
Qed.

Lemma complex_inverse_cases (z : complex) :
  ((real z <> 0 \/ imag z <> 0) /\ exists y, complex_inverse z = Returns y) \/
  (real z = 0 /\ imag z = 0 /\ complex_inverse z = Raises ZeroDivisionError).
Proof.
  unfold complex_inverse.
  destruct (Req_dec_T (real z) 0) as [Hr|Hr]; [destruct (Req_dec_T (imag z) 0) as [Hi|Hi]|].
  - right. repeat split; assumption.
  - left. split; [right; assumption|eexists; reflexivity].
  - left. split; [left; assumption|eexists; reflexivity].
Qed.

Lemma modify_entry_ok (n : nat) (a : list (list complex)) (i j : Z) (i' j' : nat)
    (f : complex -> complex) :
  square_c n a -> np_index n i = Ok i' -> np_index n j = Ok j' ->
  modify_entry a i j f = Ok (update a i' (fun row => update row j' f)).
Proof.
  intros Hsq Hi Hj.
  destruct (modify_entry_cases n a i j f Hsq)
    as [[_ [i2 [j2 [_ [_ [Hi2 [Hj2 H]]]]]]]|[Hbad _]].
  - rewrite Hi in Hi2. rewrite Hj in Hj2. inversion Hi2; inversion Hj2; subst. exact H.
  - exfalso. apply Hbad.
    destruct (np_index_range n i) as [[Hr _]|[_ Hr]]; [|rewrite Hi in Hr; discriminate].
    destruct (np_index_range n j) as [[Hr' _]|[_ Hr']]; [|rewrite Hj in Hr'; discriminate].
    split; assumption.
Qed.

Lemma add_line_cases (n : nat) (a : list (list complex)) (row : line_row) :
  square_c n a ->
  (row_ok n row /\
   exists s d y_series y_parallel,
     (s < n)%nat /\ (d < n)%nat /\
     add_line a row = Returns (with_line a s d y_series y_parallel)) \/
  (~ row_ok n row /\ add_line a row = Raises (row_exception row)).
Proof.
  intros Hsq. unfold add_line, row_ok, row_exception.
  destruct (source_cell row) as [source|]; [|right; split; [tauto|reflexivity]].
  destruct (destination_cell row) as [destination|];
    [|right; split; [tauto|reflexivity]].
  destruct (xtotal_cell row) as [xtotal|];
    [|right; split; [destruct (rtotal_cell row); tauto|reflexivity]].
  destruct (rtotal_cell row) as [rtotal|]; [|right; split; [tauto|reflexivity]].
  cbn [cell_number and_then].
  destruct (complex_inverse_cases (mkC rtotal xtotal)) as [[Hz [y Hy]]|[Hr [Hi Hy]]];
    cbn [real imag] in *; rewrite Hy; cbn [and_then].
  2:{ right. split.
      - destruct (btotal_cell row); [intros [[H|H] _]; contradiction|tauto].
      - destruct (Req_dec_T rtotal 0); [|contradiction].
        destruct (Req_dec_T xtotal 0); [reflexivity|contradiction]. }
  assert (Hexn : forall e : arith_exn,
             (if Req_dec_T rtotal 0
              then if Req_dec_T xtotal 0 then ZeroDivisionError else e
              else e) = e).
  { intros e. destruct (Req_dec_T rtotal 0); [|reflexivity].
    destruct (Req_dec_T xtotal 0); [|reflexivity]. exfalso. destruct Hz; contradiction. }
  rewrite Hexn. clear Hexn.
  destruct (btotal_cell row) as [btotal|]; cbn [cell_number and_then];
    [|right; split; [tauto|reflexivity]].
  destruct (modify_entry_cases n a (source - 1) (destination - 1)
              (fun c => csub c y) Hsq)
    as [[[Hs Hd] [s [d [Hs' [Hd' [Hsi [Hdi H1]]]]]]]|[Hbad H1]];
    rewrite H1; cbn [lift and_then].
  2:{ right. split; [tauto|reflexivity]. }
  rewrite (modify_entry_ok n _ _ _ d s _ (square_c_update n a s d _ Hsq) Hdi Hsi).
  cbn [lift and_then].
  rewrite (modify_entry_ok n _ _ _ s s _
             (square_c_update n _ d s _ (square_c_update n a s d _ Hsq)) Hsi Hsi).
  cbn [lift and_then].
  rewrite (modify_entry_ok n _ _ _ d d _
             (square_c_update n _ s s _
                (square_c_update n _ d s _ (square_c_update n a s d _ Hsq))) Hdi Hdi).
  cbn [lift].
  left. split; [tauto|]. exists s, d, y, (mkC 0 (btotal / 2)).
  split; [exact Hs'|]. split; [exact Hd'|reflexivity].
Qed.

Lemma row_exception_kinds (row : line_row) :
  row_exception row = TypeError \/ row_exception row = ZeroDivisionError \/
  row_exception row = Builtin IndexError.
Proof.
  unfold row_exception.
  destruct (source_cell row), (destination_cell row), (xtotal_cell row) as [x|],
           (rtotal_cell row) as [r|]; auto.
  destruct (Req_dec_T r 0); [destruct (Req_dec_T x 0)|]; auto;
    destruct (btotal_cell row); auto.
Qed.

Lemma with_line_square (n : nat) (a : list (list complex)) (s d : nat)
    (y yp : complex) :
  square_c n a -> square_c n (with_line a s d y yp).
Proof. intros H. unfold with_line. repeat apply square_c_update. exact H. Qed.

Lemma with_line_symmetric (n : nat) (a : list (list complex)) (s d : nat)
    (y yp : complex) :
  square_c n a -> (s < n)%nat -> (d < n)%nat ->
  symmetric_c a -> symmetric_c (with_line a s d y yp).
Proof.
  intros Hsq Hs Hd Hsym p q. unfold with_line.
  rewrite !(centry_update n) by (repeat apply square_c_update; assumption).
  rewrite (Hsym q p).
  destruct (Nat.eqb_spec p s), (Nat.eqb_spec p d), (Nat.eqb_spec q s), (Nat.eqb_spec q d);
    simpl; try reflexivity; exfalso; lia.
Qed.

Lemma zeros_square (n : nat) : square_c n (repeat (repeat (mkC 0 0) n) n).
Proof.
  split; [apply repeat_length|]. apply Forall_forall. intros row H.
  apply repeat_spec in H. subst. apply repeat_length.
Qed.

Lemma nth_repeat_default {A : Type} (x d : A) (n k : nat) :
  nth k (repeat x n) d = if (k <? n)%nat then x else d.
Proof.
  revert k. induction n as [|n IH]; intros [|k]; simpl; try reflexivity. apply IH.
Qed.

Lemma zeros_entry (n p q : nat) : centry (repeat (repeat (mkC 0 0) n) n) p q = mkC 0 0.
Proof.
  unfold centry. rewrite nth_repeat_default.
  destruct (p <? n)%nat; [|destruct q; reflexivity].
  rewrite nth_repeat_default. destruct (q <? n)%nat; reflexivity.
Qed.

Lemma add_lines_returns (n : nat) (rows : list line_row) :
  forall a, square_c n a -> Forall (row_ok n) rows ->
    exists a', add_lines a rows = Returns a' /\ square_c n a' /\
      (symmetric_c a -> symmetric_c a').
Proof.
  induction rows as [|row rows IH]; intros a Hsq Hok.
  - exists a. split; [reflexivity|]. split; [assumption|auto].
  - inversion Hok as [|? ? Hrow Hrest]; subst.
    destruct (add_line_cases n a row Hsq) as [[_ [s [d [y [yp [Hs [Hd Hadd]]]]]]]|[Hbad _]];
      [|contradiction].
    destruct (IH _ (with_line_square n a s d y yp Hsq) Hrest) as [a' [Ha' [Hsq' Hsym]]].
    exists a'. simpl. rewrite Hadd. simpl. split; [exact Ha'|]. split; [exact Hsq'|].
    intros H. apply Hsym. apply (with_line_symmetric n); assumption.
Qed.

Lemma add_lines_first_failure (n : nat) (before : list line_row) (row : line_row)
    (after : list line_row) :
  forall a, square_c n a -> Forall (row_ok n) before -> ~ row_ok n row ->
            add_lines a (before ++ row :: after) = Raises (row_exception row).
Proof.
  induction before as [|r before IH]; intros a Hsq Hok Hbad; simpl.
  - destruct (add_line_cases n a row Hsq) as [[Hrow _]|[_ Hadd]]; [contradiction|].
    rewrite Hadd. reflexivity.
  - inversion Hok as [|? ? Hr Hrest]; subst.
    destruct (add_line_cases n a r Hsq) as [[_ [s [d [y [yp [_ [_ Hadd]]]]]]]|[Hno _]];
      [|contradiction].
    rewrite Hadd. simpl. apply IH; [apply with_line_square|..]; assumption.
Qed.

Lemma add_lines_rows_ok (n : nat) (rows : list line_row) :
  forall a a', square_c n a -> add_lines a rows = Returns a' -> Forall (row_ok n) rows.
Proof.
  induction rows as [|row rows IH]; intros a a' Hsq H; [constructor|].
  simpl in H.
  destruct (add_line_cases n a row Hsq) as [[Hok [s [d [y [yp [_ [_ Hadd]]]]]]]|[_ Hbad]];
    rewrite ?Hadd, ?Hbad in H; simpl in H; try discriminate.
  constructor; [exact Hok|].
  apply (IH _ a' (with_line_square n a s d y yp Hsq) H).
Qed.

Lemma add_lines_raises (n : nat) (rows : list line_row) :
  forall a e, square_c n a -> add_lines a rows = Raises e ->
              e = TypeError \/ e = ZeroDivisionError \/ e = Builtin IndexError.
Proof.
  induction rows as [|row rows IH]; intros a e Hsq H; simpl in H; [discriminate|].
  destruct (add_line_cases n a row Hsq) as [[_ [s [d [y [yp [_ [_ Hadd]]]]]]]|[_ Hbad]];
    rewrite ?Hadd, ?Hbad in H; simpl in H.
  - apply (IH _ e (with_line_square n a s d y yp Hsq) H).
  - inversion H. apply row_exception_kinds.
Qed.

Lemma one_line_ok : Forall (row_ok 2) (one_line tt 1 2).
Proof.
  constructor; [|constructor]. unfold row_ok. simpl.
  split; [right; lra|lia].
Qed.

(** X12: a matrix that [read_admittance_matrix] returns is square of the
    size [num_buses] and symmetric, whatever the line rows are. *)
Theorem X12_admittance_symmetric (worksheet : Type)
    (iter_rows : worksheet -> Z -> Z -> list line_row)
    (self : PowerFlow.PowerFlow worksheet) (num_buses : nat) (Y : list (list complex)) :
  read_admittance_matrix worksheet iter_rows self num_buses = Returns Y ->
  square_c num_buses Y /\ symmetric_c Y.
Proof.
  unfold read_admittance_matrix. intros H.
  pose proof (add_lines_rows_ok num_buses _ _ _ (zeros_square num_buses) H) as Hok.
  destruct (add_lines_returns num_buses _ _ (zeros_square num_buses) Hok)
    as [Y' [HY' [Hsq Hsym]]].
  rewrite H in HY'. inversion HY'; subst Y'. split; [exact Hsq|].
  apply Hsym. intros p q. rewrite !zeros_entry. reflexivity.
Qed.

Lemma X12_admittance_symmetric_witness :
  exists Y, read_admittance_matrix unit one_line first_api 2 = Returns Y /\
            square_c 2 Y /\ symmetric_c Y.
Proof.
  destruct (add_lines_returns 2 (one_line tt 1 2) _ (zeros_square 2) one_line_ok)
    as [Y [HY _]].
  exists Y. split; [exact HY|].
  exact (X12_admittance_symmetric unit one_line first_api 2 Y HY).
Defined.

(** X14: [read_admittance_matrix] returns exactly when every line row it
    reads holds five numbers, a resistance or a reactance that is not zero,
    and bus numbers that, less one, are array indices of the matrix,
    negative ones down to [- num_buses] included, which wrap around.
    Otherwise it raises at the first row that does not: [TypeError] for a
    blank bus number, resistance or reactance, [ZeroDivisionError] for a
    resistance and a reactance that are both zero, [TypeError] for a blank
    susceptance, [IndexError] for a bus number out of range, in that
    order. *)
Theorem X14_admittance_outcome (worksheet : Type)
    (iter_rows : worksheet -> Z -> Z -> list line_row)
    (self : PowerFlow.PowerFlow worksheet) (num_buses : nat) :
  let rows := iter_rows (PowerFlow.line_data worksheet self) 1%Z (Z.of_nat num_buses) in
  ((exists Y, read_admittance_matrix worksheet iter_rows self num_buses = Returns Y) <->
   Forall (row_ok num_buses) rows) /\
  (forall before row after,
     rows = before ++ row :: after ->
     Forall (row_ok num_buses) before -> ~ row_ok num_buses row ->
     read_admittance_matrix worksheet iter_rows self num_buses
     = Raises (row_exception row)) /\
  (forall e, read_admittance_matrix worksheet iter_rows self num_buses = Raises e ->
             e = TypeError \/ e = ZeroDivisionError \/ e = Builtin IndexError).
Proof.
  intros rows. unfold read_admittance_matrix. fold rows. split; [split|split].
  - intros [Y H]. apply (add_lines_rows_ok num_buses _ _ _ (zeros_square num_buses) H).
  - intros Hok.
    destruct (add_lines_returns num_buses _ _ (zeros_square num_buses) Hok) as [Y [HY _]].
    exists Y. exact HY.
  - intros before row after Hrows Hok Hbad. rewrite Hrows.
    apply (add_lines_first_failure num_buses); [apply zeros_square|assumption..].
  - intros e H. apply (add_lines_raises num_buses _ _ _ (zeros_square num_buses) H).
Qed.

Lemma X14_admittance_outcome_witness :
  read_admittance_matrix unit blank_tail first_api 2 = Raises TypeError.
Proof.
  apply (proj1 (proj2 (X14_admittance_outcome unit blank_tail first_api 2))
           [mkLine (Some 1%Z) (Some 2%Z) (Some 0) (Some 1) (Some 0)]
           (mkLine None None None None None) []).
  - reflexivity.
  - constructor; [|constructor]. unfold row_ok. simpl. split; [right; lra|lia].
  - unfold row_ok. simpl. tauto.
Defined.

(** ** The bus worksheet of the first API: [read_bus_data] *)

Local Abbreviation Permutation := Permutation.Permutation.
Local Abbreviation StronglySorted := Sorted.StronglySorted.

Lemma cadd_assoc (a b c : complex) : cadd (cadd a b) c = cadd a (cadd b c).
Proof. unfold cadd. simpl. f_equal; lra. Qed.

Lemma cadd_comm (a b : complex) : cadd a b = cadd b a.
Proof. unfold cadd. f_equal; lra. Qed.

Lemma cadd_zero_r (a : complex) : cadd a (mkC 0 0) = a.
Proof. destruct a. unfold cadd. simpl. f_equal; lra. Qed.

Lemma read_rows_returns (worksheet : Type) (self : PowerFlow.PowerFlow worksheet) :
  PowerFlow.power_base_mva worksheet self <> 0 ->
  forall rows s_total buses,
    read_rows worksheet self rows s_total buses
    = Returns (cadd s_total
                    (csum (map (specified_power (PowerFlow.power_base_mva worksheet self))
                               rows)),
               buses ++ map (specified_bus (PowerFlow.start_voltage worksheet self)
                                           (PowerFlow.power_base_mva worksheet self))
                            rows).
Proof.
  intros Hb. induction rows as [|row rows IH]; intros s_total buses; simpl.
  - rewrite cadd_zero_r, app_nil_r. reflexivity.
  - unfold complex_div_float.
    destruct (Req_dec_T (PowerFlow.power_base_mva worksheet self) 0) as [H0|_];
      [contradiction|].
    cbn [and_then real imag]. rewrite IH, cadd_assoc, <- app_assoc. reflexivity.
Qed.

Lemma read_rows_raises (worksheet : Type) (self : PowerFlow.PowerFlow worksheet)
    (rows : list bus_row) (s_total : complex) (buses : list PowerFlow.Bus) :
  PowerFlow.power_base_mva worksheet self = 0 -> rows <> [] ->
  read_rows worksheet self rows s_total buses = Raises ZeroDivisionError.
Proof.
  intros Hb Hrows. destruct rows as [|row rows]; [congruence|]. simpl.
  unfold complex_div_float.
  destruct (Req_dec_T (PowerFlow.power_base_mva worksheet self) 0) as [_|H0];
    [reflexivity|contradiction].
Qed.

Lemma insert_by_number_perm (b : PowerFlow.Bus) (l : list PowerFlow.Bus) :
  Permutation (insert_by_number b l) (b :: l).
Proof.
  induction l as [|c l IH]; simpl; [apply Permutation.Permutation_refl|].
  destruct (PowerFlow.number b <=? PowerFlow.number c)%Z.
  - apply Permutation.Permutation_refl.
  - apply Permutation.perm_trans with (c :: b :: l).
    + apply Permutation.perm_skip. exact IH.
    + apply Permutation.perm_swap.
Qed.

Lemma sorted_by_number_perm (l : list PowerFlow.Bus) :
  Permutation (sorted_by_number l) l.
Proof.
  induction l as [|b l IH]; simpl; [apply Permutation.perm_nil|].
  apply Permutation.perm_trans with (b :: sorted_by_number l).
  - apply insert_by_number_perm.
  - apply Permutation.perm_skip. exact IH.
Qed.

Lemma sorted_by_number_length (l : list PowerFlow.Bus) :
  length (sorted_by_number l) = length l.
Proof. apply Permutation.Permutation_length, sorted_by_number_perm. Qed.

Lemma insert_by_number_sorted (b : PowerFlow.Bus) (l : list PowerFlow.Bus) :
  StronglySorted Z.le (map PowerFlow.number l) ->
  StronglySorted Z.le (map PowerFlow.number (insert_by_number b l)).
Proof.
  induction l as [|c l IH]; intros Hs; simpl.
  - constructor; constructor.
  - inversion Hs as [|x l0 Hs' Hall]; subst.
    destruct (PowerFlow.number b <=? PowerFlow.number c)%Z eqn:Hle.
    + apply Z.leb_le in Hle. simpl. constructor; [exact Hs|].
      constructor; [exact Hle|].
      apply Forall_forall. intros x Hx.
      pose proof (proj1 (Forall_forall _ _) Hall x Hx). lia.
    + apply Z.leb_gt in Hle. simpl. constructor; [apply IH; exact Hs'|].
      apply Forall_forall. intros x Hx.
      apply (Permutation.Permutation_in x
               (Permutation.Permutation_map PowerFlow.number
                  (insert_by_number_perm b l))) in Hx.
      destruct Hx as [Hx|Hx]; [simpl in Hx; lia|].
      apply (proj1 (Forall_forall _ _) Hall x Hx).
Qed.

Lemma sorted_by_number_sorted (l : list PowerFlow.Bus) :
  StronglySorted Z.le (map PowerFlow.number (sorted_by_number l)).
Proof.
  induction l as [|b l IH]; simpl; [constructor|].
  apply insert_by_number_sorted. exact IH.
Qed.

Lemma sorted_perm_eq (l1 : list Z) :
  forall l2, StronglySorted Z.le l1 -> StronglySorted Z.le l2 ->
             Permutation l1 l2 -> l1 = l2.
Proof.
  induction l1 as [|a l1 IH]; intros l2 H1 H2 Hp.
  - apply Permutation.Permutation_nil in Hp. symmetry. exact Hp.
  - destruct l2 as [|b l2].
    + apply Permutation.Permutation_sym, Permutation.Permutation_nil in Hp. discriminate.
    + inversion H1 as [|x l Hs1 Ha1]; inversion H2 as [|y l' Hs2 Ha2]; subst.
      assert (Hab : a = b).
      { assert (Hb : In b (a :: l1)).
        { apply (Permutation.Permutation_in b (Permutation.Permutation_sym Hp)).
          left; reflexivity. }
        assert (Ha : In a (b :: l2)).
        { apply (Permutation.Permutation_in a Hp). left; reflexivity. }
        destruct Hb as [Hb|Hb]; [exact Hb|].
        destruct Ha as [Ha|Ha]; [symmetry; exact Ha|].
        pose proof (proj1 (Forall_forall _ _) Ha1 b Hb).
        pose proof (proj1 (Forall_forall _ _) Ha2 a Ha). lia. }
      subst b. f_equal. apply IH; [exact Hs1|exact Hs2|].
      apply (Permutation.Permutation_cons_inv Hp).
Qed.

Lemma seq_sorted (n : nat) :
  forall a, StronglySorted Z.le (map Z.of_nat (seq a n)).
Proof.
  induction n as [|n IH]; intros a; simpl; constructor; [apply IH|].
  apply Forall_forall. intros x Hx. apply in_map_iff in Hx.
  destruct Hx as [k [Hk Hin]]. apply in_seq in Hin. lia.
Qed.

Lemma csum_perm (l l' : list complex) : Permutation l l' -> csum l = csum l'.
Proof.
  intros Hp. induction Hp as [|x l l' Hp IH|x y l|l l' l'' Hp1 IH1 Hp2 IH2]; simpl.
  - reflexivity.
  - rewrite IH. reflexivity.
  - rewrite <- !cadd_assoc, (cadd_comm y x). reflexivity.
  - rewrite IH1. exact IH2.
Qed.

Lemma csum_power_update (x : complex) (d : PowerFlow.Bus) (l : list PowerFlow.Bus) :
  forall i, (i < length l)%nat ->
    cadd (csum (map PowerFlow.power
                    (update l i (fun bus => PowerFlow.mkBus (PowerFlow.number bus) x
                                                            (PowerFlow.voltage bus)))))
         (PowerFlow.power (nth i l d))
    = cadd (csum (map PowerFlow.power l)) x.
Proof.
  induction l as [|b l IH]; intros [|i] Hi; simpl in *; try lia.
  - generalize (csum (map PowerFlow.power l)). intros [r0 i0].
    unfold cadd. simpl. f_equal; lra.
  - rewrite cadd_assoc, IH by lia. rewrite <- !cadd_assoc. reflexivity.
Qed.

Lemma read_bus_data_cases (worksheet : Type) (first_cells : worksheet -> list cell_value)
    (iter_rows : worksheet -> Z -> Z -> list bus_row)
    (self : PowerFlow.PowerFlow worksheet) :
  let rows := iter_rows (PowerFlow.bus_data worksheet self) 1%Z
                (Z.of_nat (count_rows worksheet first_cells self
                                      (PowerFlow.bus_data worksheet self))) in
  let n := Z.of_nat (length rows) in
  let base := PowerFlow.power_base_mva worksheet self in
  let slack := PowerFlow.slack_bus_number worksheet self in
  let listed := sorted_by_number
                  (map (specified_bus (PowerFlow.start_voltage worksheet self) base)
                       rows) in
  (base = 0 /\ rows <> [] /\
   read_bus_data worksheet first_cells iter_rows self = Raises ZeroDivisionError) \/
  ((base <> 0 \/ rows = []) /\ ~ (- n <= slack - 1 < n)%Z /\
   read_bus_data worksheet first_cells iter_rows self = Raises (Builtin IndexError)) \/
  (base <> 0 /\ (- n <= slack - 1 < n)%Z /\
   exists i, (i < length rows)%nat /\ np_index (length rows) (slack - 1) = Ok i /\
     read_bus_data worksheet first_cells iter_rows self
     = Returns (update listed i
                  (fun bus => PowerFlow.mkBus (PowerFlow.number bus)
                                (cneg (csum (map (specified_power base) rows)))
                                (PowerFlow.voltage bus)))).
Proof.
  intros rows n base slack listed. unfold read_bus_data. fold rows.
  destruct (Req_dec_T base 0) as [Hb|Hb].
  - destruct rows as [|row rows'] eqn:Hrows.
    + right. left. split; [right; reflexivity|]. simpl.
      split; [subst n; simpl; lia|].
      destruct (np_index_range 0 (PowerFlow.slack_bus_number worksheet self - 1))
        as [[Hr _]|[_ Hi]]; [simpl in Hr; lia|].
      rewrite Hi. reflexivity.
    + left. split; [exact Hb|]. split; [discriminate|].
      rewrite (read_rows_raises worksheet self (row :: rows') _ _ Hb) by discriminate.
      reflexivity.
  - rewrite (read_rows_returns worksheet self Hb). cbn [and_then fst snd app].
    fold base. fold listed.
    assert (Hlen : length listed = length rows).
    { unfold listed. rewrite sorted_by_number_length, length_map. reflexivity. }
    rewrite Hlen. fold slack.
    destruct (np_index_range (length rows) (slack - 1)) as [[Hr [i [Hi Hidx]]]|[Hr Hidx]];
      rewrite Hidx; cbn [lift and_then].
    + right. right. split; [exact Hb|]. split; [exact Hr|].
      exists i. split; [exact Hi|]. split; [reflexivity|].
      rewrite cadd_comm, cadd_zero_r. reflexivity.
    + right. left. split; [left; exact Hb|]. split; [exact Hr|reflexivity].
Qed.

Lemma map_update_fixed {A B : Type} (g : A -> B) (f : A -> A) (l : list A) :
  (forall b, g (f b) = g b) -> forall r, map g (update l r f) = map g l.
Proof.
  intros Hf. induction l as [|b l IH]; intros [|r]; simpl; try reflexivity.
  - rewrite Hf. reflexivity.
  - rewrite IH. reflexivity.
Qed.

Lemma value_or_nonzero (value : option R) (default : R) :
  default <> 0 -> value_or value default <> 0.
Proof.
  intros Hd. unfold value_or, truthy. destruct value as [x|]; [|exact Hd].
  destruct (Req_dec_T x 0); assumption.
Qed.

Lemma bus_sheet_returns :
  exists buses, read_bus_data unit bus_sheet_cells bus_sheet first_api = Returns buses.
Proof.
  destruct (read_bus_data_cases unit bus_sheet_cells bus_sheet first_api)
    as [[Hb _]|[[_ [Hr _]]|[_ [_ [i [_ [_ H]]]]]]].
  - simpl in Hb. lra.
  - exfalso. apply Hr. simpl. lia.
  - eexists. exact H.
Qed.


(** X16: the list that [read_bus_data] returns is the list of the buses of
    the rows, sorted by number, in which the bus at the position
    [slack_bus_number - 1] has its power replaced by minus the sum of the
    powers of all the rows, its own included.  So the powers of the returned
    buses sum to minus the power that the row of that bus specified, and to
    zero only when it specified none.  With a start voltage that is not zero
    every bus has a real voltage that is not zero: an empty or zero voltage
    cell takes the start voltage. *)
Theorem X16_read_bus_data_balance (worksheet : Type)
    (first_cells : worksheet -> list cell_value)
    (iter_rows : worksheet -> Z -> Z -> list bus_row)
    (self : PowerFlow.PowerFlow worksheet) (buses : list PowerFlow.Bus) :
  read_bus_data worksheet first_cells iter_rows self = Returns buses ->
  let rows := iter_rows (PowerFlow.bus_data worksheet self) 1%Z
                (Z.of_nat (count_rows worksheet first_cells self
                                      (PowerFlow.bus_data worksheet self))) in
  let base := PowerFlow.power_base_mva worksheet self in
  let start := PowerFlow.start_voltage worksheet self in
  let slack := PowerFlow.slack_bus_number worksheet self in
  let listed := sorted_by_number (map (specified_bus start base) rows) in
  let total := csum (map (specified_power base) rows) in
  exists i listed_slack,
    np_index (length rows) (slack - 1) = Ok i /\
    nth_error listed i = Some listed_slack /\
    map PowerFlow.number buses = map PowerFlow.number listed /\
    map PowerFlow.voltage buses = map PowerFlow.voltage listed /\
    (forall p, p <> i -> nth_error buses p = nth_error listed p) /\
    nth_error buses i
    = Some (PowerFlow.mkBus (PowerFlow.number listed_slack) (cneg total)
                            (PowerFlow.voltage listed_slack)) /\
    csum (map PowerFlow.power listed) = total /\
    csum (map PowerFlow.power buses) = cneg (PowerFlow.power listed_slack) /\
    (start <> 0 ->
     Forall (fun bus => real (PowerFlow.voltage bus) <> 0 /\
                        imag (PowerFlow.voltage bus) = 0) buses).
Proof.
  intros Hret. cbv zeta.
  pose proof (read_bus_data_cases worksheet first_cells iter_rows self) as Hcases.
  cbv zeta in Hcases.
  set (rows := iter_rows (PowerFlow.bus_data worksheet self) 1%Z
                 (Z.of_nat (count_rows worksheet first_cells self
                                       (PowerFlow.bus_data worksheet self)))) in *.
  set (base := PowerFlow.power_base_mva worksheet self) in *.
  set (start := PowerFlow.start_voltage worksheet self) in *.
  set (slack := PowerFlow.slack_bus_number worksheet self) in *.
  set (listed := sorted_by_number (map (specified_bus start base) rows)) in *.
  set (total := csum (map (specified_power base) rows)) in *.
  destruct Hcases as [[_ [_ H]]|[[_ [_ H]]|[Hb [Hr [i [Hi [Hidx H]]]]]]];
    rewrite H in Hret; try discriminate.
  inversion Hret as [Hbuses]. clear Hret H.
  assert (Hlen : length listed = length rows).
  { unfold listed. rewrite sorted_by_number_length, length_map. reflexivity. }
  destruct (nth_error listed i) as [b|] eqn:Hnth;
    [|apply nth_error_None in Hnth; lia].
  assert (Htotal : csum (map PowerFlow.power listed) = total).
  { unfold listed, total.
    rewrite (csum_perm _ _ (Permutation.Permutation_map PowerFlow.power
                              (sorted_by_number_perm _))).
    rewrite map_map. reflexivity. }
  subst buses. exists i, b. split; [exact Hidx|]. split; [exact Hnth|].
  split; [apply map_update_fixed; reflexivity|].
  split; [apply map_update_fixed; reflexivity|].
  split; [|split; [|split; [exact Htotal|split]]].
  - intros p Hp. rewrite nth_error_update.
    destruct (Nat.eqb i p) eqn:Hip; [apply Nat.eqb_eq in Hip; congruence|reflexivity].
  - rewrite nth_error_update, Nat.eqb_refl, Hnth. reflexivity.
  - pose proof (csum_power_update (cneg total) b listed i ltac:(lia)) as Hsum.
    rewrite (nth_error_nth _ _ _ Hnth), Htotal in Hsum.
    revert Hsum.
    generalize (csum (map PowerFlow.power
                          (update listed i
                             (fun bus => PowerFlow.mkBus (PowerFlow.number bus)
                                           (cneg total) (PowerFlow.voltage bus))))).
    intros [r0 i0]. destruct total as [tr ti]. destruct (PowerFlow.power b) as [br bi].
    unfold cadd, cneg. simpl. intros Hsum. inversion Hsum. f_equal; lra.
  - intros Hstart.
    assert (Hall : Forall (fun v => real v <> 0 /\ imag v = 0)
                          (map PowerFlow.voltage listed)).
    { apply Forall_forall. intros v Hv. apply in_map_iff in Hv.
      destruct Hv as [bus [Hv Hin]]. subst v.
      apply (Permutation.Permutation_in bus (sorted_by_number_perm _)) in Hin.
      apply in_map_iff in Hin. destruct Hin as [row [Hrow _]]. subst bus. simpl.
      split; [apply value_or_nonzero; exact Hstart|reflexivity]. }
    rewrite <- (map_update_fixed PowerFlow.voltage
                  (fun bus => PowerFlow.mkBus (PowerFlow.number bus) (cneg total)
                                              (PowerFlow.voltage bus))
                  listed ltac:(reflexivity) i) in Hall.
    apply Forall_forall. intros bus Hin.
    apply (proj1 (Forall_forall _ _) Hall). apply in_map. exact Hin.
Qed.

Lemma X16_read_bus_data_balance_witness :
  exists buses,
    read_bus_data unit bus_sheet_cells bus_sheet first_api = Returns buses /\
    exists i listed_slack,
      np_index 2 (1 - 1) = Ok i /\
      nth_error (sorted_by_number (map (specified_bus 1 100) (bus_sheet tt 1 3))) i
      = Some listed_slack /\
      csum (map PowerFlow.power buses) = cneg (PowerFlow.power listed_slack).
Proof.
  destruct bus_sheet_returns as [buses H]. exists buses. split; [exact H|].
  destruct (X16_read_bus_data_balance unit bus_sheet_cells bus_sheet first_api buses H)
    as [i [b [Hi [Hb [_ [_ [_ [_ [_ [Hsum _]]]]]]]]]].
  exists i, b. split; [exact Hi|]. split; [exact Hb|exact Hsum].
Defined.

Lemma np_index_nonneg (n : nat) (z : Z) :
  (0 <= z < Z.of_nat n)%Z -> np_index n z = Ok (Z.to_nat z).
Proof.
  intros Hz. unfold np_index.
  rewrite (proj2 (Z.leb_le 0 z)) by lia. rewrite (proj2 (Z.ltb_lt z (Z.of_nat n))) by lia.
  reflexivity.
Qed.

Lemma nth_error_seq_numbers (n p : nat) (z : Z) :
  nth_error (map Z.of_nat (seq 1 n)) p = Some z -> z = (Z.of_nat p + 1)%Z.
Proof.
  intros H. destruct (Nat.lt_ge_cases p n) as [Hp|Hp].
  - rewrite nth_error_map, nth_error_seq in H.
    destruct (p <? n)%nat eqn:Hlt; [|apply Nat.ltb_ge in Hlt; lia].
    simpl in H. inversion H. lia.
  - assert (Hnone : nth_error (map Z.of_nat (seq 1 n)) p = None).
    { apply nth_error_None. rewrite length_map, length_seq. exact Hp. }
    congruence.
Qed.

(** X17: when the power base is not zero, the bus numbers of the rows are
    the numbers 1..N in some order and the slack bus number is one of them,
    [read_bus_data] returns the buses numbered 1..N in list order, so that
    [number - 1] is the position of every bus; the bus of a row has the
    power and the voltage of its row, except the slack bus, which has the
    voltage of its row and minus the sum of the powers of all the rows. *)
Theorem X17_read_bus_data_numbering (worksheet : Type)
    (first_cells : worksheet -> list cell_value)
    (iter_rows : worksheet -> Z -> Z -> list bus_row)
    (self : PowerFlow.PowerFlow worksheet) :
  let rows := iter_rows (PowerFlow.bus_data worksheet self) 1%Z
                (Z.of_nat (count_rows worksheet first_cells self
                                      (PowerFlow.bus_data worksheet self))) in
  let base := PowerFlow.power_base_mva worksheet self in
  let start := PowerFlow.start_voltage worksheet self in
  let slack := PowerFlow.slack_bus_number worksheet self in
  base <> 0 -> (1 <= slack <= Z.of_nat (length rows))%Z ->
  Permutation.Permutation (map bus_num_cell rows) (map Z.of_nat (seq 1 (length rows))) ->
  exists buses,
    read_bus_data worksheet first_cells iter_rows self = Returns buses /\
    map PowerFlow.number buses = map Z.of_nat (seq 1 (length rows)) /\
    forall row, In row rows ->
      nth_error buses (Z.to_nat (bus_num_cell row - 1))
      = Some (if (bus_num_cell row =? slack)%Z
              then PowerFlow.mkBus slack (cneg (csum (map (specified_power base) rows)))
                     (PowerFlow.voltage (specified_bus start base row))
              else specified_bus start base row).
Proof.
  cbv zeta.
  pose proof (read_bus_data_cases worksheet first_cells iter_rows self) as Hcases.
  cbv zeta in Hcases.
  set (rows := iter_rows (PowerFlow.bus_data worksheet self) 1%Z
                 (Z.of_nat (count_rows worksheet first_cells self
                                       (PowerFlow.bus_data worksheet self)))) in *.
  set (base := PowerFlow.power_base_mva worksheet self) in *.
  set (start := PowerFlow.start_voltage worksheet self) in *.
  set (slack := PowerFlow.slack_bus_number worksheet self) in *.
  set (listed := sorted_by_number (map (specified_bus start base) rows)) in *.
  set (total := csum (map (specified_power base) rows)) in *.
  intros Hbase Hslack Hperm.
  destruct Hcases as [[Hb _]|[[_ [Hr _]]|[_ [_ [i [Hi [Hidx H]]]]]]];
    [contradiction|exfalso; apply Hr; lia|].
  rewrite np_index_nonneg in Hidx by lia. inversion Hidx as [Hi']. clear Hidx.
  assert (Hnum : map PowerFlow.number listed = map Z.of_nat (seq 1 (length rows))).
  { apply sorted_perm_eq; [apply sorted_by_number_sorted|apply seq_sorted|].
    apply Permutation.perm_trans with (map bus_num_cell rows); [|exact Hperm].
    unfold listed.
    apply Permutation.perm_trans
      with (map PowerFlow.number (map (specified_bus start base) rows)).
    - apply Permutation.Permutation_map, sorted_by_number_perm.
    - rewrite map_map. apply Permutation.Permutation_refl. }
  eexists. split; [exact H|]. split.
  - rewrite map_update_fixed by reflexivity. exact Hnum.
  - intros row Hin.
    assert (Hl : In (specified_bus start base row) listed).
    { apply (Permutation.Permutation_in _
               (Permutation.Permutation_sym (sorted_by_number_perm _))).
      apply in_map. exact Hin. }
    apply In_nth_error in Hl. destruct Hl as [p Hp].
    assert (Hz : bus_num_cell row = (Z.of_nat p + 1)%Z).
    { apply (nth_error_seq_numbers (length rows)). rewrite <- Hnum.
      rewrite nth_error_map, Hp. reflexivity. }
    replace (Z.to_nat (bus_num_cell row - 1)) with p by lia.
    rewrite nth_error_update, Hp.
    destruct (Nat.eqb i p) eqn:Hip.
    + apply Nat.eqb_eq in Hip.
      rewrite (proj2 (Z.eqb_eq (bus_num_cell row) slack)) by lia.
      simpl. f_equal. f_equal. lia.
    + apply Nat.eqb_neq in Hip.
      rewrite (proj2 (Z.eqb_neq (bus_num_cell row) slack)) by lia.
      reflexivity.
Qed.

Lemma X17_read_bus_data_numbering_witness :
  exists buses,
    read_bus_data unit bus_sheet_cells bus_sheet first_api = Returns buses /\
    map PowerFlow.number buses = [1%Z; 2%Z].
Proof.
  destruct (X17_read_bus_data_numbering unit bus_sheet_cells bus_sheet first_api)
    as [buses [H [Hnum _]]].
  - simpl. lra.
  - simpl. lia.
  - simpl. apply Permutation.perm_swap.
  - exists buses. split; [exact H|exact Hnum].
Defined.






Lemma count_loop_shift (cells : list cell_value) :
  forall n, count_loop cells n = (n + count_loop cells 0)%nat.
Proof.
  induction cells as [|c cells IH]; intros n; simpl; [lia|].
  destruct (cell_truthy c); [|lia].
  rewrite (IH (S n)), (IH 1%nat). lia.
Qed.

(** X19: [count_rows] returns the position of the first row whose first
    cell is empty, zero or an empty text, and the number of rows when there
    is none: all the rows before that position have a first cell that is
    true. *)
Theorem X19_count_rows (worksheet : Type) (first_cells : worksheet -> list cell_value)
    (self : PowerFlow.PowerFlow worksheet) (ws : worksheet) :
  let cells := first_cells ws in
  let n := count_rows worksheet first_cells self ws in
  (n <= length cells)%nat /\
  (forall p, (p < n)%nat -> cell_truthy (nth p cells Blank) = true) /\
  cell_truthy (nth n cells Blank) = false /\
  (Forall (fun c => cell_truthy c = true) cells -> n = length cells).
Proof.
  cbv zeta. unfold count_rows. generalize (first_cells ws). intros cells.
  induction cells as [|c cells IH]; simpl.
  - repeat split; try reflexivity; try lia.
  - destruct (cell_truthy c) eqn:Hc.
    + rewrite count_loop_shift. destruct IH as [Hle [Hbefore [Hat Hall]]].
      split; [simpl; lia|]. split; [|split].
      * intros [|p] Hp; [exact Hc|]. apply Hbefore. simpl in Hp. lia.
      * simpl. exact Hat.
      * intros H. inversion H; subst. simpl. f_equal. apply Hall. assumption.
    + split; [lia|]. split; [intros p Hp; lia|]. split; [exact Hc|].
      intros H. inversion H; subst. congruence.
Qed.
